(** * @cldmv/wisp: caller-aware resolution and tiered JSON loading

    A shallow embedding of [src/lib/resolve-from-caller.mjs] and
    [src/wisp.mjs].  JavaScript exceptions, the process-wide
    [Error.prepareStackTrace] hook, the module registry and the object
    heap are threaded through an explicit state-and-exception monad; the
    Node.js primitives the two files call ([node:path], [node:url],
    [node:fs], [JSON], dynamic [import()], V8 call sites) are the fields
    of a [Host] record, so every statement holds for whatever the
    runtime does. *)

From Stdlib Require Import Ascii String.
From stdpp Require Import base strings list gmap fin_maps pretty.

Set Warnings "-register-all".

Open Scope string_scope.

(** ** JavaScript exceptions *)

Inductive ErrKind :=
  | KError | KTypeError | KSyntaxError | KSystemError | KDataCloneError | KRangeError.

Record JsError := mkError { kind : ErrKind; message : string }.

Inductive result (A : Type) :=
  | Ok (a : A)
  | Err (e : JsError).
Arguments Ok {A} a.
Arguments Err {A} e.

Definition result_bind {A B} (r : result A) (k : A -> result B) : result B :=
  match r with
  | Ok a => k a
  | Err e => Err e
  end.

(** ** JSON documents *)

Inductive Json :=
  | JNull
  | JBool (b : bool)
  | JNum (n : Z)
  | JStr (s : string)
  | JArr (items : list Json)
  | JObj (fields : list (string * Json)).

(** Structural equality of documents. *)
Fixpoint Json_eqb (a b : Json) {struct a} : bool :=
  match a, b with
  | JNull, JNull => true
  | JBool x, JBool y => Bool.eqb x y
  | JNum x, JNum y => Z.eqb x y
  | JStr x, JStr y => String.eqb x y
  | JArr xs, JArr ys =>
      (fix all2 (xs ys : list Json) {struct xs} : bool :=
         match xs, ys with
         | [], [] => true
         | x :: xs', y :: ys' => Json_eqb x y && all2 xs' ys'
         | _, _ => false
         end) xs ys
  | JObj xs, JObj ys =>
      (fix all2 (xs ys : list (string * Json)) {struct xs} : bool :=
         match xs, ys with
         | [], [] => true
         | (k, x) :: xs', (k', y) :: ys' => String.eqb k k' && Json_eqb x y && all2 xs' ys'
         | _, _ => false
         end) xs ys
  | _, _ => false
  end.

(** ** Values the two files pass around *)

(** What [resolvePathFromCaller] / [resolveUrlFromCaller] can be handed
    as [rel].  An object is described by its [startsWith] member, the
    only member the resolvers look at. *)
Inductive Member :=
  | MAbsent
  | MNotCallable
  | MMethod (answer : string -> bool).

Inductive JsVal :=
  | JUndefined
  | JNullVal
  | JBoolean (b : bool)
  | JNumber (n : Z)
  | JString (s : string)
  | JUrlObject (href : string)
  | JObject (startsWith_member : Member).

(** The [input], [base] and [fallback] of the loaders: [string | URL].
    ([String(input)] of anything else is a string again.) *)
Inductive Input :=
  | InUrl (href : string)
  | InStr (s : string).

(** [String(i)]: the text of a string, the href of a URL object. *)
Definition input_text (i : Input) : string :=
  match i with
  | InUrl href => href
  | InStr s => s
  end.

(** JavaScript truthiness of a string and of a [string | URL]. *)
Definition truthy_str (s : string) : bool :=
  match s with
  | EmptyString => false
  | _ => true
  end.

Definition truthy_input (i : option Input) : bool :=
  match i with
  | None => false
  | Some (InUrl _) => true
  | Some (InStr s) => truthy_str s
  end.

(** [s.startsWith(p)]. *)
Definition startsWith (s p : string) : bool := String.prefix p s.

(** ** The world: heap, module registry, global hook, effect trace *)

Definition loc := nat.

(** A loaded value is a reference: either to a structure in the heap or
    to the module namespace object whose default export is that
    structure (what [mod?.default ?? mod] yields for a nullish
    default). *)
Inductive Value :=
  | VRef (l : loc)
  | VNamespace (l : loc).

Inductive Hook :=
  | HookUnset
  | HookUser (id : nat)
  | HookCallSites.

Inductive SkipFn := FnPickPrimary | FnPickFallback.

Inductive ImportSyntax := SynWith | SynAssert.

Inductive Event :=
  | EvSample (skip : option SkipFn)
  | EvExists (p : string)
  | EvRead (href : string)
  | EvImport (syn : ImportSyntax) (href ty : string).

Record World := mkWorld {
  heap : list Json;
  registry : gmap (string * string) loc;
  prepareStackTrace : Hook;
  trace : list Event
}.

Definition set_hook (hk : Hook) (w : World) : World :=
  mkWorld (heap w) (registry w) hk (trace w).

Definition add_event (e : Event) (w : World) : World :=
  mkWorld (heap w) (registry w) (prepareStackTrace w) (trace w ++ [e]).

Definition alloc_doc (d : Json) (w : World) : loc * World :=
  (length (heap w),
   mkWorld (heap w ++ [d]) (registry w) (prepareStackTrace w) (trace w)).

Definition cache_module (key : string * string) (l : loc) (w : World) : World :=
  mkWorld (heap w) (<[key := l]> (registry w)) (prepareStackTrace w) (trace w).

(** A caller mutating the structure behind a reference it was given. *)
Definition mutate (l : loc) (d : Json) (w : World) : World :=
  mkWorld (<[l := d]> (heap w)) (registry w) (prepareStackTrace w) (trace w).

(** What deep equality observes of a value. *)
Inductive Shape :=
  | SDoc (d : Json)
  | SNamespace (default : Json)
  | SDangling.

Definition deref (w : World) (v : Value) : Shape :=
  match v with
  | VRef l => match heap w !! l with Some d => SDoc d | None => SDangling end
  | VNamespace l => match heap w !! l with Some d => SNamespace d | None => SDangling end
  end.

(** ** The state-and-exception monad *)

Inductive outcome (A : Type) :=
  | Ret (a : A)
  | Throw (e : JsError)
  | Diverge.
Arguments Ret {A} a.
Arguments Throw {A} e.
Arguments Diverge {A}.

Definition M (A : Type) : Type := World -> outcome A * World.

Definition ret {A} (a : A) : M A := fun w => (Ret a, w).

Definition bind {A B} (m : M A) (k : A -> M B) : M B :=
  fun w =>
    match m w with
    | (Ret a, w') => k a w'
    | (Throw e, w') => (Throw e, w')
    | (Diverge, w') => (Diverge, w')
    end.

Definition throw {A} (e : JsError) : M A := fun w => (Throw e, w).

Definition diverge {A} : M A := fun w => (Diverge, w).

Definition lift {A} (r : result A) : M A :=
  match r with
  | Ok a => ret a
  | Err e => throw e
  end.

Definition emit (e : Event) : M unit := fun w => (Ret tt, add_event e w).

(** [try { body } catch (e) { handler e }]. *)
Definition try_catch {A} (body : M A) (handler : JsError -> M A) : M A :=
  fun w =>
    match body w with
    | (Throw e, w') => handler e w'
    | other => other
    end.

(** [try { body } finally { fin }]. *)
Definition try_finally {A} (body : M A) (fin : M unit) : M A :=
  fun w =>
    match body w with
    | (r, w') =>
        match fin w' with
        | (Ret _, w'') => (r, w'')
        | (Throw e, w'') => (Throw e, w'')
        | (Diverge, w'') => (Diverge, w'')
        end
    end.

Declare Scope js_scope.
Delimit Scope js_scope with js.
Notation "'let*' x ':=' m 'in' k" := (bind m (fun x => k))
  (at level 100, x name, m at level 99, k at level 200) : js_scope.
Notation "m ';;;' k" := (bind m (fun _ => k))
  (at level 100, k at level 200) : js_scope.
Open Scope js_scope.

(** ** The host: Node.js and V8 primitives *)

Record Host := mkHost {
  (* node:path *)
  path_sep : ascii;
  path_isAbsolute : string -> bool;
  path_dirname : string -> string;
  path_resolve : string -> string -> string;
  path_relative : string -> string -> string;
  (* node:url; [URL_new s base] is [new URL(s, base).href] *)
  URL_new : string -> option string -> result string;
  pathToFileURL : string -> string;
  fileURLToPath : string -> result string;
  (* node:fs, files addressed by href *)
  existsSync : string -> bool;
  readFile : string -> result string;
  (* JSON *)
  JSON_parse_text : string -> result Json;
  JSON_stringify : Json -> string;
  (* structuredClone *)
  has_structuredClone : bool;
  structuredClone_namespace : Json -> result Json;
  (* dynamic import: which syntaxes the runtime takes, and what a module
     evaluates to the first time it is loaded *)
  supports_syntax : ImportSyntax -> bool;
  load_module : string -> string -> result Json;
  (* V8: the call sites above [skip], or an exception; [None] is a
     falsy [e.stack]; a call site is its [getFileName()] *)
  capture : option SkipFn -> result (option (list (option string)));
  (* module constants of resolve-from-caller.mjs *)
  THIS_FILE : string;
  PACKAGE_ROOT : option string
}.

(** * src/lib/resolve-from-caller.mjs *)

(** [s.split(sep)] for a one-character separator. *)
Fixpoint split_on (sep : ascii) (s : string) : list string :=
  match s with
  | EmptyString => [EmptyString]
  | String c rest =>
      if Ascii.eqb c sep then EmptyString :: split_on sep rest
      else match split_on sep rest with
           | seg :: segs => String c seg :: segs
           | [] => [String c EmptyString]
           end
  end.

(** [/^index\.(mjs|cjs|js|ts)$/.test(s)]. *)
Definition is_index_file (s : string) : bool :=
  String.eqb s "index.mjs" || String.eqb s "index.cjs"
  || String.eqb s "index.js" || String.eqb s "index.ts".

(** The four [let] variables of [pickPrimaryBaseFile]. *)
Record ScanState := mkScan {
  exitedSrcOrDist : bool;
  exitedIndex : bool;
  previousWasInSrcOrDist : bool;
  previousWasIndex : bool
}.

Definition scan_init : ScanState := mkScan false false false false.

Section Resolver.

Variable host : Host.

Definition toFsPath (v : option string) : result (option string) :=
  match v with
  | Some s =>
      if truthy_str s && startsWith s "file://"
      then result_bind (fileURLToPath host s) (fun p => Ok (Some p))
      else if truthy_str s then Ok (Some s) else Ok None
  | None => Ok None
  end.

Definition getStack (skipFn : option SkipFn) : M (list (option string)) :=
  fun w =>
    let orig := prepareStackTrace w in
    try_finally
      (fun w1 =>
         let w2 := set_hook HookCallSites w1 in
         let w3 := add_event (EvSample skipFn) w2 in
         match capture host skipFn with
         | Ok (Some frames) => (Ret frames, w3)
         | Ok None => (Ret [], w3)
         | Err e => (Throw e, w3)
         end)
      (fun w1 => (Ret tt, set_hook orig w1))
      w.

(** The frames the two selectors [continue] past: no file name, a
    [node:internal] module, or this very file. *)
Definition skipped (f : option string) : bool :=
  match f with
  | None => true
  | Some p =>
      negb (truthy_str p) || startsWith p "node:internal"
      || String.eqb p (THIS_FILE host)
  end.

(** [currentIsInSrcOrDist] and [currentIsIndex] of a frame's file. *)
Definition classify (f : string) : bool * bool :=
  match PACKAGE_ROOT host with
  | Some root =>
      if truthy_str root && startsWith f (root ++ String (path_sep host) EmptyString)
      then
        let relativePath := path_relative host root f in
        let segments := split_on (path_sep host) relativePath in
        let seg0 := match segments with s :: _ => s | [] => EmptyString end in
        (String.eqb seg0 "src" || String.eqb seg0 "dist",
         Nat.eqb (length segments) 1 && is_index_file seg0)
      else (false, false)
  | None => (false, false)
  end.

Definition currentIsInSrcOrDist (f : string) : bool := fst (classify f).
Definition currentIsIndex (f : string) : bool := snd (classify f).

(** The body of the [for ... of] loop of [pickPrimaryBaseFile]. *)
Fixpoint primary_scan (st : ScanState) (frames : list (option string))
  : result (option string) :=
  match frames with
  | [] => Ok None
  | cs :: rest =>
      match toFsPath cs with
      | Err e => Err e
      | Ok f =>
          if skipped f then primary_scan st rest
          else
            match f with
            | None => primary_scan st rest
            | Some f =>
                let curIn := currentIsInSrcOrDist f in
                let curIdx := currentIsIndex f in
                let exitedSrc :=
                  if previousWasInSrcOrDist st && negb curIn then true
                  else exitedSrcOrDist st in
                let exitedIdx :=
                  if previousWasIndex st && negb curIdx then true
                  else exitedIndex st in
                if exitedSrc then Ok (Some f)
                else primary_scan (mkScan exitedSrc exitedIdx curIn curIdx) rest
            end
      end
  end.

Definition pickPrimaryBaseFile : M (option string) :=
  let* frames := getStack (Some FnPickPrimary) in
  lift (primary_scan scan_init frames).

Fixpoint fallback_scan (frames : list (option string)) : result string :=
  match frames with
  | [] => Ok (THIS_FILE host)
  | cs :: rest =>
      match toFsPath cs with
      | Err e => Err e
      | Ok f =>
          if skipped f then fallback_scan rest
          else match f with
               | None => fallback_scan rest
               | Some f => Ok f
               end
      end
  end.

Definition pickFallbackBaseFile : M string :=
  let* frames := getStack (Some FnPickFallback) in
  lift (fallback_scan frames).

Definition resolveWith (rel : JsVal)
    (makePrimary : string -> string -> M string)
    (exists_ : string -> M bool)
    (makeFallback : string -> string -> M string) : M JsVal :=
  match rel with
  | JString r =>
      let* picked := pickPrimaryBaseFile in
      let* primaryBase :=
        match picked with
        | Some b => ret b
        | None => pickFallbackBaseFile
        end in
      let* primary := makePrimary primaryBase r in
      let* found := exists_ primary in
      if found then ret (JString primary)
      else
        let* fbBase := pickFallbackBaseFile in
        let* fb := makeFallback fbBase r in
        ret (JString fb)
  | _ => throw (mkError KTypeError "rel must be a string")
  end.

(** [rel.startsWith?.("file://")]: reading a property of [undefined]
    or [null] throws, a missing member short-circuits to [undefined],
    a member that is not a function cannot be called. *)
Definition startsWith_opt (rel : JsVal) (p : string) : result bool :=
  match rel with
  | JUndefined | JNullVal =>
      Err (mkError KTypeError "Cannot read properties of undefined (reading 'startsWith')")
  | JString s => Ok (startsWith s p)
  | JBoolean _ | JNumber _ | JUrlObject _ => Ok false
  | JObject MAbsent => Ok false
  | JObject MNotCallable => Err (mkError KTypeError "rel.startsWith is not a function")
  | JObject (MMethod answer) => Ok (answer p)
  end.

(** [path.isAbsolute] validates that its argument is a string. *)
Definition isAbsolute_val (rel : JsVal) : result bool :=
  match rel with
  | JString s => Ok (path_isAbsolute host s)
  | _ => Err (mkError KTypeError "The 'path' argument must be of type string")
  end.

(** [fileURLToPath] takes a string or a URL object. *)
Definition fileURLToPath_val (rel : JsVal) : result string :=
  match rel with
  | JString s => fileURLToPath host s
  | JUrlObject href => fileURLToPath host href
  | _ => Err (mkError KTypeError "The 'path' argument must be of type string or an instance of URL")
  end.

Definition existsSync_logged (p : string) : M bool :=
  emit (EvExists p);;; ret (existsSync host p).

Definition resolvePathFromCaller (rel : JsVal) : M JsVal :=
  let* isFileUrl := lift (startsWith_opt rel "file://") in
  if isFileUrl then
    let* p := lift (fileURLToPath_val rel) in ret (JString p)
  else
    let* isAbs := lift (isAbsolute_val rel) in
    if isAbs then ret rel
    else
      resolveWith rel
        (fun baseFile r => ret (path_resolve host (path_dirname host baseFile) r))
        (fun candidate => existsSync_logged candidate)
        (fun baseFile r => ret (path_resolve host (path_dirname host baseFile) r)).

Definition resolveUrlFromCaller (rel : JsVal) : M JsVal :=
  let* isFileUrl := lift (startsWith_opt rel "file://") in
  if isFileUrl then ret rel
  else
    let* isAbs := lift (isAbsolute_val rel) in
    if isAbs then
      match rel with
      | JString s => ret (JString (pathToFileURL host s))
      | _ => throw (mkError KTypeError "The 'path' argument must be of type string")
      end
    else
      resolveWith rel
        (fun baseFile r => lift (URL_new host r (Some (pathToFileURL host baseFile))))
        (fun href => let* p := lift (fileURLToPath host href) in existsSync_logged p)
        (fun baseFile r => lift (URL_new host r (Some (pathToFileURL host baseFile)))).

End Resolver.

(** * src/wisp.mjs *)

(** A caller's reviver.  [revive] is the document transformation
    [JSON.parse] performs with it.  What it answers for the root is
    either a structure built during the call or an object the reviver
    keeps and answers with again: [kept d = Some l] says that for the
    parsed document [d] it answers with the object at [l], whose
    structure is [revive d]. *)
Record Reviver := mkReviver {
  revive :> Json -> result Json;
  kept : Json -> option loc
}.

Record Options := mkOptions {
  base : option Input;
  (* [validate d] is [Some m] when the function throws on [d]; [m] is
     what [e?.message ?? e] renders for the thrown value *)
  validate : option (Json -> option string);
  reviver : option Reviver;
  type : option string;
  fallback : option Input
}.

Definition is_none {A} (o : option A) : bool :=
  match o with
  | None => true
  | Some _ => false
  end.

Section Wisp.

Variable host : Host.

(** [JSON.parse(txt, reviver)]. *)
Definition JSON_parse (txt : string) (rv : option Reviver) : result Json :=
  result_bind (JSON_parse_text host txt)
    (fun d => match rv with
              | Some f => f d
              | None => Ok d
              end).

(** A freshly built structure enters the heap. *)
Definition fresh (r : result Json) : M Value :=
  fun w =>
    match r with
    | Ok d => let (l, w') := alloc_doc d w in (Ret (VRef l), w')
    | Err e => (Throw e, w)
    end.

(** What [JSON.stringify] sees of a value. *)
Definition as_json (w : World) (v : Value) : option Json :=
  match v with
  | VRef l => heap w !! l
  | VNamespace l =>
      match heap w !! l with
      | Some d => Some (JObj [("default", d)])
      | None => None
      end
  end.

Definition dangling {A} : M A :=
  throw (mkError KTypeError "dangling reference").

Definition deepClone (v : Value) : M Value :=
  fun w =>
    if has_structuredClone host then
      match v with
      | VRef l =>
          match heap w !! l with
          | Some d => fresh (Ok d) w
          | None => dangling w
          end
      | VNamespace l =>
          match heap w !! l with
          | Some d => fresh (structuredClone_namespace host d) w
          | None => dangling w
          end
      end
    else
      match as_json w v with
      | Some d => fresh (JSON_parse (JSON_stringify host d) None) w
      | None => dangling w
      end.

(** The [let url] block, the same text in [wisp] and [wispSync];
    the result is [url.href]. *)
Definition target_url (input : Input) (options : Options) : M string :=
  match input with
  | InUrl href => ret href
  | InStr s =>
      if startsWith s "file://" then lift (URL_new host s None)
      else if path_isAbsolute host s then ret (pathToFileURL host s)
      else if truthy_input (base options) then
        match base options with
        | Some b =>
            let* b' := lift (URL_new host (input_text b) None) in
            lift (URL_new host s (Some b'))
        | None => dangling
        end
      else
        let* r := resolveUrlFromCaller host (JString s) in
        match r with
        | JString u => lift (URL_new host u None)
        | _ => throw (mkError KTypeError "Invalid URL")
        end
  end.

(** [await import(href, { with | assert: { type } })]: the registry
    answers for a module it already holds, otherwise the module is
    loaded and entered. *)
Definition dynamic_import (syn : ImportSyntax) (href ty : string) : M loc :=
  emit (EvImport syn href ty);;;
  fun w =>
    if supports_syntax host syn then
      match registry w !! (href, ty) with
      | Some l => (Ret l, w)
      | None =>
          match load_module host href ty with
          | Ok d =>
              let (l, w') := alloc_doc d w in
              (Ret l, cache_module (href, ty) l w')
          | Err e => (Throw e, w)
          end
      end
    else (Throw (mkError KSyntaxError "import attributes are not supported"), w).

(** [mod?.default ?? mod]. *)
Definition default_or_module (l : loc) : M Value :=
  fun w =>
    match heap w !! l with
    | Some JNull => (Ret (VNamespace l), w)
    | _ => (Ret (VRef l), w)
    end.

Definition call_validate (f : Json -> option string) (val : Value) : M unit :=
  fun w =>
    match as_json w val with
    | Some d =>
        match f d with
        | None => (Ret tt, w)
        | Some m => (Throw (mkError KError m), w)
        end
    | None => dangling w
    end.

(** [if (validate) { try { validate(val) } catch (e) { throw new
    Error(`@cldmv/wisp: ${e?.message ?? e}`) } }]. *)
Definition validated (options : Options) (val : Value) : M unit :=
  match validate options with
  | Some f =>
      try_catch (call_validate f val)
        (fun e => throw (mkError KError ("@cldmv/wisp: " ++ message e)))
  | None => ret tt
  end.

(** The heap holds the structure [d] at [l]. *)
Definition holds (w : World) (l : loc) (d : Json) : bool :=
  match heap w !! l with
  | Some c => Json_eqb c d
  | None => false
  end.

(** [JSON.parse(txt, reviver)] as a value: what the reviver answered
    for the root.  Nothing clones it here: where the reviver answers
    with an object it keeps, the heap holding it, that very object is
    the value; otherwise the answer is a structure of its own. *)
Definition parse_revived (txt : string) (f : Reviver) : M Value :=
  fun w =>
    match JSON_parse_text host txt with
    | Ok d0 =>
        match f d0 with
        | Ok d =>
            match kept f d0 with
            | Some l => if holds w l d then (Ret (VRef l), w) else fresh (Ok d) w
            | None => fresh (Ok d) w
            end
        | Err e => (Throw e, w)
        end
    | Err e => (Throw e, w)
    end.

(** The body of either import [try] block.  The value is cloned before
    the reviver runs, not after. *)
Definition import_tier (syn : ImportSyntax) (href ty : string) (options : Options)
  : M Value :=
  let* mod_ := dynamic_import syn href ty in
  let* target := default_or_module mod_ in
  if is_none (reviver options) && is_none (validate options) then ret target
  else
    let* val := deepClone target in
    let* val :=
      match reviver options with
      | Some f =>
          fun w =>
            match as_json w val with
            | Some d => parse_revived (JSON_stringify host d) f w
            | None => dangling w
            end
      | None => ret val
      end in
    validated options val;;;
    ret val.

(** The body of the raw-read [try] block ([readFile] and
    [fs.readFileSync] alike).  What [JSON.parse] returns is cloned at
    once and not used again: it enters the heap as a cell of its own. *)
Definition raw_tier (href : string) (options : Options) : M Value :=
  emit (EvRead href);;;
  let* txt := lift (readFile host href) in
  let* parsed := fresh (JSON_parse txt (reviver options)) in
  let* val := deepClone parsed in
  validated options val;;;
  ret val.

Definition type_or_default (options : Options) : string :=
  match type options with
  | Some ty => ty
  | None => "json"
  end.

Definition load_failure (href : string) (e : JsError) : JsError :=
  mkError KError ("@cldmv/wisp: Failed to load JSON file at " ++ href ++ ": " ++ message e).

Definition unsupported_type (ty href : string) : JsError :=
  mkError KError
    ("@cldmv/wisp: Unsupported type '" ++ ty ++ "' or failed to load module at " ++ href).

(** The recursion is asynchronous and does not nest: [fuel] bounds the
    number of loads followed, and a chain of loads longer than that has
    not settled. *)
Fixpoint wisp (fuel : nat) (input : Input) (options : Options) : M Value :=
  match fuel with
  | O => diverge
  | S fuel' =>
      let ty := type_or_default options in
      let* url := target_url input options in
      try_catch (import_tier SynWith url ty options) (fun _ =>
      try_catch (import_tier SynAssert url ty options) (fun _ =>
      if String.eqb ty "json" then
        try_catch (raw_tier url options)
          (fun e =>
             match fallback options with
             | Some fb =>
                 if truthy_input (Some fb) then wisp fuel' fb options
                 else throw (load_failure url e)
             | None => throw (load_failure url e)
             end)
      else throw (unsupported_type ty url)))
  end.

(** The error V8 raises for a call the stack has no room for. *)
Definition call_stack_exceeded : JsError :=
  mkError KRangeError "Maximum call stack size exceeded".

(** [type] is destructured by [wispSync] and never read.  The
    recursion is synchronous: [fuel] is the number of nested calls the
    stack still takes, and a call beyond it raises the [RangeError],
    which passes through every outer call, each made from its [catch]
    block. *)
Fixpoint wispSync (fuel : nat) (input : Input) (options : Options) : M Value :=
  match fuel with
  | O => throw call_stack_exceeded
  | S fuel' =>
      let* url := target_url input options in
      try_catch (raw_tier url options)
        (fun e =>
           match fallback options with
           | Some fb =>
               if truthy_input (Some fb) then wispSync fuel' fb options
               else throw (load_failure url e)
           | None => throw (load_failure url e)
           end)
  end.

End Wisp.

(** * A concrete POSIX host, shaped like the repository's test run *)

Module Fixture.

Definition dq : string := String (ascii_of_nat 34) EmptyString.
Definition slash : ascii := ascii_of_nat 47.

Fixpoint join_segments (segs : list string) : string :=
  match segs with
  | [] => EmptyString
  | s :: rest => String slash s ++ join_segments rest
  end.

Definition normalize (segs : list string) : list string :=
  fold_left
    (fun acc s =>
       if String.eqb s EmptyString || String.eqb s "." then acc
       else if String.eqb s ".." then removelast acc
       else (acc ++ [s])%list)
    segs [].

Definition render (segs : list string) : string :=
  match segs with
  | [] => String slash EmptyString
  | _ => join_segments segs
  end.

Definition posix_isAbsolute (p : string) : bool := startsWith p "/".

Definition posix_dirname (p : string) : string :=
  render (removelast (normalize (split_on slash p))).

Definition posix_resolve (dir r : string) : string :=
  if posix_isAbsolute r then render (normalize (split_on slash r))
  else render (normalize (split_on slash dir ++ split_on slash r)%list).

Definition drop_chars (n : nat) (s : string) : string :=
  String.substring n (String.length s - n) s.

Definition posix_relative (from to : string) : string :=
  if startsWith to (from ++ "/") then drop_chars (String.length from + 1) to
  else to.

Definition invalid_url : JsError := mkError KTypeError "Invalid URL".

Definition file_url (p : string) : string := "file://" ++ p.

Definition url_to_path (u : string) : result string :=
  if startsWith u "file://" then Ok (drop_chars 7 u)
  else Err (mkError KTypeError "The URL must be of scheme file").

Definition ends_with_slash (p : string) : bool :=
  match String.get (String.length p - 1) p with
  | Some c => Ascii.eqb c slash
  | None => false
  end.

Definition url_new (s : string) (b : option string) : result string :=
  if startsWith s "file://" then Ok s
  else match b with
       | None => Err invalid_url
       | Some b =>
           result_bind (url_to_path b)
             (fun bp =>
                let dir := if ends_with_slash bp then bp else posix_dirname bp in
                Ok (file_url (posix_resolve dir s)))
       end.

Fixpoint stringify (j : Json) : string :=
  match j with
  | JNull => "null"
  | JBool true => "true"
  | JBool false => "false"
  | JNum n => pretty n
  | JStr s => dq ++ s ++ dq
  | JArr items =>
      "[" ++ (fix go (xs : list Json) : string :=
                match xs with
                | [] => EmptyString
                | [x] => stringify x
                | x :: rest => stringify x ++ "," ++ go rest
                end) items ++ "]"
  | JObj fields =>
      "{" ++ (fix go (xs : list (string * Json)) : string :=
                match xs with
                | [] => EmptyString
                | [(k, x)] => dq ++ k ++ dq ++ ":" ++ stringify x
                | (k, x) :: rest => dq ++ k ++ dq ++ ":" ++ stringify x ++ "," ++ go rest
                end) fields ++ "}"
  end.

(** Parsing recognises the texts of the documents it is told about. *)
Fixpoint parse_known (docs : list Json) (txt : string) : result Json :=
  match docs with
  | [] => Err (mkError KSyntaxError "Unexpected token in JSON")
  | d :: rest => if String.eqb (stringify d) txt then Ok d else parse_known rest txt
  end.

Fixpoint lookup_file (files : list (string * string)) (p : string) : option string :=
  match files with
  | [] => None
  | (q, txt) :: rest => if String.eqb q p then Some txt else lookup_file rest p
  end.

Definition enoent : JsError := mkError KSystemError "ENOENT: no such file or directory".

Definition read_href (files : list (string * string)) (href : string) : result string :=
  result_bind (url_to_path href)
    (fun p => match lookup_file files p with
              | Some txt => Ok txt
              | None => Err enoent
              end).

Definition sample : Json :=
  JObj [("foo", JStr "bar"); ("nested", JObj [("ok", JBool true)])].

Definition other : Json := JObj [("caller", JStr "ok")].

Definition docs : list Json := [sample; other; JNull].

Definition edited : Json := JObj [("foo", JStr "changed")].

Definition files : list (string * string) :=
  [("/pkg/test/fixtures/sample.json", stringify sample);
   ("/pkg/test/fixtures/caller.json", stringify other);
   ("/pkg/test/fixtures/broken.json", "{oops")].

Definition files_with_null : list (string * string) :=
  ("/pkg/test/fixtures/null.json", stringify JNull) :: files.

(** The stack of a test calling the loader through [index.mjs]:
    [resolveWith], [resolveUrlFromCaller], [wisp], the test, Node. *)
Definition frames : list (option string) :=
  [Some "file:///pkg/src/lib/resolve-from-caller.mjs";
   Some "file:///pkg/src/lib/resolve-from-caller.mjs";
   Some "file:///pkg/src/wisp.mjs";
   Some "file:///pkg/test/wisp.spec.mjs";
   Some "node:internal/modules/esm/module_job";
   None].

Definition node (files : list (string * string)) (frames : list (option string))
    (imports : bool) : Host :=
  {| path_sep := slash;
     path_isAbsolute := posix_isAbsolute;
     path_dirname := posix_dirname;
     path_resolve := posix_resolve;
     path_relative := posix_relative;
     URL_new := url_new;
     pathToFileURL := file_url;
     fileURLToPath := url_to_path;
     existsSync := fun p => negb (is_none (lookup_file files p));
     readFile := read_href files;
     JSON_parse_text := parse_known docs;
     JSON_stringify := stringify;
     has_structuredClone := true;
     structuredClone_namespace :=
       fun _ => Err (mkError KDataCloneError "Cannot clone object of unsupported type.");
     supports_syntax := fun _ => imports;
     load_module :=
       fun href ty =>
         if String.eqb ty "json"
         then result_bind (read_href files href) (parse_known docs)
         else Err (mkError KTypeError "Import attribute type is not supported");
     capture := fun _ => Ok (Some frames);
     THIS_FILE := "/pkg/src/lib/resolve-from-caller.mjs";
     PACKAGE_ROOT := Some "/pkg" |}.

Definition host : Host := node files frames true.

(** The same runtime with a file whose whole text is [null]. *)
Definition host_with_null : Host := node files_with_null frames true.

(** A runtime older than import attributes: neither syntax is taken. *)
Definition legacy_host : Host := node files frames false.

(** A runtime in which capturing the stack raises. *)
Definition stack_overflow : JsError :=
  mkError KRangeError "Maximum call stack size exceeded".

Definition throwing_host : Host :=
  {| path_sep := slash;
     path_isAbsolute := posix_isAbsolute;
     path_dirname := posix_dirname;
     path_resolve := posix_resolve;
     path_relative := posix_relative;
     URL_new := url_new;
     pathToFileURL := file_url;
     fileURLToPath := url_to_path;
     existsSync := fun p => negb (is_none (lookup_file files p));
     readFile := read_href files;
     JSON_parse_text := parse_known docs;
     JSON_stringify := stringify;
     has_structuredClone := true;
     structuredClone_namespace :=
       fun _ => Err (mkError KDataCloneError "Cannot clone object of unsupported type.");
     supports_syntax := fun _ => true;
     load_module := fun _ _ => Err (mkError KTypeError "Import attribute type is not supported");
     capture := fun _ => Err stack_overflow;
     THIS_FILE := "/pkg/src/lib/resolve-from-caller.mjs";
     PACKAGE_ROOT := Some "/pkg" |}.

Definition world0 : World := mkWorld [] ∅ HookUnset [].

(** A world in which the application has installed a hook of its own. *)
Definition hooked_world : World := mkWorld [] ∅ (HookUser 7) [].

Definition no_options : Options := mkOptions None None None None None.

End Fixture.

(** * Specification-side notions *)

Section ResolverSpec.

Variable host : Host.

(** Every call site's file name converts to a path. *)
Definition convertible (frames : list (option string)) : bool :=
  forallb (fun cs => match toFsPath host cs with Ok _ => true | Err _ => false end) frames.

(** The files of the frames the selectors do not [continue] past. *)
Fixpoint qualifying (frames : list (option string)) : list string :=
  match frames with
  | [] => []
  | cs :: rest =>
      match toFsPath host cs with
      | Ok (Some f) => if skipped host (Some f) then qualifying rest else f :: qualifying rest
      | _ => qualifying rest
      end
  end.

(** In the list [q] of qualifying files, the file at [i] is inside
    [src]/[dist] and its successor [f] is not. *)
Definition transition_at (q : list string) (i : nat) (f : string) : Prop :=
  exists p, q !! i = Some p /\ q !! S i = Some f
            /\ currentIsInSrcOrDist host p = true
            /\ currentIsInSrcOrDist host f = false.

Definition first_transition (q : list string) (f : string) : Prop :=
  exists i, transition_at q i f /\ forall j g, j < i -> ~ transition_at q j g.

(** A two-state reading of the scan: only the previous frame's
    [src]/[dist] bit is carried. *)
Fixpoint first_exit (prev : bool) (q : list string) : option string :=
  match q with
  | [] => None
  | f :: rest =>
      if prev && negb (currentIsInSrcOrDist host f) then Some f
      else first_exit (currentIsInSrcOrDist host f) rest
  end.

End ResolverSpec.

(** The two selectors as functions of what the host's stack capture
    answers, free of the hook handling around it. *)
Section SelectorSpec.

Variable host : Host.

Definition frames_of (skipFn : option SkipFn) : result (list (option string)) :=
  match capture host skipFn with
  | Ok (Some frames) => Ok frames
  | Ok None => Ok []
  | Err e => Err e
  end.

Definition selectPrimary : result (option string) :=
  result_bind (frames_of (Some FnPickPrimary)) (primary_scan host scan_init).

Definition selectFallback : result string :=
  result_bind (frames_of (Some FnPickFallback)) (fallback_scan host).

End SelectorSpec.

Definition to_outcome {A} (r : result A) : outcome A :=
  match r with
  | Ok a => Ret a
  | Err e => Throw e
  end.

Definition is_sample (e : Event) : bool :=
  match e with
  | EvSample _ => true
  | _ => false
  end.

Definition is_string (v : JsVal) : bool :=
  match v with
  | JString _ => true
  | _ => false
  end.

Definition is_type_error {A} (r : outcome A) : bool :=
  match r with
  | Throw (mkError KTypeError _) => true
  | _ => false
  end.

(** ** What the raw-read tier computes, without the heap *)

Section LoaderSpec.

Variable host : Host.

(** [JSON.parse(readFile(href), reviver)]. *)
Definition read_parse (href : string) (rv : option Reviver) : result Json :=
  result_bind (readFile host href) (fun txt => JSON_parse host txt rv).

(** The document [deepClone] builds from a document. *)
Definition clone_doc (d : Json) : result Json :=
  if has_structuredClone host then Ok d
  else JSON_parse host (JSON_stringify host d) None.

(** What the caller's [validate] raises on [d], if anything. *)
Definition validation_error (options : Options) (d : Json) : option string :=
  match validate options with
  | Some f => f d
  | None => None
  end.

(** Neither import syntax can produce the module: the runtime does not
    take the syntax, or the registry does not hold the module and
    loading it fails. *)
Definition import_rejected (w : World) (href ty : string) : bool :=
  forallb
    (fun syn =>
       negb (supports_syntax host syn)
       || (is_none (registry w !! (href, ty))
           && match load_module host href ty with
              | Ok _ => false
              | Err _ => true
              end))
    [SynWith; SynAssert].

(** Both import [try] blocks of [wisp] end in their [catch]: started
    in [w], they leave [w']. *)
Definition imports_fail (href ty : string) (options : Options) (w w' : World) : Prop :=
  exists e1 w1 e2,
    import_tier host SynWith href ty options w = (Throw e1, w1)
    /\ import_tier host SynAssert href ty options w1 = (Throw e2, w').

End LoaderSpec.

(** [wispSync]'s options with another declared type. *)
Definition with_type (ty : option string) (options : Options) : Options :=
  mkOptions (base options) (validate options) (reviver options) ty (fallback options).

(** ** Frame conditions on computations *)

(** Every run of [m], whatever its outcome, relates the world it
    started in to the world it leaves by [P]. *)
Definition preserves {A} (P : World -> World -> Prop) (m : M A) : Prop :=
  forall w r w', m w = (r, w') -> P w w'.

(** [m] always completes: it returns or throws. *)
Definition total {A} (m : M A) : Prop :=
  forall w, fst (m w) <> Diverge.

(** Between [w] and [w'] the trace grew, and only by events [ok]
    admits. *)
Definition only_events (ok : Event -> bool) (w w' : World) : Prop :=
  exists evs, trace w' = (trace w ++ evs)%list /\ forallb ok evs = true.

Definition any_event (_ : Event) : bool := true.

Definition is_read (e : Event) : bool :=
  match e with
  | EvRead _ => true
  | _ => false
  end.

(** No stack sample was taken between [w] and [w']. *)
Definition no_sampling : World -> World -> Prop :=
  only_events (fun e => negb (is_sample e)).

(** The raw-read tier was not entered between [w] and [w']. *)
Definition no_raw_read : World -> World -> Prop :=
  only_events (fun e => negb (is_read e)).

(** ** Ownership of loaded values *)

(** The registry holds references into the heap. *)
Definition wf (w : World) : Prop :=
  forall key l, registry w !! key = Some l -> l < length (heap w).

(** The heap did not shrink and the registry still points into it. *)
Definition extends (w w' : World) : Prop :=
  length (heap w) <= length (heap w') /\ (wf w -> wf w').

(** [v] is a structure allocated between [w] and [w'], after every
    structure the registry of [w'] holds: an independently owned copy. *)
Definition fresh_value (w w' : World) (v : Value) : Prop :=
  exists l, v = VRef l /\ length (heap w) <= l /\ l < length (heap w')
            /\ forall key l', registry w' !! key = Some l' -> l' < l.

(** [v] is the default export of a module the registry holds, or that
    module's namespace object. *)
Definition live_value (w : World) (v : Value) : Prop :=
  exists key l, registry w !! key = Some l /\ (v = VRef l \/ v = VNamespace l).

Definition referent (v : Value) : loc :=
  match v with
  | VRef l | VNamespace l => l
  end.

(** Two successive loads of one reference by [load], started in [w0]:
    a mutation through either result leaves the other as it was, and
    neither result is a live registry value when it is returned. *)
Definition independent_loads (load : nat -> Input -> Options -> M Value)
    (input : Input) (options : Options) (w0 : World) : Prop :=
  forall f1 f2 v1 w1 v2 w2,
    load f1 input options w0 = (Ret v1, w1) ->
    load f2 input options w1 = (Ret v2, w2) ->
    (forall d, deref (mutate (referent v1) d w2) v2 = deref w2 v2)
    /\ (forall d, deref (mutate (referent v2) d w2) v1 = deref w2 v1)
    /\ ~ live_value w1 v1
    /\ ~ live_value w2 v2.

(** The import tier can hand out the module itself: nothing asks for a
    copy and the runtime takes one of the syntaxes. *)
Definition fast_path_open (host : Host) (options : Options) : Prop :=
  reviver options = None /\ validate options = None
  /\ exists syn, supports_syntax host syn = true.

(** The reviver, if there is one, builds every object it answers
    with. *)
Definition reviver_builds (options : Options) : Prop :=
  forall f d, reviver options = Some f -> kept f d = None.

(** [v] is an object the caller's reviver keeps: an import tier handed
    back what [JSON.parse] returned, and nothing cloned it. *)
Definition kept_value (options : Options) (w : World) (v : Value) : Prop :=
  exists f d l,
    reviver options = Some f /\ kept f d = Some l /\ v = VRef l /\ l < length (heap w).

(** ** Agreement of the module registry with the files *)

Section Agreement.

Variable host : Host.

Definition round_trips (d : Json) : Prop :=
  JSON_parse_text host (JSON_stringify host d) = Ok d.

(** [JSON.stringify] then [JSON.parse] gives back the documents the
    files hold, plain or revived. *)
Definition codec_ok (options : Options) : Prop :=
  forall href d,
    read_parse host href None = Ok d \/ read_parse host href (reviver options) = Ok d ->
    round_trips d.

(** Every module the runtime loads or already holds has as default
    export the document its file parses to, and that document is not
    [null]. *)
Definition coherent (w : World) : Prop :=
  (forall href ty d,
      load_module host href ty = Ok d -> read_parse host href None = Ok d /\ d <> JNull)
  /\ (forall href ty l,
        registry w !! (href, ty) = Some l ->
        exists d, heap w !! l = Some d /\ read_parse host href None = Ok d /\ d <> JNull).

Definition keeps_coherent (w w' : World) : Prop := coherent w -> coherent w'.

(** The document the raw-read tier returns, or the error it raises. *)
Definition raw_doc (href : string) (options : Options) : result Json :=
  result_bind (read_parse host href (reviver options))
    (fun d =>
       result_bind (clone_doc host d)
         (fun d' =>
            match validation_error options d' with
            | Some m => Err (mkError KError ("@cldmv/wisp: " ++ m))
            | None => Ok d'
            end)).

End Agreement.

(** The outcome of [m] does not depend on the world it runs in. *)
Definition pure_result {A} (m : M A) : Prop :=
  forall w w', fst (m w) = fst (m w').

(** * More of src/lib/resolve-from-caller.mjs *)

(** ** [findPackageRoot]

    [path.join] is not among the fields of [Host]; the function takes it
    as a parameter.  The [while] loop is fuel-indexed: [None] is a loop
    that has not ended, [Some None] is the [null] it returns. *)
Section PackageRoot.

Variable host : Host.
Variable path_join : string -> string -> string.

Fixpoint findPackageRoot (fuel : nat) (currentPath : string) : option (option string) :=
  match fuel with
  | O => None
  | S fuel' =>
      if String.eqb currentPath (path_dirname host currentPath) then Some None
      else if existsSync host (path_join currentPath "package.json")
           then Some (Some currentPath)
           else findPackageRoot fuel' (path_dirname host currentPath)
  end.

(** The [k]-th ancestor of a path: [path.dirname] applied [k] times. *)
Definition ancestor (k : nat) (p : string) : string :=
  Nat.iter k (path_dirname host) p.

Definition is_root (p : string) : Prop := p = path_dirname host p.

Definition has_manifest (p : string) : bool :=
  existsSync host (path_join p "package.json").

(** [r] is what the walk from [start] must answer: some ancestor ends
    the walk, every ancestor before it is neither the root nor a
    directory with a manifest, and the ending one is the answer when it
    is not the root and holds a manifest, [null] when it is the root. *)
Definition nearest_manifest (start : string) (r : option string) : Prop :=
  exists k,
    (forall j, j < k ->
       ~ is_root (ancestor j start) /\ has_manifest (ancestor j start) = false)
    /\ match r with
       | Some dir =>
           dir = ancestor k start /\ ~ is_root dir /\ has_manifest dir = true
       | None => is_root (ancestor k start)
       end.

End PackageRoot.

(** A POSIX host whose package directory holds a manifest. *)
Module PackageFixture.

Definition files : list (string * string) :=
  ("/pkg/package.json", "{}") :: Fixture.files.

Definition host : Host := Fixture.node files Fixture.frames true.

Definition posix_join (dir name : string) : string := Fixture.posix_resolve dir name.

End PackageFixture.

(** A host that differs from [h] in its package root only. *)
Definition with_root (root : option string) (h : Host) : Host :=
  {| path_sep := path_sep h;
     path_isAbsolute := path_isAbsolute h;
     path_dirname := path_dirname h;
     path_resolve := path_resolve h;
     path_relative := path_relative h;
     URL_new := URL_new h;
     pathToFileURL := pathToFileURL h;
     fileURLToPath := fileURLToPath h;
     existsSync := existsSync h;
     readFile := readFile h;
     JSON_parse_text := JSON_parse_text h;
     JSON_stringify := JSON_stringify h;
     has_structuredClone := has_structuredClone h;
     structuredClone_namespace := structuredClone_namespace h;
     supports_syntax := supports_syntax h;
     load_module := load_module h;
     capture := capture h;
     THIS_FILE := THIS_FILE h;
     PACKAGE_ROOT := root |}.

(** [PACKAGE_ROOT] is [null] or the empty string. *)
Definition no_package_root (host : Host) : bool :=
  match PACKAGE_ROOT host with
  | Some root => negb (truthy_str root)
  | None => true
  end.

(** A string reference the resolvers and the loaders do not resolve
    against a caller: a [file://] locator or an absolute path. *)
Definition already_located (host : Host) (r : string) : bool :=
  startsWith r "file://" || path_isAbsolute host r.

(** * More of src/wisp.mjs: what a load leaves behind *)

(** Either loader, by its name. *)
Definition loader (host : Host) (sync : bool) : nat -> Input -> Options -> M Value :=
  if sync then wispSync host else wisp host.

(** [Error.prepareStackTrace] is what it was. *)
Definition same_hook (w w' : World) : Prop :=
  prepareStackTrace w' = prepareStackTrace w.

(** Every structure of [w] is in [w'] unchanged, and every module the
    registry held it still holds, with the same default export. *)
Definition keeps_cells (w w' : World) : Prop :=
  (forall l d, heap w !! l = Some d -> heap w' !! l = Some d)
  /\ (forall key l, registry w !! key = Some l -> registry w' !! key = Some l).

Definition is_import (e : Event) : bool :=
  match e with
  | EvImport _ _ _ => true
  | _ => false
  end.

(** No dynamic import was attempted and the registry is as it was. *)
Definition no_import (w w' : World) : Prop :=
  registry w' = registry w /\ only_events (fun e => negb (is_import e)) w w'.

(** What a caller observes of a finished call: the shape of the value it
    was given, the error it caught, or nothing. *)
Inductive Answer :=
  | AValue (s : Shape)
  | AError (e : JsError)
  | ANever.

Definition observe (r : outcome Value * World) : Answer :=
  match r with
  | (Ret v, w) => AValue (deref w v)
  | (Throw e, _) => AError e
  | (Diverge, _) => ANever
  end.

(** The options with another [fallback]. *)
Definition with_fallback (fb : option Input) (options : Options) : Options :=
  mkOptions (base options) (validate options) (reviver options) (type options) fb.

(** The three tiers of [wisp], in the order of the source text, as the
    events they leave in the trace. *)
Definition tiers (href ty : string) : list Event :=
  [EvImport SynWith href ty; EvImport SynAssert href ty; EvRead href].

Definition same_trace (w w' : World) : Prop := trace w' = trace w.

Section TierSpec.

Variable host : Host.
Variables (href ty : string) (options : Options).

(** The tiers of [wisp], counted from 0. *)
Definition tier (k : nat) : M Value :=
  match k with
  | 0 => import_tier host SynWith href ty options
  | 1 => import_tier host SynAssert href ty options
  | _ => raw_tier host href options
  end.

(** The world tier [k] starts in when the tiers before it have run, one
    after the other, from [w]; and what tier [k] does there. *)
Fixpoint before_tier (w : World) (k : nat) : World :=
  match k with
  | 0 => w
  | S k' => snd (tier k' (before_tier w k'))
  end.

Definition tier_outcome (w : World) (k : nat) : outcome Value :=
  fst (tier k (before_tier w k)).

End TierSpec.

(** * The earlier revision of src/lib/resolve-from-caller.mjs

    The repository also carries the revision of the module that
    anchors on [slothlet.mjs] frames instead of the package root.  Its
    [toFsPath] and [getStack] are the ones above; its two selectors
    differ and are modelled here. *)
Module Legacy.

Section Selectors.

Variable host : Host.

(** [path.basename(f).toLowerCase()]; neither [path.basename] nor
    [toLowerCase] is among the fields of [Host]. *)
Variable basename_lower : string -> string.

Definition is_slothlet (f : string) : bool :=
  String.eqb (basename_lower f) "slothlet.mjs".

(** [/^index\.(mjs|cjs|js)$/.test(b)]. *)
Definition is_index_name (b : string) : bool :=
  String.eqb b "index.mjs" || String.eqb b "index.cjs" || String.eqb b "index.js".

Definition THIS_DIR : string := path_dirname host (THIS_FILE host).

(** The first loop of [pickPrimaryBaseFile]: the [files] array. *)
Fixpoint collect (frames : list (option string)) : result (list string) :=
  match frames with
  | [] => Ok []
  | cs :: rest =>
      match toFsPath host cs with
      | Err e => Err e
      | Ok None => collect rest
      | Ok (Some f) =>
          if negb (truthy_str f) then collect rest
          else if startsWith f "node:internal" then collect rest
          else result_bind (collect rest) (fun files => Ok (f :: files))
      end
  end.

(** The second loop, from index [i] on: the value of [iSloth] when it
    ends ([None] is [-1]). *)
Fixpoint last_slothlet (i : nat) (iSloth : option nat) (files : list string) : option nat :=
  match files with
  | [] => iSloth
  | f :: rest => last_slothlet (S i) (if is_slothlet f then Some i else iSloth) rest
  end.

Definition select (files : list string) : option string :=
  match last_slothlet 0 None files with
  | Some iSloth =>
      let j := iSloth + 1 in
      if Nat.ltb j (length files) then
        match files !! j with
        | Some fj =>
            if is_index_name (basename_lower fj) && Nat.ltb (j + 1) (length files)
            then files !! (j + 1)
            else Some fj
        | None => None
        end
      else None
  | None => None
  end.

Definition pickPrimaryBaseFile : M (option string) :=
  let* frames := getStack host (Some FnPickPrimary) in
  lift (result_bind (collect frames) (fun files => Ok (select files))).

Fixpoint fallback_scan (frames : list (option string)) : result string :=
  match frames with
  | [] => Ok (THIS_FILE host)
  | cs :: rest =>
      match toFsPath host cs with
      | Err e => Err e
      | Ok None => fallback_scan rest
      | Ok (Some f) =>
          if negb (truthy_str f) then fallback_scan rest
          else if startsWith f "node:internal" then fallback_scan rest
          else if String.eqb f (THIS_FILE host) then fallback_scan rest
          else if startsWith f (THIS_DIR ++ String (path_sep host) EmptyString)
          then fallback_scan rest
          else if is_slothlet f then fallback_scan rest
          else Ok f
      end
  end.

Definition pickFallbackBaseFile : M string :=
  let* frames := getStack host (Some FnPickFallback) in
  lift (fallback_scan frames).

(** In [files], [f] is the frame picked after the last [slothlet.mjs]
    frame: the next frame [g], unless [g] is an index file that has a
    successor, in which case that successor. *)
Definition after_last_slothlet (files : list string) (f : string) : Prop :=
  exists i s g,
    files !! i = Some s /\ is_slothlet s = true
    /\ (forall k h, i < k -> files !! k = Some h -> is_slothlet h = false)
    /\ files !! (i + 1) = Some g
    /\ f = if is_index_name (basename_lower g) then default g (files !! (i + 2)) else g.

(** [files] has no [slothlet.mjs] frame, or ends with one. *)
Definition no_frame_after_slothlet (files : list string) : Prop :=
  (forall k g, files !! k = Some g -> is_slothlet g = false)
  \/ exists s, last files = Some s /\ is_slothlet s = true.

(** The frames the fallback selector takes. *)
Definition eligible (f : string) : bool :=
  truthy_str f && negb (startsWith f "node:internal")
  && negb (String.eqb f (THIS_FILE host))
  && negb (startsWith f (THIS_DIR ++ String (path_sep host) EmptyString))
  && negb (is_slothlet f).

End Selectors.

End Legacy.

(** A POSIX [path.basename(f).toLowerCase()] and a stack that passes
    through a slothlet loader and an index file. *)
Module LegacyFixture.

Definition lower (c : ascii) : ascii :=
  let n := nat_of_ascii c in
  if Nat.leb 65 n && Nat.leb n 90 then ascii_of_nat (n + 32) else c.

Fixpoint lowercase (s : string) : string :=
  match s with
  | EmptyString => EmptyString
  | String c rest => String (lower c) (lowercase rest)
  end.

Definition basename_lower (f : string) : string :=
  lowercase (List.last (split_on Fixture.slash f) EmptyString).

Definition frames : list (option string) :=
  [Some "file:///app/node_modules/slothlet/lib/helper.mjs";
   Some "file:///app/node_modules/slothlet/Slothlet.mjs";
   Some "file:///app/index.mjs";
   Some "file:///app/main.mjs";
   Some "node:internal/modules/esm/module_job"].

Definition host : Host := Fixture.node Fixture.files frames true.

End LegacyFixture.

(** The runtime takes neither import-attribute syntax. *)
Definition no_import_attributes (host : Host) : bool :=
  negb (supports_syntax host SynWith) && negb (supports_syntax host SynAssert).

(** The module at [(href, ty)] can be imported in [w]: the registry
    holds it, or loading it succeeds. *)
Definition importable (host : Host) (w : World) (href ty : string) : bool :=
  negb (is_none (registry w !! (href, ty)))
  || match load_module host href ty with
     | Ok _ => true
     | Err _ => false
     end.

(** The asynchronous answer [a] against the synchronous answer [s]:
    they are the same, or the synchronous call ran out of stack where
    the asynchronous one, which does not nest, has not settled. *)
Definition same_unless_exhausted (a s : Answer) : Prop :=
  a = s \/ (a = ANever /\ s = AError call_stack_exceeded).

(** * Theorems: the call-stack sampler *)

Section GetStackFacts.

Variable host : Host.

Lemma getStack_run skipFn w :
  getStack host skipFn w =
    (match capture host skipFn with
     | Ok (Some frames) => Ret frames
     | Ok None => Ret []
     | Err e => Throw e
     end,
     add_event (EvSample skipFn) w).
Proof.
  unfold getStack, try_finally.
  destruct (capture host skipFn) as [[frames|]|e]; destruct w; reflexivity.
Qed.

Lemma getStack_throws skipFn w e :
  capture host skipFn = Err e ->
  fst (getStack host skipFn w) = Throw e.
Proof. intros Hc. rewrite getStack_run, Hc. reflexivity. Qed.

End GetStackFacts.

(** C9.  Whatever the sampler does, and in particular when capturing
    the stack raises, the world it leaves has [Error.prepareStackTrace]
    equal to the value it had on entry; the heap and the module registry
    are untouched as well. *)
Theorem getStack_restores_hook (host : Host) (skipFn : option SkipFn) (w : World) :
  let w' := snd (getStack host skipFn w) in
  prepareStackTrace w' = prepareStackTrace w
  /\ heap w' = heap w
  /\ registry w' = registry w
  /\ (forall e, capture host skipFn = Err e ->
        fst (getStack host skipFn w) = Throw e
        /\ prepareStackTrace w' = prepareStackTrace w).
Proof.
  cbn zeta. rewrite getStack_run. cbn.
  split; [reflexivity|]. split; [reflexivity|]. split; [reflexivity|].
  intros e He. rewrite He. split; reflexivity.
Qed.

Lemma getStack_restores_hook_witness :
  fst (getStack Fixture.throwing_host (Some FnPickPrimary) Fixture.hooked_world)
  = Throw Fixture.stack_overflow
  /\ prepareStackTrace
       (snd (getStack Fixture.throwing_host (Some FnPickPrimary) Fixture.hooked_world))
     = HookUser 7.
Proof.
  exact (proj2 (proj2 (proj2 (getStack_restores_hook Fixture.throwing_host
                                (Some FnPickPrimary) Fixture.hooked_world)))
           Fixture.stack_overflow eq_refl).
Defined.

(** * Theorems: the primary base-file selector *)

Section PrimaryScan.

Variable host : Host.

Abbreviation inSrc := (currentIsInSrcOrDist host).

Lemma primary_scan_first_exit frames :
  convertible host frames = true ->
  forall st,
    exitedSrcOrDist st = false ->
    primary_scan host st frames
    = Ok (first_exit host (previousWasInSrcOrDist st) (qualifying host frames)).
Proof.
  induction frames as [|cs rest IH]; intros Hconv st Hst; [reflexivity|].
  cbn in Hconv. apply andb_prop in Hconv as [Hcs Hrest].
  cbn [primary_scan qualifying].
  destruct (toFsPath host cs) as [[f|]|e]; [| |discriminate].
  - destruct (skipped host (Some f)) eqn:Hsk; [now apply IH|].
    cbn [first_exit]. rewrite Hst.
    destruct (previousWasInSrcOrDist st && negb (inSrc f)); [reflexivity|].
    now apply IH.
  - cbn. now apply IH.
Qed.

Lemma first_exit_false_cons p q :
  first_exit host false (p :: q) = first_exit host (inSrc p) q.
Proof. reflexivity. Qed.

Lemma transition_at_zero p f q g :
  transition_at host (p :: f :: q) 0 g <-> g = f /\ inSrc p = true /\ inSrc f = false.
Proof.
  unfold transition_at; cbn. split.
  - intros (p' & Hp & Hf & H1 & H2). inversion Hp; inversion Hf; subst. auto.
  - intros (-> & H1 & H2). exists p. auto.
Qed.

Lemma transition_at_succ p q i g :
  transition_at host (p :: q) (S i) g <-> transition_at host q i g.
Proof. unfold transition_at; cbn. reflexivity. Qed.

Lemma first_exit_none q :
  first_exit host false q = None <-> forall i g, ~ transition_at host q i g.
Proof.
  induction q as [|p q IH].
  - split; [|reflexivity]. intros _ i g (p & Hp & _). destruct i; discriminate.
  - rewrite first_exit_false_cons. destruct q as [|f r].
    + split; [|reflexivity]. intros _ i g (p' & Hp & Hf & _).
      destruct i; cbn in *; discriminate.
    + rewrite first_exit_false_cons in IH. cbn [first_exit].
      destruct (inSrc p) eqn:Hp, (inSrc f) eqn:Hf; cbn [andb negb].
      * rewrite IH. split.
        -- intros H [|i] g; [rewrite transition_at_zero; intros (_ & _ & ?); congruence|].
           rewrite transition_at_succ. apply H.
        -- intros H i g Hc. apply (H (S i) g). now rewrite transition_at_succ.
      * split; [discriminate|]. intros H. exfalso. apply (H 0 f).
        now rewrite transition_at_zero.
      * rewrite IH. split.
        -- intros H [|i] g; [rewrite transition_at_zero; intros (_ & ? & _); congruence|].
           rewrite transition_at_succ. apply H.
        -- intros H i g Hc. apply (H (S i) g). now rewrite transition_at_succ.
      * rewrite IH. split.
        -- intros H [|i] g; [rewrite transition_at_zero; intros (_ & ? & _); congruence|].
           rewrite transition_at_succ. apply H.
        -- intros H i g Hc. apply (H (S i) g). now rewrite transition_at_succ.
Qed.

Lemma first_transition_step p f r g :
  ~ (inSrc p = true /\ inSrc f = false) ->
  first_transition host (p :: f :: r) g <-> first_transition host (f :: r) g.
Proof.
  intros Hno. unfold first_transition. split.
  - intros ([|i] & Ht & Hmin).
    + apply transition_at_zero in Ht as (_ & ? & ?). tauto.
    + exists i. split; [now apply transition_at_succ in Ht|].
      intros j g' Hj Hc. apply (Hmin (S j) g'); [lia|]. now apply transition_at_succ.
  - intros (i & Ht & Hmin). exists (S i). split; [now apply transition_at_succ|].
    intros [|j] g' Hj.
    + rewrite transition_at_zero. tauto.
    + rewrite transition_at_succ. apply Hmin. lia.
Qed.

Lemma first_exit_some q g :
  first_exit host false q = Some g <-> first_transition host q g.
Proof.
  induction q as [|p q IH].
  - split; [discriminate|]. intros (i & (p & Hp & _) & _). destruct i; discriminate.
  - rewrite first_exit_false_cons. destruct q as [|f r].
    + split; [discriminate|]. intros (i & (p' & Hp & Hf & _) & _).
      destruct i; cbn in *; discriminate.
    + rewrite first_exit_false_cons in IH. cbn [first_exit].
      destruct (inSrc p) eqn:Hp, (inSrc f) eqn:Hf; cbn [andb negb];
        try (rewrite IH; symmetry; apply first_transition_step; rewrite Hp, Hf;
             intros [? ?]; congruence).
      split.
      * intros [= <-]. exists 0. split; [now apply transition_at_zero|]. intros; lia.
      * intros ([|i] & Ht & Hmin).
        -- apply transition_at_zero in Ht as (-> & _). reflexivity.
        -- exfalso. apply (Hmin 0 f); [lia|]. now apply transition_at_zero.
Qed.

Lemma primary_scan_ignores_index_flags frames :
  forall st a b,
    primary_scan host (mkScan (exitedSrcOrDist st) a (previousWasInSrcOrDist st) b) frames
    = primary_scan host st frames.
Proof.
  induction frames as [|cs rest IH]; intros st a b; [reflexivity|].
  cbn [primary_scan]. destruct (toFsPath host cs) as [[f|]|e]; [| |reflexivity].
  - destruct (skipped host (Some f)); [apply IH|]. cbn.
    destruct (if previousWasInSrcOrDist st && negb (inSrc f) then true
              else exitedSrcOrDist st) eqn:Hx; [reflexivity|].
    rewrite <- (IH (mkScan false _ (inSrc f) (currentIsIndex host f))
                   (if b && negb (currentIsIndex host f) then true else a)
                   (currentIsIndex host f)).
    cbn. symmetry.
    rewrite <- (IH (mkScan false (if previousWasIndex st && negb (currentIsIndex host f)
                                  then true else exitedIndex st)
                      (inSrc f) (currentIsIndex host f))
                   (if b && negb (currentIsIndex host f) then true else a)
                   (currentIsIndex host f)).
    reflexivity.
  - cbn. apply IH.
Qed.

End PrimaryScan.

(** C6.  Over the frames the scan does not skip, the primary selector
    answers the first file whose predecessor lies inside [src]/[dist]
    while it does not; it answers [null] exactly when no such pair of
    neighbours exists.  The two index-file variables of the scan state
    have no influence on the answer, and a skipped frame leaves the
    scan state as it found it. *)
Theorem pickPrimaryBaseFile_first_exit
    (host : Host) (frames : list (option string)) (w : World) :
  frames_of host (Some FnPickPrimary) = Ok frames ->
  convertible host frames = true ->
  let q := qualifying host frames in
  (forall f, fst (pickPrimaryBaseFile host w) = Ret (Some f) <-> first_transition host q f)
  /\ (fst (pickPrimaryBaseFile host w) = Ret None <-> forall i g, ~ transition_at host q i g)
  /\ (forall st a b,
        primary_scan host (mkScan (exitedSrcOrDist st) a (previousWasInSrcOrDist st) b) frames
        = primary_scan host st frames)
  /\ (forall st cs f rest,
        toFsPath host cs = Ok f -> skipped host f = true ->
        primary_scan host st (cs :: rest) = primary_scan host st rest).
Proof.
  intros Hcap Hconv q.
  assert (Hrun : fst (pickPrimaryBaseFile host w) = Ret (first_exit host false q)).
  { unfold pickPrimaryBaseFile, bind. rewrite getStack_run. unfold frames_of in Hcap.
    destruct (capture host (Some FnPickPrimary)) as [[fs|]|]; try discriminate;
      injection Hcap as <-; cbn;
      try rewrite (primary_scan_first_exit host _ Hconv scan_init eq_refl); reflexivity. }
  rewrite Hrun. split; [|split; [|split]].
  - intros f. rewrite <- first_exit_some. split; [now intros [= ->]|now intros ->].
  - rewrite <- first_exit_none. split; [now intros [= ->]|now intros ->].
  - apply primary_scan_ignores_index_flags.
  - intros st cs f rest Hf Hsk. cbn [primary_scan]. now rewrite Hf, Hsk.
Qed.

Lemma pickPrimaryBaseFile_first_exit_witness :
  let q := qualifying Fixture.host Fixture.frames in
  q = ["/pkg/src/wisp.mjs"; "/pkg/test/wisp.spec.mjs"]
  /\ fst (pickPrimaryBaseFile Fixture.host Fixture.world0) = Ret (Some "/pkg/test/wisp.spec.mjs").
Proof.
  split; [reflexivity|].
  apply (proj1 (pickPrimaryBaseFile_first_exit Fixture.host Fixture.frames Fixture.world0
                  eq_refl eq_refl)).
  exists 0. split.
  - exists "/pkg/src/wisp.mjs". repeat split; reflexivity.
  - intros j g Hj. inversion Hj.
Defined.

(** * Theorems: the location resolver *)

Section ResolveFacts.

Variable host : Host.

Lemma pickPrimaryBaseFile_run w :
  pickPrimaryBaseFile host w
  = (to_outcome (selectPrimary host), add_event (EvSample (Some FnPickPrimary)) w).
Proof.
  unfold pickPrimaryBaseFile, bind, selectPrimary, frames_of. rewrite getStack_run.
  destruct (capture host (Some FnPickPrimary)) as [[frames|]|e]; cbn;
    try reflexivity;
    match goal with |- context [primary_scan host scan_init ?l] =>
      destruct (primary_scan host scan_init l) end; reflexivity.
Qed.

Lemma pickFallbackBaseFile_run w :
  pickFallbackBaseFile host w
  = (to_outcome (selectFallback host), add_event (EvSample (Some FnPickFallback)) w).
Proof.
  unfold pickFallbackBaseFile, bind, selectFallback, frames_of. rewrite getStack_run.
  destruct (capture host (Some FnPickFallback)) as [[frames|]|e]; cbn;
    try reflexivity;
    match goal with |- context [fallback_scan host ?l] =>
      destruct (fallback_scan host l) end; reflexivity.
Qed.

(** The guard of [resolveWith] fires before anything else happens. *)
Lemma resolveWith_rejects_non_string rel mk ex mf w :
  is_string rel = false ->
  resolveWith host rel mk ex mf w = (Throw (mkError KTypeError "rel must be a string"), w).
Proof. destruct rel; intros H; try discriminate; reflexivity. Qed.

(** What the two wrappers do with a non-string: the world is returned
    as it was received, and the call raises a [TypeError] unless the
    value carries a [startsWith] method that answers true for
    ["file://"], which URL mode hands back. *)
Lemma resolvePathFromCaller_non_string rel w :
  is_string rel = false ->
  snd (resolvePathFromCaller host rel w) = w
  /\ is_type_error (fst (resolvePathFromCaller host rel w)) = true.
Proof.
  intros H. destruct rel as [| | | | |?|[| |a]]; try discriminate; try (split; reflexivity).
  unfold resolvePathFromCaller, bind; cbn. destruct (a "file://"); split; reflexivity.
Qed.

Lemma resolveUrlFromCaller_non_string rel w :
  is_string rel = false ->
  snd (resolveUrlFromCaller host rel w) = w
  /\ (is_type_error (fst (resolveUrlFromCaller host rel w)) = true
      \/ exists a, rel = JObject (MMethod a) /\ a "file://" = true
                   /\ fst (resolveUrlFromCaller host rel w) = Ret rel).
Proof.
  intros H. destruct rel as [| | | | |?|[| |a]]; try discriminate;
    try (split; [reflexivity|left; reflexivity]).
  unfold resolveUrlFromCaller, bind; cbn. destruct (a "file://") eqn:Ha.
  - split; [reflexivity|]. right. exists a. auto.
  - split; [reflexivity|left; reflexivity].
Qed.

End ResolveFacts.

(** C5.  For a relative string reference (not a [file://] locator, not
    absolute) both resolvers take [selectPrimary() ?? selectFallback()]
    as the base, build the candidate from it, and test that candidate
    for existence once.  If it exists it is the result; otherwise the
    result is the candidate built from a further [selectFallback()]
    sample, and no existence test is made on it.  The effect trace
    records exactly these steps. *)
Theorem resolve_relative_two_phase
    (host : Host) (r : string) (w : World) (picked : option string) (fb : string) :
  startsWith r "file://" = false ->
  path_isAbsolute host r = false ->
  selectPrimary host = Ok picked ->
  selectFallback host = Ok fb ->
  let primaryBase := default fb picked in
  let sampled :=
    ([EvSample (Some FnPickPrimary)]
     ++ match picked with
        | Some _ => []
        | None => [EvSample (Some FnPickFallback)]
        end)%list in
  (let cand := path_resolve host (path_dirname host primaryBase) r in
   let found := existsSync host cand in
   resolvePathFromCaller host (JString r) w
   = (Ret (JString (if found then cand
                    else path_resolve host (path_dirname host fb) r)),
      mkWorld (heap w) (registry w) (prepareStackTrace w)
        (trace w ++ sampled ++ [EvExists cand]
           ++ (if found then [] else [EvSample (Some FnPickFallback)]))%list))
  /\ (forall cand p fbcand,
        URL_new host r (Some (pathToFileURL host primaryBase)) = Ok cand ->
        fileURLToPath host cand = Ok p ->
        URL_new host r (Some (pathToFileURL host fb)) = Ok fbcand ->
        let found := existsSync host p in
        resolveUrlFromCaller host (JString r) w
        = (Ret (JString (if found then cand else fbcand)),
           mkWorld (heap w) (registry w) (prepareStackTrace w)
             (trace w ++ sampled ++ [EvExists p]
                ++ (if found then [] else [EvSample (Some FnPickFallback)]))%list)).
Proof.
  intros Hurl Habs Hp Hf primaryBase sampled. split.
  - cbn zeta. unfold resolvePathFromCaller, resolveWith, existsSync_logged, bind, emit, lift, ret.
    cbn. rewrite Hurl, Habs. cbn. rewrite pickPrimaryBaseFile_run, Hp. cbn.
    subst primaryBase sampled. destruct picked as [b|]; cbn.
    + destruct (existsSync host _); cbn.
      * unfold add_event; cbn. now rewrite <- !app_assoc.
      * rewrite pickFallbackBaseFile_run, Hf. cbn. unfold add_event; cbn.
        now rewrite <- !app_assoc.
    + rewrite pickFallbackBaseFile_run, Hf. cbn. destruct (existsSync host _); cbn.
      * unfold add_event; cbn. now rewrite <- !app_assoc.
      * rewrite pickFallbackBaseFile_run, Hf. cbn. unfold add_event; cbn.
        now rewrite <- !app_assoc.
  - intros cand p fbcand Hc Hpath Hfc. cbn zeta.
    unfold resolveUrlFromCaller, resolveWith, existsSync_logged, bind, emit, lift, ret.
    cbn. rewrite Hurl, Habs. cbn. rewrite pickPrimaryBaseFile_run, Hp. cbn.
    subst primaryBase sampled. destruct picked as [b|]; cbn in *.
    + rewrite Hc. cbn. rewrite Hpath. cbn. destruct (existsSync host p); cbn.
      * unfold add_event; cbn. now rewrite <- !app_assoc.
      * rewrite pickFallbackBaseFile_run, Hf. cbn. rewrite Hfc. cbn.
        unfold add_event; cbn. now rewrite <- !app_assoc.
    + rewrite pickFallbackBaseFile_run, Hf. cbn. rewrite Hc. cbn. rewrite Hpath. cbn.
      destruct (existsSync host p); cbn.
      * unfold add_event; cbn. now rewrite <- !app_assoc.
      * rewrite pickFallbackBaseFile_run, Hf. cbn. rewrite Hfc. cbn.
        unfold add_event; cbn. now rewrite <- !app_assoc.
Qed.

Lemma resolve_relative_two_phase_witness :
  fst (resolvePathFromCaller Fixture.host (JString "./fixtures/nonexistent.json") Fixture.world0)
  = Ret (JString "/pkg/src/fixtures/nonexistent.json")
  /\ fst (resolveUrlFromCaller Fixture.host (JString "./fixtures/sample.json") Fixture.world0)
     = Ret (JString "file:///pkg/test/fixtures/sample.json")
  /\ trace (snd (resolveUrlFromCaller Fixture.host (JString "./fixtures/nonexistent.json")
                   Fixture.world0))
     = [EvSample (Some FnPickPrimary); EvExists "/pkg/test/fixtures/nonexistent.json";
        EvSample (Some FnPickFallback)].
Proof.
  destruct (resolve_relative_two_phase Fixture.host "./fixtures/nonexistent.json"
              Fixture.world0 (Some "/pkg/test/wisp.spec.mjs") "/pkg/src/wisp.mjs"
              eq_refl eq_refl eq_refl eq_refl) as [Hpath Hurl].
  destruct (resolve_relative_two_phase Fixture.host "./fixtures/sample.json"
              Fixture.world0 (Some "/pkg/test/wisp.spec.mjs") "/pkg/src/wisp.mjs"
              eq_refl eq_refl eq_refl eq_refl) as [_ Hurl'].
  split; [|split].
  - rewrite Hpath. reflexivity.
  - rewrite (Hurl' _ _ _ eq_refl eq_refl eq_refl). reflexivity.
  - rewrite (Hurl _ _ _ eq_refl eq_refl eq_refl). reflexivity.
Defined.

(** C7.  A reference that is not a string but carries a [startsWith]
    method answering true is handed back by [resolveUrlFromCaller]
    unchanged: the [file://] short-circuit of the wrapper runs before
    the type guard of [resolveWith] is reached, so no failure is
    raised.  (No stack is sampled and no file is looked at.) *)
Theorem resolveUrlFromCaller_returns_non_string (host : Host) (w : World) :
  let rel := JObject (MMethod (fun _ => true)) in
  is_string rel = false
  /\ resolveUrlFromCaller host rel w = (Ret rel, w).
Proof. split; reflexivity. Qed.

(** * Theorems: the tiered loader *)

Section Frames.

Variable P : World -> World -> Prop.
Hypothesis P_refl : forall w, P w w.
Hypothesis P_trans : forall w1 w2 w3, P w1 w2 -> P w2 w3 -> P w1 w3.

Lemma preserves_ret {A} (a : A) : preserves P (ret a).
Proof. intros w r w' [= <- <-]. apply P_refl. Qed.

Lemma preserves_throw {A} e : preserves P (@throw A e).
Proof. intros w r w' [= <- <-]. apply P_refl. Qed.

Lemma preserves_diverge {A} : preserves P (@diverge A).
Proof. intros w r w' [= <- <-]. apply P_refl. Qed.

Lemma preserves_lift {A} (x : result A) : preserves P (lift x).
Proof. destruct x; [apply preserves_ret|apply preserves_throw]. Qed.

Lemma preserves_bind {A B} (m : M A) (k : A -> M B) :
  preserves P m -> (forall a, preserves P (k a)) -> preserves P (bind m k).
Proof.
  intros Hm Hk w r w' H. unfold bind in H.
  destruct (m w) as [[a|e|] w1] eqn:Hmw.
  - eapply P_trans; [eapply Hm, Hmw|eapply Hk, H].
  - injection H as <- <-. eapply Hm, Hmw.
  - injection H as <- <-. eapply Hm, Hmw.
Qed.

Lemma preserves_try_catch {A} (m : M A) (h : JsError -> M A) :
  preserves P m -> (forall e, preserves P (h e)) -> preserves P (try_catch m h).
Proof.
  intros Hm Hh w r w' H. unfold try_catch in H.
  destruct (m w) as [[a|e|] w1] eqn:Hmw.
  - injection H as <- <-. eapply Hm, Hmw.
  - eapply P_trans; [eapply Hm, Hmw|eapply Hh, H].
  - injection H as <- <-. eapply Hm, Hmw.
Qed.

End Frames.

(** Frame conditions of every function of the two files at once, for a
    relation [P] that is a preorder, admits the events [ok] admits, and
    admits the two ways the heap and the registry grow. *)
Section GenericFrames.

Variable host : Host.
Variable P : World -> World -> Prop.
Variable ok : Event -> bool.

Hypothesis P_refl : forall w, P w w.
Hypothesis P_trans : forall w1 w2 w3, P w1 w2 -> P w2 w3 -> P w1 w3.
Hypothesis P_event : forall e w, ok e = true -> P w (add_event e w).
Hypothesis P_alloc : forall d w, P w (snd (alloc_doc d w)).
Hypothesis P_cache :
  forall href ty d w,
    registry w !! (href, ty) = None ->
    load_module host href ty = Ok d ->
    P w (cache_module (href, ty) (length (heap w)) (snd (alloc_doc d w))).

Lemma frame_bind {A B} (m : M A) (k : A -> M B) :
  preserves P m -> (forall a, preserves P (k a)) -> preserves P (bind m k).
Proof. exact (preserves_bind P P_trans m k). Qed.

Lemma frame_try_catch {A} (m : M A) (h : JsError -> M A) :
  preserves P m -> (forall e, preserves P (h e)) -> preserves P (try_catch m h).
Proof. exact (preserves_try_catch P P_trans m h). Qed.

Ltac frame :=
  first [ apply preserves_ret, P_refl
        | apply preserves_throw, P_refl
        | apply preserves_lift, P_refl
        | apply preserves_diverge, P_refl ].

Ltac pure_step H :=
  injection H as <- <-; first [apply P_refl | apply P_alloc].

Lemma fresh_frame r : preserves P (fresh r).
Proof. intros w o w' H. unfold fresh in H. destruct r; pure_step H. Qed.

Lemma deepClone_frame v : preserves P (deepClone host v).
Proof.
  intros w o w' H. unfold deepClone, dangling, throw in H.
  destruct (has_structuredClone host).
  - destruct v as [l|l]; destruct (heap w !! l);
      first [eapply fresh_frame, H | pure_step H].
  - destruct (as_json w v); first [eapply fresh_frame, H | pure_step H].
Qed.

Lemma parse_revived_frame txt f : preserves P (parse_revived host txt f).
Proof.
  intros w o w' H. unfold parse_revived in H.
  destruct (JSON_parse_text host txt) as [d0|e]; [|pure_step H].
  destruct (revive f d0) as [d|e]; [|pure_step H].
  destruct (kept f d0) as [l|]; [destruct (holds w l d); [pure_step H|]|];
    exact (fresh_frame (Ok d) w o w' H).
Qed.

Lemma emit_frame e : ok e = true -> preserves P (emit e).
Proof. intros He w o w' [= <- <-]. now apply P_event. Qed.

Lemma default_or_module_frame l : preserves P (default_or_module l).
Proof.
  intros w o w' H. unfold default_or_module in H.
  destruct (heap w !! l) as [[]|]; pure_step H.
Qed.

Lemma validated_frame options val : preserves P (validated options val).
Proof.
  unfold validated. destruct (validate options) as [f|]; [|frame].
  apply frame_try_catch; [|intros; frame].
  intros w o w' H. unfold call_validate, dangling, throw in H.
  destruct (as_json w val) as [d|]; [destruct (f d)|]; pure_step H.
Qed.

Lemma getStack_frame skipFn :
  ok (EvSample skipFn) = true -> preserves P (getStack host skipFn).
Proof.
  intros He w o w' H. rewrite getStack_run in H. injection H as _ <-.
  now apply P_event.
Qed.

Section Imports.

Hypothesis ok_import : forall syn href ty, ok (EvImport syn href ty) = true.

Lemma dynamic_import_frame syn href ty :
  preserves P (dynamic_import host syn href ty).
Proof.
  unfold dynamic_import. apply frame_bind; [now apply emit_frame|].
  intros _ w o w' H. destruct (supports_syntax host syn); [|pure_step H].
  destruct (registry w !! (href, ty)) eqn:Hreg; [pure_step H|].
  destruct (load_module host href ty) eqn:Hload; [|pure_step H].
  injection H as <- <-. now apply P_cache.
Qed.

Lemma import_tier_frame syn href ty options :
  preserves P (import_tier host syn href ty options).
Proof.
  unfold import_tier.
  apply frame_bind; [apply dynamic_import_frame|intros l].
  apply frame_bind; [apply default_or_module_frame|intros target].
  destruct (is_none (reviver options) && is_none (validate options)); [frame|].
  apply frame_bind; [apply deepClone_frame|intros val].
  apply frame_bind.
  - destruct (reviver options) as [f|]; [|frame].
    intros w o w' H. unfold dangling, throw in H. destruct (as_json w val).
    + eapply parse_revived_frame, H.
    + pure_step H.
  - intros val'. apply frame_bind; [apply validated_frame|intros; frame].
Qed.

End Imports.

Lemma raw_tier_frame href options :
  ok (EvRead href) = true -> preserves P (raw_tier host href options).
Proof.
  intros He. unfold raw_tier.
  apply frame_bind; [now apply emit_frame|intros _].
  apply frame_bind; [frame|intros txt].
  apply frame_bind; [apply fresh_frame|intros parsed].
  apply frame_bind; [apply deepClone_frame|intros val].
  apply frame_bind; [apply validated_frame|intros; frame].
Qed.

(** The resolver emits stack samples and existence checks only. *)
Lemma resolveUrlFromCaller_frame rel :
  (forall k, ok (EvSample k) = true) -> (forall p, ok (EvExists p) = true) ->
  preserves P (resolveUrlFromCaller host rel).
Proof.
  intros Hs He. unfold resolveUrlFromCaller.
  apply frame_bind; [frame|intros [|]]; [frame|].
  apply frame_bind; [frame|intros [|]]; [destruct rel; frame|].
  unfold resolveWith. destruct rel; try frame.
  assert (Hfb : preserves P (pickFallbackBaseFile host)).
  { apply frame_bind; [now apply getStack_frame|intros; frame]. }
  apply frame_bind; [apply frame_bind; [now apply getStack_frame|intros; frame]|intros picked].
  apply frame_bind; [destruct picked; [frame|exact Hfb]|intros b].
  apply frame_bind; [frame|intros primary].
  apply frame_bind.
  - apply frame_bind; [frame|intros p].
    apply frame_bind; [now apply emit_frame|intros; frame].
  - intros [|]; [frame|].
    apply frame_bind; [exact Hfb|intros fb].
    apply frame_bind; intros; frame.
Qed.

Lemma target_url_frame input options :
  (forall k, ok (EvSample k) = true) -> (forall p, ok (EvExists p) = true) ->
  preserves P (target_url host input options).
Proof.
  intros Hs He. unfold target_url. destruct input as [href|s]; [frame|].
  destruct (startsWith s "file://"); [frame|].
  destruct (path_isAbsolute host s); [frame|].
  destruct (truthy_input (base options)).
  - destruct (base options); [|frame]. apply frame_bind; intros; frame.
  - apply frame_bind; [now apply resolveUrlFromCaller_frame|intros []; frame].
Qed.

(** The loaders, given the frame condition of their [let url] block. *)
Lemma wisp_frame options :
  (forall input, preserves P (target_url host input options)) ->
  (forall syn href ty, ok (EvImport syn href ty) = true) ->
  (forall href, String.eqb (type_or_default options) "json" = true -> ok (EvRead href) = true) ->
  forall fuel input, preserves P (wisp host fuel input options).
Proof.
  intros Ht Hi Hr fuel.
  induction fuel as [|fuel IH]; intros input; [frame|].
  cbn [wisp].
  apply frame_bind; [apply Ht|intros url].
  apply frame_try_catch; [now apply import_tier_frame|intros _].
  apply frame_try_catch; [now apply import_tier_frame|intros _].
  destruct (String.eqb _ _); [|frame].
  apply frame_try_catch; [now apply raw_tier_frame, Hr|intros e].
  destruct (fallback options) as [fb|]; [|frame].
  destruct (truthy_input (Some fb)); [apply IH|frame].
Qed.

Lemma wispSync_frame options :
  (forall input, preserves P (target_url host input options)) ->
  (forall href, ok (EvRead href) = true) ->
  forall fuel input, preserves P (wispSync host fuel input options).
Proof.
  intros Ht Hr fuel.
  induction fuel as [|fuel IH]; intros input; [frame|].
  cbn [wispSync].
  apply frame_bind; [apply Ht|intros url].
  apply frame_try_catch; [now apply raw_tier_frame|intros e].
  destruct (fallback options) as [fb|]; [|frame].
  destruct (truthy_input (Some fb)); [apply IH|frame].
Qed.

End GenericFrames.

Section TraceFrames.

Variable ok : Event -> bool.

Lemma only_events_refl w : only_events ok w w.
Proof. exists []. split; [now rewrite app_nil_r|reflexivity]. Qed.

Lemma only_events_trans w1 w2 w3 :
  only_events ok w1 w2 -> only_events ok w2 w3 -> only_events ok w1 w3.
Proof.
  intros (e1 & H1 & F1) (e2 & H2 & F2). exists (e1 ++ e2)%list. split.
  - now rewrite H2, H1, app_assoc.
  - now rewrite forallb_app, F1, F2.
Qed.

Lemma only_events_event e w : ok e = true -> only_events ok w (add_event e w).
Proof. intros He. exists [e]. split; [reflexivity|]. cbn. now rewrite He. Qed.

Lemma only_events_same_trace w w' : trace w' = trace w -> only_events ok w w'.
Proof. intros H. exists []. split; [now rewrite app_nil_r|reflexivity]. Qed.

Lemma only_events_alloc d w : only_events ok w (snd (alloc_doc d w)).
Proof. now apply only_events_same_trace. Qed.

Lemma only_events_cache key d w :
  registry w !! key = None ->
  only_events ok w (cache_module key (length (heap w)) (snd (alloc_doc d w))).
Proof. intros _. now apply only_events_same_trace. Qed.

End TraceFrames.

Section QuietTiers.

Variable host : Host.

(** With a truthy [base] the [let url] block never reaches
    [resolveUrlFromCaller], whatever the input. *)
Lemma target_url_with_base input options :
  truthy_input (base options) = true ->
  forall w, snd (target_url host input options w) = w.
Proof.
  intros Hb w. unfold target_url. destruct input as [href|s]; [reflexivity|].
  destruct (startsWith s "file://"); [destruct (URL_new host s None); reflexivity|].
  destruct (path_isAbsolute host s); [reflexivity|].
  rewrite Hb. destruct (base options) as [b|]; [|discriminate].
  unfold bind, lift. destruct (URL_new host (input_text b) None) as [b'|]; cbn;
    try reflexivity.
  destruct (URL_new host s (Some b')); reflexivity.
Qed.

Lemma target_url_quiet input options :
  truthy_input (base options) = true ->
  preserves no_sampling (target_url host input options).
Proof.
  intros Hb w o w' H. pose proof (target_url_with_base input options Hb w) as Hw.
  rewrite H in Hw. cbn in Hw. subst w'. apply only_events_refl.
Qed.

Lemma wisp_quiet options :
  truthy_input (base options) = true ->
  forall fuel input, preserves no_sampling (wisp host fuel input options).
Proof.
  intros Hb.
  apply (wisp_frame host no_sampling (fun e => negb (is_sample e))
           (only_events_refl _) (only_events_trans _) (only_events_event _)
           (only_events_alloc _)
           (fun href ty d w H _ => only_events_cache _ (href, ty) d w H) options);
    [intros; now apply target_url_quiet|intros; reflexivity|intros; reflexivity].
Qed.

Lemma wispSync_quiet options :
  truthy_input (base options) = true ->
  forall fuel input, preserves no_sampling (wispSync host fuel input options).
Proof.
  intros Hb.
  apply (wispSync_frame host no_sampling (fun e => negb (is_sample e))
           (only_events_refl _) (only_events_trans _) (only_events_event _)
           (only_events_alloc _) options);
    [intros; now apply target_url_quiet|intros; reflexivity].
Qed.

End QuietTiers.

(** C10.  A relative string reference loaded with a truthy [base] is
    loaded exactly as the URL [new URL(reference, new URL(base))]: both
    loaders behave on it as on that URL object, they raise what the URL
    constructor raises when the join fails, and over the whole load,
    fallback re-dispatches included, no stack sample is taken. *)
Theorem base_bypasses_caller_detection
    (host : Host) (s : string) (b : Input) (options : Options) (w : World) :
  startsWith s "file://" = false ->
  path_isAbsolute host s = false ->
  base options = Some b ->
  truthy_input (Some b) = true ->
  let joined :=
    result_bind (URL_new host (input_text b) None) (fun b' => URL_new host s (Some b')) in
  target_url host (InStr s) options w = (to_outcome joined, w)
  /\ (forall href fuel,
        joined = Ok href ->
        wisp host fuel (InStr s) options w = wisp host fuel (InUrl href) options w
        /\ wispSync host fuel (InStr s) options w = wispSync host fuel (InUrl href) options w)
  /\ (forall e fuel,
        joined = Err e ->
        wisp host (S fuel) (InStr s) options w = (Throw e, w)
        /\ wispSync host (S fuel) (InStr s) options w = (Throw e, w))
  /\ (forall fuel,
        no_sampling w (snd (wisp host fuel (InStr s) options w))
        /\ no_sampling w (snd (wispSync host fuel (InStr s) options w))).
Proof.
  intros Hurl Habs Hb Ht joined.
  assert (Htarget : target_url host (InStr s) options w = (to_outcome joined, w)).
  { unfold target_url. rewrite Hurl, Habs, Hb, Ht. subst joined.
    unfold bind, lift. destruct (URL_new host (input_text b) None) as [b'|]; cbn;
      [|reflexivity].
    destruct (URL_new host s (Some b')); reflexivity. }
  split; [exact Htarget|]. split; [|split].
  - intros href fuel Hj. rewrite Hj in Htarget. unfold to_outcome in Htarget.
    destruct fuel as [|fuel]; [split; reflexivity|].
    split; cbn [wisp wispSync]; unfold bind at 1; rewrite Htarget; reflexivity.
  - intros e fuel Hj. rewrite Hj in Htarget. unfold to_outcome in Htarget.
    split; cbn [wisp wispSync]; unfold bind at 1; rewrite Htarget; reflexivity.
  - intros fuel. rewrite <- Hb in Ht. split.
    + destruct (wisp host fuel (InStr s) options w) as [o w'] eqn:Hrun.
      exact (wisp_quiet host options Ht fuel (InStr s) w o w' Hrun).
    + destruct (wispSync host fuel (InStr s) options w) as [o w'] eqn:Hrun.
      exact (wispSync_quiet host options Ht fuel (InStr s) w o w' Hrun).
Qed.

Lemma base_bypasses_caller_detection_witness :
  let options :=
    mkOptions (Some (InStr "file:///pkg/test/fixtures/")) None None None None in
  target_url Fixture.host (InStr "./sample.json") options Fixture.world0
  = (Ret "file:///pkg/test/fixtures/sample.json", Fixture.world0)
  /\ no_sampling Fixture.world0
       (snd (wispSync Fixture.host 2 (InStr "./sample.json") options Fixture.world0)).
Proof.
  intros options.
  destruct (base_bypasses_caller_detection Fixture.host "./sample.json"
              (InStr "file:///pkg/test/fixtures/") options Fixture.world0
              eq_refl eq_refl eq_refl eq_refl) as (Ht & _ & _ & Hq).
  split; [exact Ht|exact (proj2 (Hq 2))].
Defined.

Section Totality.

Variable host : Host.

Lemma total_ret {A} (a : A) : total (ret a).
Proof. intros w; discriminate. Qed.

Lemma total_throw {A} e : total (@throw A e).
Proof. intros w; discriminate. Qed.

Lemma total_lift {A} (x : result A) : total (lift x).
Proof. destruct x; [apply total_ret|apply total_throw]. Qed.

Lemma total_bind {A B} (m : M A) (k : A -> M B) :
  total m -> (forall a, total (k a)) -> total (bind m k).
Proof.
  intros Hm Hk w. unfold bind. specialize (Hm w).
  destruct (m w) as [[a|e|] w1]; cbn in *; [apply Hk|discriminate|congruence].
Qed.

Lemma total_try_catch {A} (m : M A) (h : JsError -> M A) :
  total m -> (forall e, total (h e)) -> total (try_catch m h).
Proof.
  intros Hm Hh w. unfold try_catch. specialize (Hm w).
  destruct (m w) as [[a|e|] w1]; cbn in *; [discriminate|apply Hh|congruence].
Qed.

Ltac done_total :=
  first [apply total_ret | apply total_throw | apply total_lift].

Lemma fresh_total r : total (fresh r).
Proof. intros w. unfold fresh. destruct r; discriminate. Qed.

Lemma deepClone_total v : total (deepClone host v).
Proof.
  intros w. unfold deepClone, dangling, throw.
  destruct (has_structuredClone host).
  - destruct v as [l|l]; destruct (heap w !! l); first [apply fresh_total|discriminate].
  - destruct (as_json w v); first [apply fresh_total|discriminate].
Qed.

Lemma parse_revived_total txt f : total (parse_revived host txt f).
Proof.
  intros w. unfold parse_revived.
  destruct (JSON_parse_text host txt) as [d0|e]; [|discriminate].
  destruct (revive f d0) as [d|e]; [|discriminate].
  destruct (kept f d0) as [l|]; [destruct (holds w l d); [discriminate|]|];
    apply (fresh_total (Ok d)).
Qed.

Lemma emit_total e : total (emit e).
Proof. intros w; discriminate. Qed.

Lemma validated_total options val : total (validated options val).
Proof.
  unfold validated. destruct (validate options) as [f|]; [|done_total].
  apply total_try_catch; [|intros; done_total].
  intros w. unfold call_validate, dangling, throw.
  destruct (as_json w val) as [d|]; [destruct (f d)|]; discriminate.
Qed.

Lemma import_tier_total syn href ty options :
  total (import_tier host syn href ty options).
Proof.
  unfold import_tier. apply total_bind.
  - unfold dynamic_import. apply total_bind; [apply emit_total|].
    intros _ w. destruct (supports_syntax host syn); [|discriminate].
    destruct (registry w !! (href, ty)); [discriminate|].
    destruct (load_module host href ty); discriminate.
  - intros l. apply total_bind.
    + intros w. unfold default_or_module. destruct (heap w !! l) as [[]|]; discriminate.
    + intros target.
      destruct (is_none (reviver options) && is_none (validate options)); [done_total|].
      apply total_bind; [apply deepClone_total|intros val].
      apply total_bind.
      * destruct (reviver options) as [f|]; [|done_total].
        intros w. unfold dangling, throw.
        destruct (as_json w val); [apply parse_revived_total|discriminate].
      * intros val'. apply total_bind; [apply validated_total|intros; done_total].
Qed.

Lemma raw_tier_total href options : total (raw_tier host href options).
Proof.
  unfold raw_tier.
  apply total_bind; [apply emit_total|intros _].
  apply total_bind; [done_total|intros txt].
  apply total_bind; [apply fresh_total|intros parsed].
  apply total_bind; [apply deepClone_total|intros val].
  apply total_bind; [apply validated_total|intros; done_total].
Qed.

Lemma getStack_total skipFn : total (getStack host skipFn).
Proof.
  intros w. rewrite getStack_run. cbn.
  destruct (capture host skipFn) as [[|]|]; discriminate.
Qed.

Lemma resolveUrlFromCaller_total rel : total (resolveUrlFromCaller host rel).
Proof.
  unfold resolveUrlFromCaller.
  apply total_bind; [done_total|intros [|]]; [done_total|].
  apply total_bind; [done_total|intros [|]]; [destruct rel; done_total|].
  unfold resolveWith. destruct rel; try done_total.
  assert (Hfb : total (pickFallbackBaseFile host)).
  { apply total_bind; [apply getStack_total|intros; done_total]. }
  apply total_bind; [apply total_bind; [apply getStack_total|intros; done_total]|intros picked].
  apply total_bind; [destruct picked; [done_total|exact Hfb]|intros b].
  apply total_bind; [done_total|intros primary].
  apply total_bind.
  - apply total_bind; [done_total|intros p].
    apply total_bind; [apply emit_total|intros; done_total].
  - intros [|]; [done_total|].
    apply total_bind; [exact Hfb|intros fb].
    apply total_bind; intros; done_total.
Qed.

Lemma target_url_total input options : total (target_url host input options).
Proof.
  unfold target_url. destruct input as [href|s]; [done_total|].
  destruct (startsWith s "file://"); [done_total|].
  destruct (path_isAbsolute host s); [done_total|].
  destruct (truthy_input (base options)).
  - destruct (base options); [|done_total]. apply total_bind; intros; done_total.
  - apply total_bind; [apply resolveUrlFromCaller_total|intros []; done_total].
Qed.

End Totality.

Section LoaderSteps.

Variable host : Host.

Lemma import_tier_rejected syn href ty options w :
  import_rejected host w href ty = true ->
  exists e, import_tier host syn href ty options w
            = (Throw e, add_event (EvImport syn href ty) w).
Proof.
  intros H. unfold import_rejected in H. cbn in H.
  apply andb_prop in H as [H1 H2]. apply andb_prop in H2 as [H2 _].
  assert (Hsyn : negb (supports_syntax host syn)
                 || (is_none (registry w !! (href, ty))
                     && match load_module host href ty with Ok _ => false | Err _ => true end)
                 = true) by (destruct syn; assumption).
  unfold import_tier, dynamic_import, bind, emit. cbn.
  destruct (supports_syntax host syn); cbn in Hsyn; [|eauto].
  apply andb_prop in Hsyn as [Hreg Hload].
  destruct (registry w !! (href, ty)); [discriminate|].
  destruct (load_module host href ty); [discriminate|eauto].
Qed.

Lemma import_rejected_add_event e w href ty :
  import_rejected host (add_event e w) href ty = import_rejected host w href ty.
Proof. reflexivity. Qed.

Lemma raw_tier_read_fails href options w e :
  read_parse host href (reviver options) = Err e ->
  raw_tier host href options w = (Throw e, add_event (EvRead href) w).
Proof.
  unfold read_parse, raw_tier, bind, emit, lift, fresh. intros H.
  destruct (readFile host href) as [txt|e']; cbn in *; [|congruence].
  rewrite H. reflexivity.
Qed.

(** A readable, parseable, clonable and valid file is returned as a
    structure of its own: the parse result and its clone are the two
    cells the tier adds to the heap. *)
Lemma raw_tier_success href options w d :
  read_parse host href (reviver options) = Ok d ->
  clone_doc host d = Ok d ->
  validation_error options d = None ->
  raw_tier host href options w
  = (Ret (VRef (S (length (heap w)))),
     mkWorld (heap w ++ [d; d])%list (registry w) (prepareStackTrace w)
       (trace w ++ [EvRead href])%list).
Proof.
  unfold read_parse, clone_doc, validation_error, raw_tier, bind, emit, lift, fresh.
  intros Hr Hc Hv.
  destruct (readFile host href) as [txt|e']; cbn in *; [|discriminate].
  rewrite Hr. cbn. unfold deepClone. cbn.
  rewrite lookup_app_r by (cbn; lia). rewrite Nat.sub_diag. cbn.
  assert (Hlen : length (heap w ++ [d]) = S (length (heap w)))
    by (rewrite length_app; cbn; lia).
  destruct (has_structuredClone host); cbn.
  - unfold validated, try_catch, call_validate. rewrite Hlen.
    destruct (validate options) as [f|]; cbn.
    + rewrite lookup_app_r by (rewrite Hlen; lia). rewrite Hlen, Nat.sub_diag. cbn.
      rewrite Hv. cbn. now rewrite <- app_assoc.
    + now rewrite <- app_assoc.
  - rewrite Hc. cbn. unfold validated, try_catch, call_validate. rewrite Hlen.
    destruct (validate options) as [f|]; cbn.
    + rewrite lookup_app_r by (rewrite Hlen; lia). rewrite Hlen, Nat.sub_diag. cbn.
      rewrite Hv. cbn. now rewrite <- app_assoc.
    + now rewrite <- app_assoc.
Qed.

Lemma target_url_type input options ty :
  target_url host input (with_type ty options) = target_url host input options.
Proof. reflexivity. Qed.

Lemma raw_tier_type href options ty :
  raw_tier host href (with_type ty options) = raw_tier host href options.
Proof. reflexivity. Qed.

(** The synchronous loader does not look at the declared type. *)
Lemma wispSync_ignores_type options ty :
  forall fuel input w,
    wispSync host fuel input (with_type ty options) w = wispSync host fuel input options w.
Proof.
  induction fuel as [|fuel IH]; intros input w; [reflexivity|].
  cbn [wispSync]. rewrite target_url_type. unfold bind.
  destruct (target_url host input options w) as [[url|e|] w1]; try reflexivity.
  rewrite raw_tier_type. unfold try_catch.
  destruct (raw_tier host url options w1) as [[v|e|] w2]; try reflexivity.
  cbn [fallback with_type]. destruct (fallback options) as [fb|]; [|reflexivity].
  destruct (truthy_input (Some fb)); [apply IH|reflexivity].
Qed.

(** The asynchronous loader with a declared type other than ["json"]
    never reads the file itself. *)
Lemma wisp_non_json_never_reads options :
  String.eqb (type_or_default options) "json" = false ->
  forall fuel input, preserves no_raw_read (wisp host fuel input options).
Proof.
  intros Hty.
  apply (wisp_frame host no_raw_read (fun e => negb (is_read e))
           (only_events_refl _) (only_events_trans _) (only_events_event _)
           (only_events_alloc _)
           (fun href ty d w H _ => only_events_cache _ (href, ty) d w H) options).
  - intros input.
    apply (target_url_frame host no_raw_read (fun e => negb (is_read e))
             (only_events_refl _) (only_events_trans _) (only_events_event _));
      intros; reflexivity.
  - intros; reflexivity.
  - intros href H. congruence.
Qed.

(** And it ends in one of three ways: the location could not be
    built, an import tier produced the value, or the unsupported-type
    failure is raised with the declared type and the location. *)
Lemma wisp_non_json_outcome options fuel input w o w' :
  String.eqb (type_or_default options) "json" = false ->
  wisp host (S fuel) input options w = (o, w') ->
  (exists e, target_url host input options w = (Throw e, w') /\ o = Throw e)
  \/ exists url w1,
       target_url host input options w = (Ret url, w1)
       /\ ((exists syn w0 v,
              import_tier host syn url (type_or_default options) options w0 = (Ret v, w')
              /\ o = Ret v)
           \/ o = Throw (unsupported_type (type_or_default options) url)).
Proof.
  intros Hty H. cbn [wisp] in H. rewrite Hty in H. unfold bind in H.
  destruct (target_url host input options w) as [[url|e|] w1] eqn:Ht.
  - right. exists url, w1. split; [reflexivity|]. unfold try_catch in H.
    destruct (import_tier host SynWith url _ options w1) as [[v|e1|] w2] eqn:H1.
    + injection H as <- <-. left. eauto.
    + destruct (import_tier host SynAssert url _ options w2) as [[v|e2|] w3] eqn:H2.
      * injection H as <- <-. left. eauto.
      * injection H as <- <-. now right.
      * exfalso. apply (import_tier_total host SynAssert url (type_or_default options) options w2).
        now rewrite H2.
    + exfalso. apply (import_tier_total host SynWith url (type_or_default options) options w1).
      now rewrite H1.
  - left. exists e. injection H as <- <-. auto.
  - exfalso. apply (target_url_total host input options w). now rewrite Ht.
Qed.

End LoaderSteps.

Section FallbackSteps.

Variable host : Host.

Lemma wispSync_read_fails fuel input options w w1 href e :
  target_url host input options w = (Ret href, w1) ->
  read_parse host href (reviver options) = Err e ->
  wispSync host (S fuel) input options w
  = match fallback options with
    | Some fb =>
        if truthy_input (Some fb)
        then wispSync host fuel fb options (add_event (EvRead href) w1)
        else (Throw (load_failure href e), add_event (EvRead href) w1)
    | None => (Throw (load_failure href e), add_event (EvRead href) w1)
    end.
Proof.
  intros Ht Hr. cbn [wispSync]. unfold bind. rewrite Ht. unfold try_catch.
  rewrite (raw_tier_read_fails host href options w1 e Hr).
  destruct (fallback options) as [fb|]; [|reflexivity].
  destruct (truthy_input (Some fb)); reflexivity.
Qed.

Lemma import_rejected_fails href ty options w :
  import_rejected host w href ty = true ->
  imports_fail host href ty options w
    (add_event (EvImport SynAssert href ty) (add_event (EvImport SynWith href ty) w)).
Proof.
  intros Hrej.
  destruct (import_tier_rejected host SynWith href ty options w Hrej) as [e1 H1].
  destruct (import_tier_rejected host SynAssert href ty options
              (add_event (EvImport SynWith href ty) w) Hrej) as [e2 H2].
  exists e1, (add_event (EvImport SynWith href ty) w), e2. split; assumption.
Qed.

Lemma wisp_read_fails fuel input options w w1 w3 href e :
  target_url host input options w = (Ret href, w1) ->
  type_or_default options = "json" ->
  imports_fail host href "json" options w1 w3 ->
  read_parse host href (reviver options) = Err e ->
  wisp host (S fuel) input options w
  = match fallback options with
    | Some fb =>
        if truthy_input (Some fb) then wisp host fuel fb options (add_event (EvRead href) w3)
        else (Throw (load_failure href e), add_event (EvRead href) w3)
    | None => (Throw (load_failure href e), add_event (EvRead href) w3)
    end.
Proof.
  intros Ht Hty (e1 & w2 & e2 & H1 & H2) Hr.
  cbn [wisp]. unfold bind. rewrite Ht, Hty. unfold try_catch.
  rewrite H1, H2. cbn [String.eqb Ascii.eqb Bool.eqb].
  rewrite (raw_tier_read_fails host href options _ e Hr).
  destruct (fallback options) as [fb|]; [|reflexivity].
  destruct (truthy_input (Some fb)); reflexivity.
Qed.

Lemma wispSync_reads fuel input options w w1 href d :
  target_url host input options w = (Ret href, w1) ->
  read_parse host href (reviver options) = Ok d ->
  clone_doc host d = Ok d ->
  validation_error options d = None ->
  exists v w', wispSync host (S fuel) input options w = (Ret v, w') /\ deref w' v = SDoc d.
Proof.
  intros Ht Hr Hc Hv. cbn [wispSync]. unfold bind. rewrite Ht. unfold try_catch.
  rewrite (raw_tier_success host href options w1 d Hr Hc Hv).
  eexists _, _. split; [reflexivity|]. cbn.
  rewrite lookup_app_r by lia.
  replace (S (length (heap w1)) - length (heap w1)) with 1 by lia. reflexivity.
Qed.

Lemma wisp_reads fuel input options w w1 w3 href d :
  target_url host input options w = (Ret href, w1) ->
  type_or_default options = "json" ->
  imports_fail host href "json" options w1 w3 ->
  read_parse host href (reviver options) = Ok d ->
  clone_doc host d = Ok d ->
  validation_error options d = None ->
  exists v w', wisp host (S fuel) input options w = (Ret v, w') /\ deref w' v = SDoc d.
Proof.
  intros Ht Hty (e1 & w2 & e2 & H1 & H2) Hr Hc Hv.
  cbn [wisp]. unfold bind. rewrite Ht, Hty. unfold try_catch.
  rewrite H1, H2. cbn [String.eqb Ascii.eqb Bool.eqb].
  rewrite (raw_tier_success host href options _ d Hr Hc Hv).
  eexists _, _. split; [reflexivity|]. cbn.
  rewrite lookup_app_r by lia.
  replace (S (length (heap w3)) - length (heap w3)) with 1 by lia. reflexivity.
Qed.

End FallbackSteps.

(** C2.  A validation function raising "X" on an existing, well-formed
    file: the inner handler builds the message "@cldmv/wisp: X", but the
    handler of the enclosing [try] catches that error too.  Without a
    fallback the call fails with the load-failure message wrapped around
    it, in both loaders; with a fallback whose document passes, the call
    does not fail at all. *)
Theorem validation_failure_is_rewrapped :
  let rejecting := mkOptions None (Some (fun _ => Some "X")) None None None in
  let picky :=
    mkOptions None
      (Some (fun d => match d with
                      | JObj (("foo", _) :: _) => Some "X"
                      | _ => None
                      end))
      None None (Some (InStr "/pkg/test/fixtures/caller.json")) in
  let input := InStr "/pkg/test/fixtures/sample.json" in
  let rewrapped :=
    mkError KError
      ("@cldmv/wisp: Failed to load JSON file at file:///pkg/test/fixtures/sample.json: "
       ++ "@cldmv/wisp: X") in
  fst (wispSync Fixture.host 2 input rejecting Fixture.world0) = Throw rewrapped
  /\ fst (wisp Fixture.host 2 input rejecting Fixture.world0) = Throw rewrapped
  /\ message rewrapped <> "@cldmv/wisp: X"
  /\ match wispSync Fixture.host 2 input picky Fixture.world0 with
     | (Ret v, w') => deref w' v = SDoc Fixture.other
     | _ => False
     end.
Proof.
  cbn zeta. split; [vm_compute; reflexivity|]. split; [vm_compute; reflexivity|].
  split; [vm_compute; discriminate|]. vm_compute. reflexivity.
Qed.

(** C3.  [wispSync] with a declared type other than ["json"] on an
    existing file of JSON text: the raw-read tier is entered and its
    document is returned, where [wisp] on the same call raises the
    unsupported-type failure. *)
Theorem wispSync_reads_non_json_type :
  let options := mkOptions None None None (Some "yaml") None in
  let input := InStr "/pkg/test/fixtures/sample.json" in
  match wispSync Fixture.host 2 input options Fixture.world0 with
  | (Ret v, w') =>
      deref w' v = SDoc Fixture.sample
      /\ trace w' = [EvRead "file:///pkg/test/fixtures/sample.json"]
  | _ => False
  end
  /\ fst (wisp Fixture.host 2 input options Fixture.world0)
     = Throw (unsupported_type "yaml" "file:///pkg/test/fixtures/sample.json").
Proof. cbn zeta. split; vm_compute; [split|]; reflexivity. Qed.

(** * Theorems: ownership of what the loaders return *)

Lemma bind_Ret_inv {A B} (m : M A) (k : A -> M B) w b w' :
  bind m k w = (Ret b, w') ->
  exists a w1, m w = (Ret a, w1) /\ k a w1 = (Ret b, w').
Proof.
  unfold bind. destruct (m w) as [[a|e|] w1]; intros H; try discriminate. eauto.
Qed.

Lemma try_catch_Ret_inv {A} (m : M A) (h : JsError -> M A) w v w' :
  try_catch m h w = (Ret v, w') ->
  m w = (Ret v, w') \/ exists e w1, m w = (Throw e, w1) /\ h e w1 = (Ret v, w').
Proof.
  unfold try_catch. destruct (m w) as [[a|e|] w1]; intros H; try discriminate; eauto.
Qed.

Lemma extends_refl w : extends w w.
Proof. split; auto. Qed.

Lemma extends_trans w1 w2 w3 : extends w1 w2 -> extends w2 w3 -> extends w1 w3.
Proof. intros [H1 F1] [H2 F2]. split; [lia|auto]. Qed.

Lemma extends_event (e : Event) w : true = true -> extends w (add_event e w).
Proof. intros _. split; [reflexivity|auto]. Qed.

Lemma extends_alloc d w : extends w (snd (alloc_doc d w)).
Proof.
  split; cbn; [rewrite length_app; lia|].
  intros Hwf key l Hl. cbn in *. rewrite length_app. specialize (Hwf key l Hl). lia.
Qed.

Lemma extends_cache key d w :
  registry w !! key = None ->
  extends w (cache_module key (length (heap w)) (snd (alloc_doc d w))).
Proof.
  intros _. split; cbn; [rewrite length_app; lia|].
  intros Hwf key' l Hl. cbn in *. rewrite length_app. cbn.
  apply lookup_insert_Some in Hl as [[_ <-]|[_ Hl]]; [lia|].
  specialize (Hwf key' l Hl). lia.
Qed.

Section Ownership.

Variable host : Host.

Lemma target_url_extends input options : preserves extends (target_url host input options).
Proof.
  apply (target_url_frame host extends any_event extends_refl extends_trans extends_event);
    reflexivity.
Qed.

Lemma import_tier_extends syn href ty options :
  preserves extends (import_tier host syn href ty options).
Proof.
  apply (import_tier_frame host extends any_event extends_refl extends_trans extends_event
           extends_alloc (fun href ty d w H _ => extends_cache (href, ty) d w H));
    reflexivity.
Qed.

Lemma raw_tier_extends href options : preserves extends (raw_tier host href options).
Proof.
  apply (raw_tier_frame host extends any_event extends_refl extends_trans extends_event
           extends_alloc); reflexivity.
Qed.

Lemma fresh_Ret_inv r w v w' :
  fresh r w = (Ret v, w') ->
  exists d, r = Ok d /\ v = VRef (length (heap w)) /\ w' = snd (alloc_doc d w).
Proof. unfold fresh. destruct r as [d|e]; intros [= <- <-]; eauto. Qed.

Lemma deepClone_Ret_inv v0 w v w' :
  deepClone host v0 w = (Ret v, w') ->
  exists d, v = VRef (length (heap w)) /\ w' = snd (alloc_doc d w).
Proof.
  unfold deepClone, dangling, throw. intros H.
  destruct (has_structuredClone host).
  - destruct v0 as [l|l]; destruct (heap w !! l); try discriminate;
      apply fresh_Ret_inv in H as (d & _ & -> & ->); eauto.
  - destruct (as_json w v0); try discriminate.
    apply fresh_Ret_inv in H as (d & _ & -> & ->); eauto.
Qed.

Lemma validated_world options val w o w' :
  validated options val w = (o, w') -> w' = w.
Proof.
  unfold validated, try_catch, call_validate, dangling, throw, ret.
  destruct (validate options) as [f|]; [|now intros [= _ <-]].
  destruct (as_json w val) as [d|]; [destruct (f d)|]; now intros [= _ <-].
Qed.

(** A structure allocated in a well-formed world lies after everything
    the registry holds. *)
Lemma alloc_is_fresh w w1 d :
  wf w1 -> length (heap w) <= length (heap w1) ->
  fresh_value w (snd (alloc_doc d w1)) (VRef (length (heap w1))).
Proof.
  intros Hwf Hlen. exists (length (heap w1)). cbn. rewrite length_app. cbn.
  repeat split; [lia|lia|]. intros key l' Hl. exact (Hwf key l' Hl).
Qed.

Lemma raw_tier_fresh href options w v w' :
  wf w -> raw_tier host href options w = (Ret v, w') -> fresh_value w w' v.
Proof.
  intros Hwf H. unfold raw_tier in H.
  apply bind_Ret_inv in H as (u & w1 & He & H). injection He as <- <-.
  apply bind_Ret_inv in H as (txt & w2 & Hl & H).
  assert (w2 = add_event (EvRead href) w) as ->
    by (unfold lift in Hl; destruct (readFile host href); now injection Hl as _ <-).
  apply bind_Ret_inv in H as (parsed & w3 & Hp & H).
  apply fresh_Ret_inv in Hp as (d & _ & -> & ->).
  apply bind_Ret_inv in H as (val & w4 & Hc & H).
  apply deepClone_Ret_inv in Hc as (d' & -> & ->).
  apply bind_Ret_inv in H as (u5 & w5 & Hv & H).
  apply validated_world in Hv as ->. injection H as <- <-.
  apply (alloc_is_fresh w (snd (alloc_doc d (add_event (EvRead href) w))) d').
  - apply (extends_alloc d (add_event (EvRead href) w)). exact Hwf.
  - cbn. rewrite length_app. lia.
Qed.

Lemma dynamic_import_Ret_inv syn href ty w l w' :
  dynamic_import host syn href ty w = (Ret l, w') ->
  supports_syntax host syn = true /\ registry w' !! (href, ty) = Some l.
Proof.
  unfold dynamic_import. intros H.
  apply bind_Ret_inv in H as (u & w1 & He & H). injection He as <- <-.
  destruct (supports_syntax host syn); [|discriminate]. split; [reflexivity|].
  destruct (registry (add_event (EvImport syn href ty) w) !! (href, ty)) eqn:Hreg.
  - injection H as <- <-. exact Hreg.
  - destruct (load_module host href ty); [|discriminate].
    injection H as <- <-. cbn. apply lookup_insert_eq.
Qed.

Lemma parse_revived_Ret_inv txt f w v w' :
  parse_revived host txt f w = (Ret v, w') ->
  (exists d, v = VRef (length (heap w)) /\ w' = snd (alloc_doc d w))
  \/ (exists d0 l, kept f d0 = Some l /\ v = VRef l /\ w' = w /\ l < length (heap w)).
Proof.
  unfold parse_revived. intros H.
  destruct (JSON_parse_text host txt) as [d0|e]; [|discriminate].
  destruct (revive f d0) as [d|e]; [|discriminate].
  destruct (kept f d0) as [l|] eqn:Hk.
  - unfold holds in H. destruct (heap w !! l) as [c|] eqn:Hl.
    + destruct (Json_eqb c d).
      * injection H as <- <-. right. exists d0, l.
        repeat split; auto. now apply lookup_lt_Some in Hl.
      * apply fresh_Ret_inv in H as (d' & _ & -> & ->). left. eauto.
    + apply fresh_Ret_inv in H as (d' & _ & -> & ->). left. eauto.
  - apply fresh_Ret_inv in H as (d' & _ & -> & ->). left. eauto.
Qed.

Lemma import_tier_result syn href ty options w v w' :
  wf w -> import_tier host syn href ty options w = (Ret v, w') ->
  fresh_value w w' v
  \/ (fast_path_open host options /\ live_value w' v)
  \/ kept_value options w' v.
Proof.
  intros Hwf H. unfold import_tier in H.
  apply bind_Ret_inv in H as (l & w1 & Hi & H).
  pose proof (dynamic_import_frame host extends any_event extends_refl extends_trans
                extends_event (fun href ty d w H _ => extends_cache (href, ty) d w H)
                (fun _ _ _ => eq_refl) syn href ty w _ _ Hi) as [Hlen1 Hwf1].
  specialize (Hwf1 Hwf).
  apply dynamic_import_Ret_inv in Hi as [Hsyn Hreg].
  apply bind_Ret_inv in H as (target & w2 & Hd & H).
  assert (w2 = w1 /\ (target = VRef l \/ target = VNamespace l)) as [-> Htarget].
  { unfold default_or_module in Hd.
    destruct (heap w1 !! l) as [[]|]; injection Hd as <- <-; auto. }
  destruct (is_none (reviver options) && is_none (validate options)) eqn:Hfast.
  - injection H as <- <-. right. left. split.
    + apply andb_prop in Hfast as [Hr Hv].
      unfold fast_path_open.
      destruct (reviver options), (validate options); try discriminate.
      repeat split; eauto.
    + exists (href, ty), l. auto.
  - apply bind_Ret_inv in H as (val & w3 & Hc & H).
    apply deepClone_Ret_inv in Hc as (d & -> & ->).
    apply bind_Ret_inv in H as (val' & w4 & Hr & H).
    apply bind_Ret_inv in H as (u5 & w5 & Hv & H).
    apply validated_world in Hv as ->. injection H as <- <-.
    destruct (reviver options) as [f|] eqn:Hrev.
    + destruct (as_json (snd (alloc_doc d w1)) (VRef (length (heap w1)))); [|discriminate].
      apply parse_revived_Ret_inv in Hr as [(d' & -> & ->)|(d0 & l' & Hk & -> & -> & Hl)].
      * left. apply (alloc_is_fresh w (snd (alloc_doc d w1)) d').
        -- now apply (extends_alloc d w1).
        -- cbn. rewrite length_app. lia.
      * right. right. exists f, d0, l'. auto.
    + injection Hr as <- <-. left. now apply (alloc_is_fresh w w1 d).
Qed.

Lemma fresh_value_from w0 w w' v :
  length (heap w0) <= length (heap w) -> fresh_value w w' v -> fresh_value w0 w' v.
Proof. intros Hlen (l & -> & H1 & H2 & H3). exists l. repeat split; auto. lia. Qed.

Lemma wispSync_fresh options :
  forall fuel input w v w',
    wf w -> wispSync host fuel input options w = (Ret v, w') -> fresh_value w w' v.
Proof.
  induction fuel as [|fuel IH]; intros input w v w' Hwf H; [discriminate|].
  cbn [wispSync] in H.
  apply bind_Ret_inv in H as (url & w1 & Ht & H).
  destruct (target_url_extends input options w _ _ Ht) as [Hlen1 Hwf1].
  specialize (Hwf1 Hwf).
  apply try_catch_Ret_inv in H as [H|(e & w2 & Hraw & H)].
  - eapply fresh_value_from; [exact Hlen1|].
    now apply raw_tier_fresh with (href := url) (options := options).
  - destruct (raw_tier_extends url options w1 _ _ Hraw) as [Hlen2 Hwf2].
    destruct (fallback options) as [fb|]; [|discriminate].
    destruct (truthy_input (Some fb)); [|discriminate].
    eapply fresh_value_from; [|eapply IH; [|exact H]]; [lia|auto].
Qed.

Lemma wisp_result options :
  forall fuel input w v w',
    wf w -> wisp host fuel input options w = (Ret v, w') ->
    fresh_value w w' v
    \/ (fast_path_open host options /\ live_value w' v)
    \/ (kept_value options w' v /\ exists syn, supports_syntax host syn = true).
Proof.
  induction fuel as [|fuel IH]; intros input w v w' Hwf H; [discriminate|].
  cbn [wisp] in H.
  apply bind_Ret_inv in H as (url & w1 & Ht & H).
  destruct (target_url_extends input options w _ _ Ht) as [Hlen1 Hwf1].
  specialize (Hwf1 Hwf).
  assert (Hlift : forall wk, length (heap w1) <= length (heap wk) ->
            fresh_value wk w' v
            \/ (fast_path_open host options /\ live_value w' v)
            \/ (kept_value options w' v /\ exists syn, supports_syntax host syn = true) ->
            fresh_value w w' v
            \/ (fast_path_open host options /\ live_value w' v)
            \/ (kept_value options w' v /\ exists syn, supports_syntax host syn = true)).
  { intros wk Hk [Hf|Hl]; [left|now right]. eapply fresh_value_from; [|exact Hf]. lia. }
  assert (Htier : forall syn wk,
            wf wk -> import_tier host syn url (type_or_default options) options wk = (Ret v, w') ->
            fresh_value wk w' v
            \/ (fast_path_open host options /\ live_value w' v)
            \/ (kept_value options w' v /\ exists syn, supports_syntax host syn = true)).
  { intros syn wk Hk Hrun.
    destruct (import_tier_result syn url _ options wk v w' Hk Hrun) as [Hf|[Hl|Hkept]];
      [now left|now right; left|].
    right. right. split; [exact Hkept|]. exists syn.
    unfold import_tier in Hrun. apply bind_Ret_inv in Hrun as (l & wl & Hi & _).
    now apply dynamic_import_Ret_inv in Hi as [Hsyn _]. }
  apply try_catch_Ret_inv in H as [H|(e1 & w2 & H1 & H)].
  { apply (Hlift w1); [lia|]. now apply (Htier SynWith). }
  destruct (import_tier_extends _ _ _ _ _ _ _ H1) as [Hlen2 Hwf2]. specialize (Hwf2 Hwf1).
  apply try_catch_Ret_inv in H as [H|(e2 & w3 & H2 & H)].
  { apply (Hlift w2); [lia|]. now apply (Htier SynAssert). }
  destruct (import_tier_extends _ _ _ _ _ _ _ H2) as [Hlen3 Hwf3]. specialize (Hwf3 Hwf2).
  destruct (String.eqb _ _); [|discriminate].
  apply try_catch_Ret_inv in H as [H|(e3 & w4 & H3 & H)].
  { apply (Hlift w3); [lia|]. left. eapply raw_tier_fresh; eauto. }
  destruct (raw_tier_extends _ _ _ _ _ H3) as [Hlen4 Hwf4]. specialize (Hwf4 Hwf3).
  destruct (fallback options) as [fb|]; [|discriminate].
  destruct (truthy_input (Some fb)); [|discriminate].
  apply (Hlift w4); [lia|]. eapply IH; eauto.
Qed.

Lemma wispSync_extends options fuel input :
  preserves extends (wispSync host fuel input options).
Proof.
  apply (wispSync_frame host extends any_event extends_refl extends_trans extends_event
           extends_alloc options); [intros; apply target_url_extends|reflexivity].
Qed.

Lemma wisp_extends options fuel input :
  preserves extends (wisp host fuel input options).
Proof.
  apply (wisp_frame host extends any_event extends_refl extends_trans extends_event
           extends_alloc (fun href ty d w H _ => extends_cache (href, ty) d w H) options);
    [intros; apply target_url_extends|reflexivity|reflexivity].
Qed.

(** Two fresh results, one after the other, do not share a cell. *)
Lemma fresh_values_independent w0 w1 w2 v1 v2 :
  fresh_value w0 w1 v1 -> fresh_value w1 w2 v2 ->
  (forall d, deref (mutate (referent v1) d w2) v2 = deref w2 v2)
  /\ (forall d, deref (mutate (referent v2) d w2) v1 = deref w2 v1)
  /\ ~ live_value w1 v1
  /\ ~ live_value w2 v2.
Proof.
  intros (l1 & -> & _ & Hl1 & Hreg1) (l2 & -> & Hl2 & _ & Hreg).
  assert (Hne : l1 <> l2) by lia. cbn. split; [|split; [|split]].
  - intros d. now rewrite list_lookup_insert_ne.
  - intros d. now rewrite list_lookup_insert_ne.
  - intros (key & l & Hk & [[= <-]|[=]]). specialize (Hreg1 key l1 Hk). lia.
  - intros (key & l & Hk & [[= <-]|[=]]). specialize (Hreg key l2 Hk). lia.
Qed.

End Ownership.




(** The shared cell is the registry's entry for the module. *)
Example wisp_fast_path_is_live :
  match wisp Fixture.host 1 (InStr "/pkg/test/fixtures/sample.json")
          Fixture.no_options Fixture.world0 with
  | (Ret v, w') =>
      v = VRef 0
      /\ registry w' !! ("file:///pkg/test/fixtures/sample.json", "json") = Some 0
  | _ => False
  end.
Proof. vm_compute. split; reflexivity. Qed.

(** The import tiers do not clone what the reviver answers with: a
    reviver that keeps one object and answers with it shares that object
    between two loads by [wisp]. *)
Example wisp_shares_kept_object :
  let keeping := mkReviver (fun _ => Ok Fixture.sample) (fun _ => Some 0) in
  let options := mkOptions None None (Some keeping) None None in
  let input := InStr "/pkg/test/fixtures/sample.json" in
  let w0 := snd (alloc_doc Fixture.sample Fixture.world0) in
  fst (wisp Fixture.host 1 input options w0) = Ret (VRef 0)
  /\ ~ independent_loads (wisp Fixture.host) input options w0.
Proof.
  intros keeping options input w0. split; [vm_compute; reflexivity|].
  intros H.
  set (r1 := wisp Fixture.host 1 input options w0).
  set (r2 := wisp Fixture.host 1 input options (snd r1)).
  assert (H1 : wisp Fixture.host 1 input options w0 = (Ret (VRef 0), snd r1))
    by (vm_compute; reflexivity).
  assert (H2 : wisp Fixture.host 1 input options (snd r1) = (Ret (VRef 0), snd r2))
    by (vm_compute; reflexivity).
  destruct (H 1 1 _ _ _ _ H1 H2) as [Hmut _].
  specialize (Hmut JNull). vm_compute in Hmut. discriminate.
Qed.

(** * Theorems: the two loaders against each other *)

Section PureResults.

Variable host : Host.

Lemma pure_ret {A} (a : A) : pure_result (ret a).
Proof. intros w w'; reflexivity. Qed.

Lemma pure_throw {A} e : pure_result (@throw A e).
Proof. intros w w'; reflexivity. Qed.

Lemma pure_lift {A} (x : result A) : pure_result (lift x).
Proof. destruct x; [apply pure_ret|apply pure_throw]. Qed.

Lemma pure_bind {A B} (m : M A) (k : A -> M B) :
  pure_result m -> (forall a, pure_result (k a)) -> pure_result (bind m k).
Proof.
  intros Hm Hk w w'. unfold bind. specialize (Hm w w').
  destruct (m w) as [[a|e|] w1], (m w') as [[a'|e'|] w1']; cbn in Hm;
    try discriminate; try injection Hm as <-; try reflexivity.
  apply Hk.
Qed.

Ltac done_pure := first [apply pure_ret | apply pure_throw | apply pure_lift].

Lemma getStack_pure skipFn : pure_result (getStack host skipFn).
Proof. intros w w'. now rewrite !getStack_run. Qed.

Lemma resolveUrlFromCaller_pure rel : pure_result (resolveUrlFromCaller host rel).
Proof.
  unfold resolveUrlFromCaller.
  apply pure_bind; [done_pure|intros [|]]; [done_pure|].
  apply pure_bind; [done_pure|intros [|]]; [destruct rel; done_pure|].
  unfold resolveWith. destruct rel; try done_pure.
  assert (Hfb : pure_result (pickFallbackBaseFile host)).
  { apply pure_bind; [apply getStack_pure|intros; done_pure]. }
  apply pure_bind; [apply pure_bind; [apply getStack_pure|intros; done_pure]|intros picked].
  apply pure_bind; [destruct picked; [done_pure|exact Hfb]|intros b].
  apply pure_bind; [done_pure|intros primary].
  apply pure_bind.
  - apply pure_bind; [done_pure|intros p].
    apply pure_bind; [intros w w'; reflexivity|intros; done_pure].
  - intros [|]; [done_pure|].
    apply pure_bind; [exact Hfb|intros fb].
    apply pure_bind; intros; done_pure.
Qed.

Lemma target_url_pure input options : pure_result (target_url host input options).
Proof.
  unfold target_url. destruct input as [href|s]; [done_pure|].
  destruct (startsWith s "file://"); [done_pure|].
  destruct (path_isAbsolute host s); [done_pure|].
  destruct (truthy_input (base options)).
  - destruct (base options); [|done_pure]. apply pure_bind; intros; done_pure.
  - apply pure_bind; [apply resolveUrlFromCaller_pure|intros []; done_pure].
Qed.

End PureResults.

Section Coherence.

Variable host : Host.

Lemma keeps_coherent_refl w : keeps_coherent host w w.
Proof. intros H; exact H. Qed.

Lemma keeps_coherent_trans w1 w2 w3 :
  keeps_coherent host w1 w2 -> keeps_coherent host w2 w3 -> keeps_coherent host w1 w3.
Proof. unfold keeps_coherent; auto. Qed.

Lemma keeps_coherent_event (e : Event) w :
  true = true -> keeps_coherent host w (add_event e w).
Proof. intros _ H; exact H. Qed.

Lemma keeps_coherent_alloc d w : keeps_coherent host w (snd (alloc_doc d w)).
Proof.
  intros [Hh Hr]. split; [exact Hh|]. intros href ty l Hl. cbn in *.
  destruct (Hr href ty l Hl) as (d' & Hd & Hp & Hn). exists d'.
  split; [|auto]. rewrite lookup_app_l; [exact Hd|]. now apply lookup_lt_Some in Hd.
Qed.

Lemma keeps_coherent_cache href ty d w :
  registry w !! (href, ty) = None ->
  load_module host href ty = Ok d ->
  keeps_coherent host w (cache_module (href, ty) (length (heap w)) (snd (alloc_doc d w))).
Proof.
  intros _ Hload [Hh Hr]. split; [exact Hh|]. intros href' ty' l Hl. cbn in *.
  apply lookup_insert_Some in Hl as [[[= <- <-] <-]|[_ Hl]].
  - exists d. split; [|exact (Hh href ty d Hload)].
    rewrite lookup_app_r by lia. now rewrite Nat.sub_diag.
  - destruct (Hr href' ty' l Hl) as (d' & Hd & Hp & Hn). exists d'.
    split; [|auto]. rewrite lookup_app_l; [exact Hd|]. now apply lookup_lt_Some in Hd.
Qed.

Lemma target_url_coherent input options :
  preserves (keeps_coherent host) (target_url host input options).
Proof.
  apply (target_url_frame host (keeps_coherent host) any_event keeps_coherent_refl
           keeps_coherent_trans keeps_coherent_event); reflexivity.
Qed.

Lemma dynamic_import_coherent syn href ty :
  preserves (keeps_coherent host) (dynamic_import host syn href ty).
Proof.
  apply (dynamic_import_frame host (keeps_coherent host) any_event keeps_coherent_refl
           keeps_coherent_trans keeps_coherent_event keeps_coherent_cache); reflexivity.
Qed.

Lemma import_tier_coherent syn href ty options :
  preserves (keeps_coherent host) (import_tier host syn href ty options).
Proof.
  apply (import_tier_frame host (keeps_coherent host) any_event keeps_coherent_refl
           keeps_coherent_trans keeps_coherent_event keeps_coherent_alloc
           keeps_coherent_cache); reflexivity.
Qed.

Lemma raw_tier_coherent href options :
  preserves (keeps_coherent host) (raw_tier host href options).
Proof.
  apply (raw_tier_frame host (keeps_coherent host) any_event keeps_coherent_refl
           keeps_coherent_trans keeps_coherent_event keeps_coherent_alloc); reflexivity.
Qed.

End Coherence.

Section LoadersAgree.

Variable host : Host.

Lemma validated_run options (l : loc) w d :
  heap w !! l = Some d ->
  validated options (VRef l) w
  = (match validation_error options d with
     | Some m => Throw (mkError KError ("@cldmv/wisp: " ++ m))
     | None => Ret tt
     end, w).
Proof.
  intros Hl. unfold validated, validation_error, try_catch, call_validate. cbn.
  destruct (validate options) as [f|]; [|reflexivity].
  rewrite Hl. destruct (f d); reflexivity.
Qed.

Lemma lookup_last (h : list Json) x : ((h ++ [x])%list) !! length h = Some x.
Proof. rewrite lookup_app_r by lia. now rewrite Nat.sub_diag. Qed.

(** The raw-read tier returns the document [raw_doc] names, or raises
    the error it names. *)
Lemma raw_tier_run href options w :
  match raw_doc host href options with
  | Ok d => exists v w', raw_tier host href options w = (Ret v, w') /\ deref w' v = SDoc d
  | Err e => exists w', raw_tier host href options w = (Throw e, w')
  end.
Proof.
  unfold raw_doc, read_parse, raw_tier, bind, emit, lift.
  destruct (readFile host href) as [txt|e]; cbn; [|eauto].
  destruct (JSON_parse host txt (reviver options)) as [d|e]; cbn; [|eauto].
  unfold deepClone, clone_doc. cbn. rewrite lookup_last. cbn.
  destruct (has_structuredClone host); cbn.
  - rewrite (validated_run options _ _ d) by apply lookup_last.
    destruct (validation_error options d); cbn; [eauto|].
    eexists _, _. split; [reflexivity|]. cbn. now rewrite lookup_last.
  - unfold JSON_parse, fresh.
    destruct (JSON_parse_text host (JSON_stringify host d)) as [d'|e]; cbn; [|eauto].
    rewrite (validated_run options _ _ d') by apply lookup_last.
    destruct (validation_error options d'); cbn; [eauto|].
    eexists _, _. split; [reflexivity|]. cbn. now rewrite lookup_last.
Qed.

Lemma clone_doc_round_trip d : round_trips host d -> clone_doc host d = Ok d.
Proof.
  unfold round_trips, clone_doc, JSON_parse. intros H.
  destruct (has_structuredClone host); [reflexivity|]. now rewrite H.
Qed.

Lemma deepClone_run l w d :
  heap w !! l = Some d -> clone_doc host d = Ok d ->
  deepClone host (VRef l) w = (Ret (VRef (length (heap w))), snd (alloc_doc d w)).
Proof.
  unfold deepClone, clone_doc, as_json. intros Hl Hc. rewrite Hl.
  destruct (has_structuredClone host); [reflexivity|]. now rewrite Hc.
Qed.

Lemma read_parse_revive href f d :
  read_parse host href None = Ok d -> read_parse host href (Some f) = f d.
Proof.
  unfold read_parse, JSON_parse. destruct (readFile host href) as [txt|]; cbn; [|discriminate].
  destruct (JSON_parse_text host txt); cbn; [now intros [= ->]|discriminate].
Qed.

Lemma Json_eqb_eq : forall a b, Json_eqb a b = true -> a = b.
Proof.
  fix IH 1. intros [|x|x|x|xs|xs] [|y|y|y|ys|ys]; cbn; try discriminate.
  - reflexivity.
  - intros H. apply Bool.eqb_prop in H. now subst.
  - intros H. apply Z.eqb_eq in H. now subst.
  - intros H. apply String.eqb_eq in H. now subst.
  - intros H. f_equal. revert xs ys H.
    fix IHl 1. intros [|x xs] [|y ys]; try discriminate; [reflexivity|].
    intros H. apply andb_prop in H as [H1 H2].
    f_equal; [exact (IH x y H1)|exact (IHl xs ys H2)].
  - intros H. f_equal. revert xs ys H.
    fix IHl 1. intros [|[k x] xs] [|[k' y] ys]; try discriminate; [reflexivity|].
    intros H. apply andb_prop in H as [H1 H3]. apply andb_prop in H1 as [H1 H2].
    apply String.eqb_eq in H1. subst k'.
    f_equal; [f_equal; exact (IH x y H2)|exact (IHl xs ys H3)].
Qed.

(** Whatever the identity of what the reviver answers with, the
    structure behind it is the one [revive] computes. *)
Lemma parse_revived_doc txt f w o w' d0 :
  JSON_parse_text host txt = Ok d0 ->
  parse_revived host txt f w = (o, w') ->
  match revive f d0 with
  | Ok dr => exists l, o = Ret (VRef l) /\ heap w' !! l = Some dr
  | Err e => o = Throw e
  end.
Proof.
  intros Ht H. unfold parse_revived in H. rewrite Ht in H.
  destruct (revive f d0) as [dr|e]; [|now injection H as <- <-].
  assert (Hfresh : fresh (Ok dr) w = (o, w') ->
                   exists l, o = Ret (VRef l) /\ heap w' !! l = Some dr).
  { intros Hf. cbn in Hf. injection Hf as <- <-. eexists. split; [reflexivity|].
    cbn. apply lookup_last. }
  destruct (kept f d0) as [l|]; [|auto].
  unfold holds in H. destruct (heap w !! l) as [c|] eqn:Hl; [|auto].
  destruct (Json_eqb c dr) eqn:Heq; [|auto].
  apply Json_eqb_eq in Heq as ->. injection H as <- <-. eauto.
Qed.

(** Under agreement, what an import tier returns is what the raw-read
    tier would have returned for the same location. *)
Lemma import_tier_Ret syn href ty options w v w' :
  coherent host w -> codec_ok host options ->
  import_tier host syn href ty options w = (Ret v, w') ->
  exists d, raw_doc host href options = Ok d /\ deref w' v = SDoc d.
Proof.
  intros Hco Hcodec H. unfold import_tier in H.
  apply bind_Ret_inv in H as (l & w1 & Hi & H).
  pose proof (dynamic_import_coherent host syn href ty w _ _ Hi Hco) as [_ Hreg1].
  apply dynamic_import_Ret_inv in Hi as [_ Hl].
  destruct (Hreg1 href ty l Hl) as (dm & Hdm & Hparse & Hnn).
  pose proof (Hcodec href dm (or_introl Hparse)) as Hrt.
  pose proof (clone_doc_round_trip dm Hrt) as Hclone.
  apply bind_Ret_inv in H as (target & w2 & Hd & H).
  assert (target = VRef l /\ w2 = w1) as [-> ->].
  { unfold default_or_module in Hd. rewrite Hdm in Hd.
    destruct dm; try contradiction; injection Hd as <- <-; auto. }
  unfold raw_doc.
  destruct (is_none (reviver options) && is_none (validate options)) eqn:Hfast.
  - injection H as <- <-. apply andb_prop in Hfast as [Hr Hv].
    exists dm. unfold validation_error.
    destruct (reviver options); [discriminate|]. destruct (validate options); [discriminate|].
    rewrite Hparse. cbn. rewrite Hclone. cbn. split; [reflexivity|]. now rewrite Hdm.
  - clear Hfast. unfold bind in H. rewrite (deepClone_run l w1 dm Hdm Hclone) in H.
    destruct (reviver options) as [f|] eqn:Hrev.
    + cbn in H. rewrite lookup_last in H.
      rewrite (read_parse_revive href f dm Hparse).
      match type of H with context [parse_revived host ?t f ?w0] =>
        destruct (parse_revived host t f w0) as [o4 w4] eqn:Hp end.
      apply (parse_revived_doc _ f _ o4 w4 dm Hrt) in Hp.
      destruct (revive f dm) as [dr|e] eqn:Hf; [|subst o4; discriminate].
      destruct Hp as (l' & -> & Hl').
      rewrite (validated_run options _ _ dr Hl') in H.
      assert (Hrt' : round_trips host dr).
      { apply (Hcodec href dr). right. rewrite Hrev.
        now rewrite (read_parse_revive href f dm Hparse). }
      cbn. rewrite (clone_doc_round_trip dr Hrt'). cbn.
      destruct (validation_error options dr); [discriminate|].
      injection H as <- <-. exists dr. split; [reflexivity|]. cbn. now rewrite Hl'.
    + cbn in H. rewrite (validated_run options _ _ dm) in H by apply lookup_last.
      rewrite Hparse. cbn. rewrite Hclone. cbn.
      destruct (validation_error options dm); [discriminate|].
      injection H as <- <-. exists dm. split; [reflexivity|]. cbn. now rewrite lookup_last.
Qed.

Lemma wispSync_step fuel input options w url w1 v w' :
  target_url host input options w = (Ret url, w1) ->
  wispSync host (S fuel) input options w = (Ret v, w') ->
  match raw_doc host url options with
  | Ok d => deref w' v = SDoc d
  | Err e =>
      exists fb w2,
        fallback options = Some fb /\ wispSync host fuel fb options w2 = (Ret v, w')
  end.
Proof.
  intros Ht H. cbn [wispSync] in H. unfold bind in H. rewrite Ht in H.
  unfold try_catch in H. pose proof (raw_tier_run url options w1) as Hraw.
  destruct (raw_doc host url options) as [d|e].
  - destruct Hraw as (v0 & w0 & Hr & Hd). rewrite Hr in H. injection H as <- <-. exact Hd.
  - destruct Hraw as (w0 & Hr). rewrite Hr in H.
    destruct (fallback options) as [fb|]; [|discriminate].
    destruct (truthy_input (Some fb)); [|discriminate]. eauto.
Qed.

Lemma wisp_step fuel input options w url w1 v w' :
  coherent host w -> codec_ok host options ->
  target_url host input options w = (Ret url, w1) ->
  wisp host (S fuel) input options w = (Ret v, w') ->
  (exists d, raw_doc host url options = Ok d /\ deref w' v = SDoc d)
  \/ (exists e fb w2,
        raw_doc host url options = Err e /\ fallback options = Some fb
        /\ coherent host w2 /\ wisp host fuel fb options w2 = (Ret v, w')).
Proof.
  intros Hco Hcodec Ht H. cbn [wisp] in H. unfold bind in H. rewrite Ht in H.
  pose proof (target_url_coherent host input options w _ _ Ht Hco) as Hco1.
  apply try_catch_Ret_inv in H as [H|(e1 & w2 & H1 & H)].
  { left. eapply import_tier_Ret; eauto. }
  pose proof (import_tier_coherent host _ _ _ _ _ _ _ H1 Hco1) as Hco2.
  apply try_catch_Ret_inv in H as [H|(e2 & w3 & H2 & H)].
  { left. eapply import_tier_Ret; eauto. }
  pose proof (import_tier_coherent host _ _ _ _ _ _ _ H2 Hco2) as Hco3.
  destruct (String.eqb _ _); [|discriminate].
  unfold try_catch in H. pose proof (raw_tier_run url options w3) as Hraw.
  destruct (raw_doc host url options) as [d|e].
  - destruct Hraw as (v0 & w0 & Hr & Hd). rewrite Hr in H. injection H as <- <-.
    left. eauto.
  - destruct Hraw as (w0 & Hr). rewrite Hr in H.
    pose proof (raw_tier_coherent host _ _ _ _ _ Hr Hco3) as Hco4.
    destruct (fallback options) as [fb|]; [|discriminate].
    destruct (truthy_input (Some fb)); [|discriminate].
    right. exists e, fb, w0. auto.
Qed.

Lemma loaders_agree_from options :
  codec_ok host options ->
  forall f1 f2 input wa ws v1 w1 v2 w2,
    coherent host wa ->
    wisp host f1 input options wa = (Ret v1, w1) ->
    wispSync host f2 input options ws = (Ret v2, w2) ->
    deref w1 v1 = deref w2 v2.
Proof.
  intros Hcodec. induction f1 as [|f1 IH]; intros f2 input wa ws v1 w1 v2 w2 Hco HA HS;
    [discriminate|].
  destruct f2 as [|f2]; [discriminate|].
  destruct (target_url host input options wa) as [[url|e|] wa1] eqn:Hta;
    try (cbn [wisp] in HA; unfold bind in HA; rewrite Hta in HA; discriminate).
  destruct (target_url host input options ws) as [[url'|e|] ws1] eqn:Hts;
    try (cbn [wispSync] in HS; unfold bind in HS; rewrite Hts in HS; discriminate).
  assert (url' = url) as ->.
  { pose proof (target_url_pure host input options wa ws) as Hp.
    rewrite Hta, Hts in Hp. now injection Hp as ->. }
  pose proof (wispSync_step f2 input options ws url ws1 v2 w2 Hts HS) as Hsync.
  destruct (wisp_step f1 input options wa url wa1 v1 w1 Hco Hcodec Hta HA)
    as [(d & Hd & Hv)|(e & fb & wa2 & Hd & Hfb & Hco2 & HA')];
    rewrite Hd in Hsync.
  - congruence.
  - destruct Hsync as (fb' & ws2 & Hfb' & HS').
    assert (fb' = fb) as -> by congruence.
    exact (IH f2 fb wa2 ws2 v1 w1 v2 w2 Hco2 HA' HS').
Qed.

End LoadersAgree.

(** C8, as amended.  Started in a world where every module agrees with
    its file (its default export is the document the file parses to,
    and not [null]) and where [JSON.stringify] followed by [JSON.parse]
    gives back the documents involved, a successful [wisp] and a
    successful [wispSync] of the same reference with the same options
    return deep-equal values. *)
Theorem loaders_agree_when_coherent
    (host : Host) (input : Input) (options : Options) (f1 f2 : nat)
    (w w1 w2 : World) (v1 v2 : Value) :
  coherent host w ->
  codec_ok host options ->
  wisp host f1 input options w = (Ret v1, w1) ->
  wispSync host f2 input options w = (Ret v2, w2) ->
  deref w1 v1 = deref w2 v2.
Proof.
  intros Hco Hcodec HA HS.
  exact (loaders_agree_from host options Hcodec f1 f2 input w w v1 w1 v2 w2 Hco HA HS).
Qed.

Section FixtureFacts.

Lemma fixture_documents href rv d :
  read_parse Fixture.host href rv = Ok d ->
  exists d0, (d0 = Fixture.sample \/ d0 = Fixture.other)
             /\ read_parse Fixture.host href None = Ok d0.
Proof.
  unfold read_parse. cbn [readFile Fixture.host Fixture.node].
  unfold Fixture.read_href, Fixture.url_to_path.
  destruct (startsWith href "file://"); cbn [result_bind]; [|discriminate].
  generalize (Fixture.drop_chars 7 href). intros p.
  unfold Fixture.files. cbn [Fixture.lookup_file].
  destruct (String.eqb "/pkg/test/fixtures/sample.json" p).
  { intros _. exists Fixture.sample. split; [now left|vm_compute; reflexivity]. }
  destruct (String.eqb "/pkg/test/fixtures/caller.json" p).
  { intros _. exists Fixture.other. split; [now right|vm_compute; reflexivity]. }
  destruct (String.eqb "/pkg/test/fixtures/broken.json" p); intros H.
  - vm_compute in H. destruct rv; discriminate.
  - discriminate.
Qed.

Lemma fixture_plain_documents href d :
  read_parse Fixture.host href None = Ok d -> d = Fixture.sample \/ d = Fixture.other.
Proof.
  intros H. destruct (fixture_documents href None d H) as (d0 & Hd0 & H0).
  rewrite H in H0. injection H0 as ->. exact Hd0.
Qed.

Lemma fixture_coherent : coherent Fixture.host Fixture.world0.
Proof.
  split.
  - intros href ty d H.
    assert (Hp : read_parse Fixture.host href None = Ok d).
    { cbn [load_module Fixture.host Fixture.node] in H.
      destruct (String.eqb ty "json"); [|discriminate].
      unfold read_parse, JSON_parse. cbn [readFile JSON_parse_text Fixture.host Fixture.node].
      destruct (Fixture.read_href Fixture.files href) as [txt|]; cbn in *; [|discriminate].
      now rewrite H. }
    split; [exact Hp|].
    destruct (fixture_plain_documents href d Hp) as [-> | ->]; discriminate.
  - intros href ty l H. cbn in H. rewrite lookup_empty in H. discriminate.
Qed.

Lemma fixture_codec_ok : codec_ok Fixture.host Fixture.no_options.
Proof.
  intros href d [H|H]; destruct (fixture_plain_documents href d H) as [-> | ->];
    vm_compute; reflexivity.
Qed.

End FixtureFacts.

Lemma loaders_agree_when_coherent_witness :
  let input := InStr "./fixtures/sample.json" in
  let a := wisp Fixture.host 1 input Fixture.no_options Fixture.world0 in
  let s := wispSync Fixture.host 1 input Fixture.no_options Fixture.world0 in
  fst a = Ret (VRef 0) /\ fst s = Ret (VRef 1)
  /\ deref (snd a) (VRef 0) = deref (snd s) (VRef 1).
Proof.
  intros input a s.
  split; [vm_compute; reflexivity|]. split; [vm_compute; reflexivity|].
  apply (loaders_agree_when_coherent Fixture.host input Fixture.no_options 1 1
           Fixture.world0 (snd a) (snd s) (VRef 0) (VRef 1)
           fixture_coherent fixture_codec_ok);
    vm_compute; reflexivity.
Defined.

(** C8, as stated, fails.  After one fast-path load whose result the
    caller has edited, [wisp] answers the edited module value the
    registry holds, [wispSync] the document in the file. *)
Lemma loaders_disagree_after_mutation :
  let input := InStr "/pkg/test/fixtures/sample.json" in
  let first := wisp Fixture.host 1 input Fixture.no_options Fixture.world0 in
  let w := mutate 0 Fixture.edited (snd first) in
  fst first = Ret (VRef 0)
  /\ match wisp Fixture.host 1 input Fixture.no_options w,
           wispSync Fixture.host 1 input Fixture.no_options w with
     | (Ret v1, w1), (Ret v2, w2) =>
         deref w1 v1 = SDoc Fixture.edited
         /\ deref w2 v2 = SDoc Fixture.sample
         /\ deref w1 v1 <> deref w2 v2
     | _, _ => False
     end.
Proof.
  cbn zeta. split; [vm_compute; reflexivity|].
  vm_compute. split; [reflexivity|]. split; [reflexivity|]. discriminate.
Qed.

(** A file whose text is [null]: the fast path of [wisp] answers the
    module namespace object ([mod?.default ?? mod] with a [null]
    default), [wispSync] answers [null]. *)
Example loaders_disagree_on_null :
  let input := InStr "/pkg/test/fixtures/null.json" in
  match wisp Fixture.host_with_null 1 input Fixture.no_options Fixture.world0,
        wispSync Fixture.host_with_null 1 input Fixture.no_options Fixture.world0 with
  | (Ret v1, w1), (Ret v2, w2) =>
      deref w1 v1 = SNamespace JNull /\ deref w2 v2 = SDoc JNull
  | _, _ => False
  end.
Proof. vm_compute. split; reflexivity. Qed.

(** * Theorems: the fallback *)

Section FallbackServed.

Variable host : Host.

(** Under agreement, a load on JSON of a file the raw-read tier would
    serve returns that file's document, whichever tier serves it. *)
Lemma wisp_serves_raw_doc fuel input options w href w1 d :
  coherent host w -> codec_ok host options ->
  type_or_default options = "json" ->
  target_url host input options w = (Ret href, w1) ->
  raw_doc host href options = Ok d ->
  exists v w', wisp host (S fuel) input options w = (Ret v, w') /\ deref w' v = SDoc d.
Proof.
  intros Hco Hcodec Hty Ht Hraw.
  pose proof (target_url_coherent host input options w _ w1 Ht Hco) as Hco1.
  cbn [wisp]. unfold bind. rewrite Ht, Hty. unfold try_catch at 1.
  destruct (import_tier host SynWith href "json" options w1) as [[v|e1|] w2] eqn:H1.
  3: { pose proof (import_tier_total host SynWith href "json" options w1) as T.
       rewrite H1 in T. now contradiction T. }
  { destruct (import_tier_Ret host _ _ _ _ _ _ _ Hco1 Hcodec H1) as (d' & Hd' & Hderef).
    rewrite Hraw in Hd'. injection Hd' as <-. eauto. }
  pose proof (import_tier_coherent host _ _ _ _ _ _ _ H1 Hco1) as Hco2.
  unfold try_catch at 1.
  destruct (import_tier host SynAssert href "json" options w2) as [[v|e2|] w3] eqn:H2.
  3: { pose proof (import_tier_total host SynAssert href "json" options w2) as T.
       rewrite H2 in T. now contradiction T. }
  { destruct (import_tier_Ret host _ _ _ _ _ _ _ Hco2 Hcodec H2) as (d' & Hd' & Hderef).
    rewrite Hraw in Hd'. injection Hd' as <-. eauto. }
  cbn [String.eqb Ascii.eqb Bool.eqb]. unfold try_catch.
  pose proof (raw_tier_run host href options w3) as R. rewrite Hraw in R.
  destruct R as (v & w' & -> & D). eauto.
Qed.

Lemma imports_fail_coherent href ty options w1 w3 :
  imports_fail host href ty options w1 w3 -> coherent host w1 -> coherent host w3.
Proof.
  intros (e1 & w2 & e2 & H1 & H2) Hco.
  apply (import_tier_coherent host _ _ _ _ _ _ _ H2).
  exact (import_tier_coherent host _ _ _ _ _ _ _ H1 Hco).
Qed.

End FallbackServed.

(** C4, as amended.  When the location resolves and reading or parsing
    the file fails: with a truthy [fallback] the loader is the same
    loader run on the fallback with the very same options (for [wisp],
    once the raw-read tier is reached: declared type ["json"] and both
    import blocks ended in their [catch]); without one, it raises the
    failure that names the location and the cause.  When the fallback
    resolves to a file that reads, parses, clones and validates, its
    document is what [wispSync] returns, and what [wisp] returns
    provided the module registry agrees with the files (or both imports
    of the fallback fail), given fuel for the one re-dispatch. *)
Theorem fallback_redispatch
    (host : Host) (fuel : nat) (input : Input) (options : Options)
    (w w1 w3 : World) (href : string) (e : JsError) :
  target_url host input options w = (Ret href, w1) ->
  read_parse host href (reviver options) = Err e ->
  let raw_reached :=
    type_or_default options = "json" /\ imports_fail host href "json" options w1 w3 in
  let ws := add_event (EvRead href) w1 in
  let wa := add_event (EvRead href) w3 in
  (forall fb,
      fallback options = Some fb -> truthy_input (Some fb) = true ->
      wispSync host (S fuel) input options w = wispSync host fuel fb options ws
      /\ (raw_reached -> wisp host (S fuel) input options w = wisp host fuel fb options wa))
  /\ (truthy_input (fallback options) = false ->
      wispSync host (S fuel) input options w = (Throw (load_failure href e), ws)
      /\ (raw_reached ->
          wisp host (S fuel) input options w = (Throw (load_failure href e), wa))
      /\ message (load_failure href e)
         = "@cldmv/wisp: Failed to load JSON file at " ++ href ++ ": " ++ message e)
  /\ (forall fb href2 d,
        fallback options = Some fb -> truthy_input (Some fb) = true ->
        read_parse host href2 (reviver options) = Ok d ->
        clone_doc host d = Ok d ->
        validation_error options d = None ->
        (forall w2,
            target_url host fb options ws = (Ret href2, w2) ->
            exists v w',
              wispSync host (S (S fuel)) input options w = (Ret v, w')
              /\ deref w' v = SDoc d)
        /\ (forall w2 w4,
              raw_reached ->
              target_url host fb options wa = (Ret href2, w2) ->
              (coherent host w /\ codec_ok host options)
              \/ imports_fail host href2 "json" options w2 w4 ->
              exists v w',
                wisp host (S (S fuel)) input options w = (Ret v, w')
                /\ deref w' v = SDoc d)).
Proof.
  intros Ht Hr raw_reached ws wa.
  pose proof (wispSync_read_fails host) as HS.
  pose proof (wisp_read_fails host) as HA.
  split; [|split].
  - intros fb Hfb Htr. split.
    + rewrite (HS _ _ _ _ _ _ _ Ht Hr), Hfb, Htr. reflexivity.
    + intros [Hty Hrej]. rewrite (HA _ _ _ _ _ _ _ _ Ht Hty Hrej Hr), Hfb, Htr. reflexivity.
  - intros Hno. split; [|split].
    + rewrite (HS _ _ _ _ _ _ _ Ht Hr). destruct (fallback options) as [fb|]; [|reflexivity].
      cbn in Hno. cbn. destruct fb; cbn in *; rewrite ?Hno; [discriminate|reflexivity].
    + intros [Hty Hrej]. rewrite (HA _ _ _ _ _ _ _ _ Ht Hty Hrej Hr).
      destruct (fallback options) as [fb|]; [|reflexivity].
      cbn in Hno. cbn. destruct fb; cbn in *; rewrite ?Hno; [discriminate|reflexivity].
    + reflexivity.
  - intros fb href2 d Hfb Htr Hr2 Hc Hv. split.
    + intros w2 Ht2. rewrite (HS _ _ _ _ _ _ _ Ht Hr), Hfb, Htr.
      exact (wispSync_reads host fuel fb options ws w2 href2 d Ht2 Hr2 Hc Hv).
    + intros w2 w4 [Hty Hrej] Ht2 Hserved.
      rewrite (HA _ _ _ _ _ _ _ _ Ht Hty Hrej Hr), Hfb, Htr.
      destruct Hserved as [[Hco Hcodec]|Hrej2].
      * apply (wisp_serves_raw_doc host fuel fb options wa href2 w2 d); auto.
        -- apply (keeps_coherent_event host (EvRead href) w3 eq_refl).
           apply (imports_fail_coherent host href "json" options w1 w3 Hrej).
           exact (target_url_coherent host input options w _ w1 Ht Hco).
        -- unfold raw_doc. rewrite Hr2. cbn. rewrite Hc. cbn. now rewrite Hv.
      * exact (wisp_reads host fuel fb options wa w2 w4 href2 d Ht2 Hty Hrej2 Hr2 Hc Hv).
Qed.

Lemma fallback_redispatch_witness :
  let options :=
    mkOptions None None None None (Some (InStr "/pkg/test/fixtures/sample.json")) in
  let missing := InStr "/pkg/test/fixtures/nonexistent.json" in
  (exists v w',
      wispSync Fixture.host 2 missing options Fixture.world0 = (Ret v, w')
      /\ deref w' v = SDoc Fixture.sample)
  /\ (exists v w',
        wisp Fixture.host 2 missing options Fixture.world0 = (Ret v, w')
        /\ deref w' v = SDoc Fixture.sample)
  /\ (exists v w',
        wisp Fixture.legacy_host 2 missing options Fixture.world0 = (Ret v, w')
        /\ deref w' v = SDoc Fixture.sample)
  /\ wispSync Fixture.host 1 missing Fixture.no_options Fixture.world0
     = (Throw (mkError KError
          ("@cldmv/wisp: Failed to load JSON file at "
           ++ "file:///pkg/test/fixtures/nonexistent.json"
           ++ ": ENOENT: no such file or directory")),
        add_event (EvRead "file:///pkg/test/fixtures/nonexistent.json") Fixture.world0).
Proof.
  intros options missing.
  set (gone := "file:///pkg/test/fixtures/nonexistent.json").
  set (w3 := add_event (EvImport SynAssert gone "json")
               (add_event (EvImport SynWith gone "json") Fixture.world0)).
  pose proof (import_rejected_fails Fixture.host gone "json" options
                Fixture.world0 eq_refl) as Hfail.
  pose proof (import_rejected_fails Fixture.legacy_host gone "json" options
                Fixture.world0 eq_refl) as Hfail_old.
  destruct (fallback_redispatch Fixture.host 0 missing options Fixture.world0 Fixture.world0
              w3 gone Fixture.enoent eq_refl eq_refl)
    as (_ & _ & Hserved).
  destruct (fallback_redispatch Fixture.legacy_host 0 missing options Fixture.world0
              Fixture.world0 w3 gone Fixture.enoent eq_refl eq_refl)
    as (_ & _ & Hold).
  destruct (fallback_redispatch Fixture.host 0 missing Fixture.no_options Fixture.world0
              Fixture.world0 Fixture.world0 gone Fixture.enoent eq_refl eq_refl)
    as (_ & Hnone & _).
  destruct (Hserved (InStr "/pkg/test/fixtures/sample.json")
              "file:///pkg/test/fixtures/sample.json" Fixture.sample
              eq_refl eq_refl eq_refl eq_refl eq_refl) as [Hsync Hasync].
  split; [|split; [|split]].
  - exact (Hsync _ eq_refl).
  - refine (Hasync _ Fixture.world0 (conj eq_refl Hfail) eq_refl _).
    left. split; [exact fixture_coherent|exact fixture_codec_ok].
  - destruct (Hold (InStr "/pkg/test/fixtures/sample.json")
                "file:///pkg/test/fixtures/sample.json" Fixture.sample
                eq_refl eq_refl eq_refl eq_refl eq_refl) as [_ H].
    refine (H _ _ (conj eq_refl Hfail_old) eq_refl _).
    right.
    exact (import_rejected_fails Fixture.legacy_host
             "file:///pkg/test/fixtures/sample.json" "json" options _ eq_refl).
  - exact (proj1 (Hnone eq_refl)).
Defined.

(** C4, as stated, fails for [wisp]: the re-dispatched load goes
    through the import tiers first.  After a caller has edited the value
    a fast-path load of the fallback's file gave it, loading a missing
    reference with that fallback returns the edited module value, not
    the document the fallback's file parses to. *)
Lemma fallback_returns_edited_module :
  let sample := InStr "/pkg/test/fixtures/sample.json" in
  let options := mkOptions None None None None (Some sample) in
  let first := wisp Fixture.host 1 sample Fixture.no_options Fixture.world0 in
  let w := mutate 0 Fixture.edited (snd first) in
  fst first = Ret (VRef 0)
  /\ read_parse Fixture.host "file:///pkg/test/fixtures/sample.json" (reviver options)
     = Ok Fixture.sample
  /\ match wisp Fixture.host 2 (InStr "/pkg/test/fixtures/nonexistent.json") options w,
           wispSync Fixture.host 2 (InStr "/pkg/test/fixtures/nonexistent.json") options w
     with
     | (Ret v1, w1), (Ret v2, w2) =>
         deref w1 v1 = SDoc Fixture.edited
         /\ deref w1 v1 <> SDoc Fixture.sample
         /\ deref w2 v2 = SDoc Fixture.sample
     | _, _ => False
     end.
Proof.
  cbn zeta. split; [vm_compute; reflexivity|]. split; [vm_compute; reflexivity|].
  vm_compute. split; [reflexivity|]. split; [discriminate|reflexivity].
Qed.

(** * Further properties: the package boundary *)

Section PackageRootFacts.

Variable host : Host.
Variable path_join : string -> string -> string.

Lemma ancestor_step k p :
  ancestor host k (path_dirname host p) = ancestor host (S k) p.
Proof. unfold ancestor. now rewrite Nat.iter_succ_r. Qed.

Lemma findPackageRoot_result fuel :
  forall start r,
    findPackageRoot host path_join fuel start = Some r ->
    nearest_manifest host path_join start r.
Proof.
  induction fuel as [|fuel IH]; intros start r H; [discriminate|].
  cbn [findPackageRoot] in H.
  destruct (String.eqb start (path_dirname host start)) eqn:Hroot.
  - injection H as <-. apply String.eqb_eq in Hroot.
    exists 0. split; [intros j Hj; lia|exact Hroot].
  - apply String.eqb_neq in Hroot.
    destruct (existsSync host (path_join start "package.json")) eqn:Hm.
    + injection H as <-. exists 0. split; [intros j Hj; lia|]. cbn. auto.
    + destruct (IH _ _ H) as (k & Hbefore & Hend). exists (S k). split.
      * intros [|j] Hj; [cbn; auto|].
        rewrite <- ancestor_step. apply Hbefore. lia.
      * rewrite <- ancestor_step. exact Hend.
Qed.

Lemma findPackageRoot_enough_fuel k :
  forall start fuel,
    is_root host (ancestor host k start) -> k < fuel ->
    findPackageRoot host path_join fuel start <> None.
Proof.
  induction k as [|k IH]; intros start fuel Hroot Hlt;
    (destruct fuel as [|fuel]; [lia|]); cbn [findPackageRoot].
  - cbn in Hroot. apply String.eqb_eq in Hroot. rewrite Hroot. discriminate.
  - destruct (String.eqb start (path_dirname host start)); [discriminate|].
    destruct (existsSync host (path_join start "package.json")); [discriminate|].
    apply IH; [|lia]. now rewrite ancestor_step.
Qed.

End PackageRootFacts.

(** X1.  When the walk of [findPackageRoot] ends, its answer is the
    nearest ancestor of the start path (the start path included) that
    holds a [package.json] and is not the filesystem root; it is [null]
    exactly when the walk reaches the root first. *)
Theorem findPackageRoot_nearest_manifest
    (host : Host) (path_join : string -> string -> string)
    (fuel : nat) (start : string) (r : option string) :
  findPackageRoot host path_join fuel start = Some r ->
  nearest_manifest host path_join start r.
Proof. apply findPackageRoot_result. Qed.

Lemma findPackageRoot_nearest_manifest_witness :
  findPackageRoot PackageFixture.host PackageFixture.posix_join 8
    "/pkg/src/lib/resolve-from-caller.mjs" = Some (Some "/pkg")
  /\ nearest_manifest PackageFixture.host PackageFixture.posix_join
       "/pkg/src/lib/resolve-from-caller.mjs" (Some "/pkg").
Proof.
  split; [reflexivity|].
  exact (findPackageRoot_nearest_manifest PackageFixture.host PackageFixture.posix_join 8
           "/pkg/src/lib/resolve-from-caller.mjs" (Some "/pkg") eq_refl).
Defined.

(** X2.  The walk ends as soon as some ancestor is the root: with more
    fuel than that ancestor's distance it gives an answer.  The root
    itself is never looked into: started at the root, the answer is
    [null] whether or not a [package.json] lies there. *)
Theorem findPackageRoot_ends_at_root
    (host : Host) (path_join : string -> string -> string)
    (k fuel : nat) (start : string) :
  is_root host (ancestor host k start) ->
  k < fuel ->
  findPackageRoot host path_join fuel start <> None
  /\ (k = 0 -> findPackageRoot host path_join fuel start = Some None).
Proof.
  intros Hroot Hlt. split; [now apply findPackageRoot_enough_fuel with (k := k)|].
  intros ->. destruct fuel as [|fuel]; [lia|]. cbn [findPackageRoot].
  cbn in Hroot. apply String.eqb_eq in Hroot. now rewrite Hroot.
Qed.

Lemma findPackageRoot_ends_at_root_witness :
  findPackageRoot PackageFixture.host PackageFixture.posix_join 8
    "/pkg/src/lib/resolve-from-caller.mjs" <> None
  /\ findPackageRoot PackageFixture.host (fun _ _ => "/pkg/package.json") 1 "/" = Some None.
Proof.
  split.
  - exact (proj1 (findPackageRoot_ends_at_root PackageFixture.host PackageFixture.posix_join
                    4 8 "/pkg/src/lib/resolve-from-caller.mjs" eq_refl
                    ltac:(repeat constructor))).
  - exact (proj2 (findPackageRoot_ends_at_root PackageFixture.host
                    (fun _ _ => "/pkg/package.json") 0 1 "/" eq_refl
                    ltac:(repeat constructor)) eq_refl).
Defined.

(** * Further properties: the two selectors *)

Section SelectorFacts.

Variable host : Host.

Lemma fallback_scan_first_qualifying frames :
  convertible host frames = true ->
  fallback_scan host frames = Ok (hd (THIS_FILE host) (qualifying host frames)).
Proof.
  induction frames as [|cs rest IH]; intros Hconv; [reflexivity|].
  cbn in Hconv. apply andb_prop in Hconv as [Hcs Hrest].
  cbn [fallback_scan qualifying].
  destruct (toFsPath host cs) as [[f|]|e]; [| |discriminate].
  - destruct (skipped host (Some f)); [now apply IH|reflexivity].
  - cbn. now apply IH.
Qed.

Lemma qualifying_not_skipped frames f :
  In f (qualifying host frames) -> skipped host (Some f) = false.
Proof.
  induction frames as [|cs rest IH]; [intros []|]. cbn [qualifying].
  destruct (toFsPath host cs) as [[g|]|e]; auto.
  destruct (skipped host (Some g)) eqn:Hsk; auto.
  intros [<-|Hin]; auto.
Qed.

Lemma primary_scan_answer frames :
  forall st f,
    exitedSrcOrDist st = false ->
    primary_scan host st frames = Ok (Some f) ->
    skipped host (Some f) = false /\ currentIsInSrcOrDist host f = false.
Proof.
  induction frames as [|cs rest IH]; intros st f Hst H; [discriminate|].
  cbn [primary_scan] in H. destruct (toFsPath host cs) as [[g|]|e]; [| |discriminate].
  - destruct (skipped host (Some g)) eqn:Hsk; [now apply (IH st)|].
    rewrite Hst in H.
    destruct (currentIsInSrcOrDist host g) eqn:Hin.
    + rewrite andb_false_r in H. now apply IH in H.
    + destruct (previousWasInSrcOrDist st); cbn in H.
      * injection H as <-. auto.
      * now apply IH in H.
  - cbn in H. now apply (IH st).
Qed.

Lemma classify_without_root f :
  no_package_root host = true -> classify host f = (false, false).
Proof.
  unfold no_package_root, classify. destruct (PACKAGE_ROOT host) as [root|]; [|reflexivity].
  destruct (truthy_str root); [discriminate|reflexivity].
Qed.

Lemma primary_scan_without_root frames :
  no_package_root host = true ->
  forall st f,
    exitedSrcOrDist st = false -> previousWasInSrcOrDist st = false ->
    primary_scan host st frames <> Ok (Some f).
Proof.
  intros Hroot. induction frames as [|cs rest IH]; intros st f Hst Hprev; [discriminate|].
  cbn [primary_scan]. destruct (toFsPath host cs) as [[g|]|e]; [| |discriminate].
  - destruct (skipped host (Some g)); [now apply IH|].
    unfold currentIsInSrcOrDist, currentIsIndex.
    rewrite (classify_without_root g Hroot), Hst, Hprev. cbn.
    now apply IH.
  - cbn. now apply IH.
Qed.

End SelectorFacts.

(** X3.  [pickFallbackBaseFile] takes one stack sample and answers the
    file of the first frame the scan does not skip, or this module's own
    file when every frame is skipped; the answer is never [null]. *)
Theorem pickFallbackBaseFile_first_frame
    (host : Host) (frames : list (option string)) (w : World) :
  frames_of host (Some FnPickFallback) = Ok frames ->
  convertible host frames = true ->
  let answer := hd (THIS_FILE host) (qualifying host frames) in
  pickFallbackBaseFile host w
  = (Ret answer, add_event (EvSample (Some FnPickFallback)) w)
  /\ (answer = THIS_FILE host \/ skipped host (Some answer) = false).
Proof.
  intros Hf Hconv answer. split.
  - rewrite pickFallbackBaseFile_run. unfold selectFallback. rewrite Hf. cbn.
    now rewrite (fallback_scan_first_qualifying host frames Hconv).
  - subst answer. destruct (qualifying host frames) as [|f q] eqn:Hq; [now left|].
    right. apply (qualifying_not_skipped host frames). rewrite Hq. now left.
Qed.

Lemma pickFallbackBaseFile_first_frame_witness :
  fst (pickFallbackBaseFile Fixture.host Fixture.world0) = Ret "/pkg/src/wisp.mjs"
  /\ fst (pickFallbackBaseFile
            (Fixture.node Fixture.files [Some "node:internal/process"; None] true)
            Fixture.world0)
     = Ret "/pkg/src/lib/resolve-from-caller.mjs".
Proof.
  split.
  - now rewrite (proj1 (pickFallbackBaseFile_first_frame Fixture.host Fixture.frames
                          Fixture.world0 eq_refl eq_refl)).
  - now rewrite (proj1 (pickFallbackBaseFile_first_frame
                          (Fixture.node Fixture.files [Some "node:internal/process"; None] true)
                          [Some "node:internal/process"; None] Fixture.world0
                          eq_refl eq_refl)).
Defined.

(** X4.  A file [pickPrimaryBaseFile] answers is never one the scan
    skips (this module's own file, a [node:internal] module, an empty
    name) and never lies inside the package's [src] or [dist] tree. *)
Theorem pickPrimaryBaseFile_answers_outside
    (host : Host) (w : World) (f : string) :
  fst (pickPrimaryBaseFile host w) = Ret (Some f) ->
  f <> THIS_FILE host
  /\ startsWith f "node:internal" = false
  /\ truthy_str f = true
  /\ currentIsInSrcOrDist host f = false.
Proof.
  intros H. rewrite pickPrimaryBaseFile_run in H. cbn in H.
  unfold selectPrimary in H.
  destruct (frames_of host (Some FnPickPrimary)) as [frames|e]; [|discriminate].
  cbn in H. destruct (primary_scan host scan_init frames) as [o|e] eqn:Hscan; [|discriminate].
  injection H as ->.
  destruct (primary_scan_answer host frames scan_init f eq_refl Hscan) as [Hsk Hin].
  cbn in Hsk. apply orb_false_elim in Hsk as [Hsk Hthis].
  apply orb_false_elim in Hsk as [Htruthy Hint].
  repeat split; auto.
  - now apply String.eqb_neq.
  - now apply negb_false_iff.
Qed.

Lemma pickPrimaryBaseFile_answers_outside_witness :
  "/pkg/test/wisp.spec.mjs" <> THIS_FILE Fixture.host
  /\ startsWith "/pkg/test/wisp.spec.mjs" "node:internal" = false
  /\ truthy_str "/pkg/test/wisp.spec.mjs" = true
  /\ currentIsInSrcOrDist Fixture.host "/pkg/test/wisp.spec.mjs" = false.
Proof.
  exact (pickPrimaryBaseFile_answers_outside Fixture.host Fixture.world0
           "/pkg/test/wisp.spec.mjs" eq_refl).
Defined.

(** X5.  When no package root was found ([PACKAGE_ROOT] is [null]),
    no frame counts as inside [src] or [dist], so [pickPrimaryBaseFile]
    never answers a file: it returns [null] (or raises what the stack
    conversion raises) and resolution rests on the fallback selector. *)
Theorem pickPrimaryBaseFile_null_without_root (host : Host) (w : World) :
  no_package_root host = true ->
  fst (pickPrimaryBaseFile host w) = Ret None
  \/ exists e, fst (pickPrimaryBaseFile host w) = Throw e.
Proof.
  intros Hroot. rewrite pickPrimaryBaseFile_run. cbn. unfold selectPrimary.
  destruct (frames_of host (Some FnPickPrimary)) as [frames|e]; [|right; eauto].
  cbn. destruct (primary_scan host scan_init frames) as [[f|]|e] eqn:Hscan.
  - exfalso.
    exact (primary_scan_without_root host frames Hroot scan_init f eq_refl eq_refl Hscan).
  - now left.
  - right. eauto.
Qed.

Lemma pickPrimaryBaseFile_null_without_root_witness :
  fst (pickPrimaryBaseFile (with_root None Fixture.host) Fixture.world0) = Ret None.
Proof.
  destruct (pickPrimaryBaseFile_null_without_root (with_root None Fixture.host)
              Fixture.world0 eq_refl) as [H|[e H]]; [exact H|].
  exfalso. vm_compute in H. discriminate.
Defined.

(** X6.  A string reference that is a [file://] locator or an absolute
    path is answered without looking at the stack or the filesystem, by
    both resolvers and by the loaders' own location step, whatever the
    options: the locator as it is (converted to a path in path mode),
    the absolute path as it is (converted to a locator in URL mode). *)
Theorem located_references_short_circuit
    (host : Host) (r : string) (options : Options) (w : World) :
  already_located host r = true ->
  resolvePathFromCaller host (JString r) w
  = (if startsWith r "file://"
     then to_outcome (result_bind (fileURLToPath host r) (fun p => Ok (JString p)))
     else Ret (JString r), w)
  /\ resolveUrlFromCaller host (JString r) w
     = (Ret (JString (if startsWith r "file://" then r else pathToFileURL host r)), w)
  /\ target_url host (InStr r) options w
     = (if startsWith r "file://" then to_outcome (URL_new host r None)
        else Ret (pathToFileURL host r), w).
Proof.
  unfold already_located, resolvePathFromCaller, resolveUrlFromCaller, target_url, bind, lift.
  cbn. intros H. destruct (startsWith r "file://"); cbn in *.
  - repeat split; [destruct (fileURLToPath host r)|destruct (URL_new host r None)];
      reflexivity.
  - rewrite H. cbn. repeat split.
Qed.

Lemma located_references_short_circuit_witness :
  resolvePathFromCaller Fixture.host (JString "file:///pkg/test/fixtures/sample.json")
    Fixture.world0
  = (Ret (JString "/pkg/test/fixtures/sample.json"), Fixture.world0)
  /\ resolveUrlFromCaller Fixture.host (JString "/pkg/test/fixtures/sample.json")
       Fixture.world0
     = (Ret (JString "file:///pkg/test/fixtures/sample.json"), Fixture.world0).
Proof.
  split.
  - exact (proj1 (located_references_short_circuit Fixture.host
                    "file:///pkg/test/fixtures/sample.json" Fixture.no_options
                    Fixture.world0 eq_refl)).
  - exact (proj1 (proj2 (located_references_short_circuit Fixture.host
                           "/pkg/test/fixtures/sample.json" Fixture.no_options
                           Fixture.world0 eq_refl))).
Defined.

(** * Further properties: what a load leaves behind *)

Section ResolverFrames.

Variable host : Host.
Variable P : World -> World -> Prop.
Variable ok : Event -> bool.

Hypothesis P_refl : forall w, P w w.
Hypothesis P_trans : forall w1 w2 w3, P w1 w2 -> P w2 w3 -> P w1 w3.
Hypothesis P_event : forall e w, ok e = true -> P w (add_event e w).

Lemma resolvePathFromCaller_frame rel :
  (forall k, ok (EvSample k) = true) -> (forall p, ok (EvExists p) = true) ->
  preserves P (resolvePathFromCaller host rel).
Proof.
  intros Hs He. unfold resolvePathFromCaller.
  assert (Hret : forall A (a : A), preserves P (ret a))
    by (intros; apply preserves_ret, P_refl).
  assert (Hthrow : forall A e, preserves P (@throw A e))
    by (intros; apply preserves_throw, P_refl).
  assert (Hlift : forall A (x : result A), preserves P (lift x))
    by (intros; apply preserves_lift, P_refl).
  assert (Hbind : forall A B (m : M A) (k : A -> M B),
             preserves P m -> (forall a, preserves P (k a)) -> preserves P (bind m k))
    by (intros; now apply (frame_bind P P_trans)).
  assert (Hstack : forall k, preserves P (getStack host k))
    by (intros; now apply (getStack_frame host P ok P_event)).
  apply Hbind; [apply Hlift|intros [|]].
  { apply Hbind; [apply Hlift|intros; apply Hret]. }
  apply Hbind; [apply Hlift|intros [|]]; [apply Hret|].
  unfold resolveWith. destruct rel; try apply Hthrow.
  assert (Hfb : preserves P (pickFallbackBaseFile host))
    by (apply Hbind; [apply Hstack|intros; apply Hlift]).
  apply Hbind; [apply Hbind; [apply Hstack|intros; apply Hlift]|intros picked].
  apply Hbind; [destruct picked; [apply Hret|exact Hfb]|intros b].
  apply Hbind; [apply Hret|intros primary].
  apply Hbind.
  - apply Hbind; [now apply (emit_frame P ok P_event)|intros; apply Hret].
  - intros [|]; [apply Hret|].
    apply Hbind; [exact Hfb|intros fb].
    apply Hbind; intros; apply Hret.
Qed.

Hypothesis P_alloc : forall d w, P w (snd (alloc_doc d w)).
Hypothesis P_cache :
  forall href ty d w,
    registry w !! (href, ty) = None ->
    load_module host href ty = Ok d ->
    P w (cache_module (href, ty) (length (heap w)) (snd (alloc_doc d w))).
Hypothesis ok_all : forall e, ok e = true.

Lemma loader_frame sync options fuel input :
  preserves P (loader host sync fuel input options).
Proof.
  assert (Ht : forall i, preserves P (target_url host i options))
    by (intros; apply (target_url_frame host P ok P_refl P_trans P_event); auto).
  destruct sync; cbn [loader].
  - apply (wispSync_frame host P ok P_refl P_trans P_event P_alloc options); auto.
  - apply (wisp_frame host P ok P_refl P_trans P_event P_alloc P_cache options); auto.
Qed.

End ResolverFrames.

Lemma same_hook_refl w : same_hook w w.
Proof. reflexivity. Qed.

Lemma same_hook_trans w1 w2 w3 : same_hook w1 w2 -> same_hook w2 w3 -> same_hook w1 w3.
Proof. unfold same_hook. congruence. Qed.

Lemma keeps_cells_refl w : keeps_cells w w.
Proof. split; auto. Qed.

Lemma keeps_cells_trans w1 w2 w3 :
  keeps_cells w1 w2 -> keeps_cells w2 w3 -> keeps_cells w1 w3.
Proof. intros [H1 R1] [H2 R2]. split; auto. Qed.

Lemma keeps_cells_alloc d w : keeps_cells w (snd (alloc_doc d w)).
Proof.
  split; [|auto]. intros l d' H. cbn. rewrite lookup_app_l; [exact H|].
  now apply lookup_lt_Some in H.
Qed.

Lemma keeps_cells_cache key d w :
  registry w !! key = None ->
  keeps_cells w (cache_module key (length (heap w)) (snd (alloc_doc d w))).
Proof.
  intros Hnone. split.
  - intros l d' H. cbn. rewrite lookup_app_l; [exact H|]. now apply lookup_lt_Some in H.
  - intros key' l H. cbn. rewrite lookup_insert_ne; [exact H|]. congruence.
Qed.

(** X7.  Whatever a load or a resolution does and however it ends,
    [Error.prepareStackTrace] is afterwards what it was before: the
    scoped override of [getStack] never leaks out of [wisp], [wispSync],
    [resolvePathFromCaller] or [resolveUrlFromCaller]. *)
Theorem hook_survives_every_call
    (host : Host) (sync : bool) (fuel : nat) (input : Input) (options : Options)
    (rel : JsVal) (w : World) :
  same_hook w (snd (loader host sync fuel input options w))
  /\ same_hook w (snd (resolvePathFromCaller host rel w))
  /\ same_hook w (snd (resolveUrlFromCaller host rel w)).
Proof.
  split; [|split].
  - destruct (loader host sync fuel input options w) as [o w'] eqn:H.
    exact (loader_frame host same_hook any_event same_hook_refl same_hook_trans
             (fun _ _ _ => eq_refl) (fun _ _ => eq_refl) (fun _ _ _ _ _ _ => eq_refl)
             (fun _ => eq_refl) sync options fuel input w o w' H).
  - destruct (resolvePathFromCaller host rel w) as [o w'] eqn:H.
    exact (resolvePathFromCaller_frame host same_hook any_event same_hook_refl
             same_hook_trans (fun _ _ _ => eq_refl) rel (fun _ => eq_refl)
             (fun _ => eq_refl) w o w' H).
  - destruct (resolveUrlFromCaller host rel w) as [o w'] eqn:H.
    exact (resolveUrlFromCaller_frame host same_hook any_event same_hook_refl
             same_hook_trans (fun _ _ _ => eq_refl) rel (fun _ => eq_refl)
             (fun _ => eq_refl) w o w' H).
Qed.

(** X8.  A load never alters what is already there: every structure
    in the heap before the call is in the heap after it, unchanged, and
    every module the registry held it still holds.  Values handed out
    by earlier loads are not touched by later ones. *)
Theorem loads_keep_existing_cells
    (host : Host) (sync : bool) (fuel : nat) (input : Input) (options : Options)
    (w : World) :
  keeps_cells w (snd (loader host sync fuel input options w)).
Proof.
  destruct (loader host sync fuel input options w) as [o w'] eqn:H.
  exact (loader_frame host keeps_cells any_event keeps_cells_refl keeps_cells_trans
           (fun _ w _ => keeps_cells_refl w) keeps_cells_alloc
           (fun href ty d w Hn _ => keeps_cells_cache (href, ty) d w Hn)
           (fun _ => eq_refl) sync options fuel input w o w' H).
Qed.

Section NoImport.

Variable host : Host.

Abbreviation not_import := (fun e => negb (is_import e)).

Lemma no_import_refl w : no_import w w.
Proof. split; [reflexivity|apply only_events_refl]. Qed.

Lemma no_import_trans w1 w2 w3 : no_import w1 w2 -> no_import w2 w3 -> no_import w1 w3.
Proof.
  intros [R1 E1] [R2 E2]. split; [congruence|].
  exact (only_events_trans _ w1 w2 w3 E1 E2).
Qed.

Lemma no_import_event e w : not_import e = true -> no_import w (add_event e w).
Proof. intros He. split; [reflexivity|now apply only_events_event]. Qed.

Lemma no_import_alloc d w : no_import w (snd (alloc_doc d w)).
Proof. split; [reflexivity|apply only_events_alloc]. Qed.

Lemma wispSync_no_import options fuel input :
  preserves no_import (wispSync host fuel input options).
Proof.
  apply (wispSync_frame host no_import not_import no_import_refl no_import_trans
           no_import_event no_import_alloc options); [|reflexivity].
  intros i. apply (target_url_frame host no_import not_import no_import_refl
                     no_import_trans no_import_event); reflexivity.
Qed.

End NoImport.

(** X9.  [wispSync] has no import tier: no run of it attempts a
    dynamic import, and the module registry after the call is the
    registry before it. *)
Theorem wispSync_never_imports
    (host : Host) (fuel : nat) (input : Input) (options : Options) (w : World) :
  no_import w (snd (wispSync host fuel input options w)).
Proof.
  destruct (wispSync host fuel input options w) as [o w'] eqn:H.
  exact (wispSync_no_import host options fuel input w o w' H).
Qed.

(** * Further properties: validation, purity and the fallback *)

Section LoadResults.

Variable host : Host.

Lemma bind_inv {A B} (m : M A) (k : A -> M B) w o w' :
  bind m k w = (o, w') ->
  (exists a w1, m w = (Ret a, w1) /\ k a w1 = (o, w'))
  \/ (exists e, m w = (Throw e, w') /\ o = Throw e)
  \/ (m w = (Diverge, w') /\ o = Diverge).
Proof.
  unfold bind. destruct (m w) as [[a|e|] w1]; intros H.
  - left. eauto.
  - right. left. injection H as <- <-. eauto.
  - right. right. injection H as <- <-. eauto.
Qed.

Lemma validated_Ret options f val w u w' :
  validate options = Some f ->
  validated options val w = (Ret u, w') ->
  w' = w /\ exists d, as_json w val = Some d /\ f d = None.
Proof.
  intros Hv. unfold validated. rewrite Hv. unfold try_catch, call_validate, dangling, throw.
  destruct (as_json w val) as [d|]; [|discriminate].
  destruct (f d) eqn:Hf; [discriminate|].
  intros H. injection H as _ <-. eauto.
Qed.

Lemma raw_tier_valid href options f w v w' :
  validate options = Some f ->
  raw_tier host href options w = (Ret v, w') ->
  exists d, as_json w' v = Some d /\ f d = None.
Proof.
  intros Hv H. unfold raw_tier in H.
  apply bind_Ret_inv in H as (u1 & w1 & _ & H).
  apply bind_Ret_inv in H as (txt & w2 & _ & H).
  apply bind_Ret_inv in H as (parsed & w3 & _ & H).
  apply bind_Ret_inv in H as (val & w4 & _ & H).
  apply bind_Ret_inv in H as (u2 & w5 & Hval & H).
  injection H as <- <-.
  apply (validated_Ret options f) in Hval as [-> Hd]; assumption.
Qed.

Lemma import_tier_valid syn href ty options f w v w' :
  validate options = Some f ->
  import_tier host syn href ty options w = (Ret v, w') ->
  exists d, as_json w' v = Some d /\ f d = None.
Proof.
  intros Hv H. unfold import_tier in H.
  apply bind_Ret_inv in H as (l & w1 & _ & H).
  apply bind_Ret_inv in H as (target & w2 & _ & H).
  rewrite Hv in H. cbn [is_none] in H. rewrite andb_false_r in H.
  apply bind_Ret_inv in H as (val & w3 & _ & H).
  apply bind_Ret_inv in H as (val' & w4 & _ & H).
  apply bind_Ret_inv in H as (u & w5 & Hval & H).
  injection H as <- <-.
  apply (validated_Ret options f) in Hval as [-> Hd]; assumption.
Qed.

Lemma wispSync_valid options f :
  validate options = Some f ->
  forall fuel input w v w',
    wispSync host fuel input options w = (Ret v, w') ->
    exists d, as_json w' v = Some d /\ f d = None.
Proof.
  intros Hv. induction fuel as [|fuel IH]; intros input w v w' H; [discriminate|].
  cbn [wispSync] in H.
  apply bind_Ret_inv in H as (url & w1 & _ & H).
  apply try_catch_Ret_inv in H as [H|(e & w2 & _ & H)].
  - exact (raw_tier_valid url options f w1 v w' Hv H).
  - destruct (fallback options) as [fb|]; [|discriminate].
    destruct (truthy_input (Some fb)); [|discriminate]. exact (IH fb w2 v w' H).
Qed.

Lemma wisp_valid options f :
  validate options = Some f ->
  forall fuel input w v w',
    wisp host fuel input options w = (Ret v, w') ->
    exists d, as_json w' v = Some d /\ f d = None.
Proof.
  intros Hv. induction fuel as [|fuel IH]; intros input w v w' H; [discriminate|].
  cbn [wisp] in H.
  apply bind_Ret_inv in H as (url & w1 & _ & H).
  apply try_catch_Ret_inv in H as [H|(e1 & w2 & _ & H)].
  { exact (import_tier_valid _ _ _ options f w1 v w' Hv H). }
  apply try_catch_Ret_inv in H as [H|(e2 & w3 & _ & H)].
  { exact (import_tier_valid _ _ _ options f w2 v w' Hv H). }
  destruct (String.eqb (type_or_default options) "json"); [|discriminate].
  apply try_catch_Ret_inv in H as [H|(e & w4 & _ & H)].
  - exact (raw_tier_valid url options f w3 v w' Hv H).
  - destruct (fallback options) as [fb|]; [|discriminate].
    destruct (truthy_input (Some fb)); [|discriminate]. exact (IH fb w4 v w' H).
Qed.

Lemma wispSync_observe options :
  forall fuel input w1 w2,
    observe (wispSync host fuel input options w1)
    = observe (wispSync host fuel input options w2).
Proof.
  induction fuel as [|fuel IH]; intros input w1 w2; [reflexivity|].
  cbn [wispSync]. unfold bind.
  pose proof (target_url_pure host input options w1 w2) as Ht.
  destruct (target_url host input options w1) as [[url|e|] u1];
    destruct (target_url host input options w2) as [[url2|e2|] u2];
    cbn in Ht; try discriminate; try reflexivity.
  2: { injection Ht as <-. reflexivity. }
  injection Ht as <-. unfold try_catch.
  pose proof (raw_tier_run host url options u1) as R1.
  pose proof (raw_tier_run host url options u2) as R2.
  destruct (raw_doc host url options) as [d|e].
  - destruct R1 as (v1 & x1 & -> & D1). destruct R2 as (v2 & x2 & -> & D2).
    cbn. congruence.
  - destruct R1 as (x1 & ->). destruct R2 as (x2 & ->).
    destruct (fallback options) as [fb|]; [|reflexivity].
    destruct (truthy_input (Some fb)); [apply IH|reflexivity].
Qed.

Lemma import_tier_fails syn href ty options w e :
  coherent host w -> codec_ok host options ->
  raw_doc host href options = Err e ->
  exists e' w', import_tier host syn href ty options w = (Throw e', w') /\ coherent host w'.
Proof.
  intros Hco Hcodec Hraw.
  destruct (import_tier host syn href ty options w) as [[v|e'|] w'] eqn:H.
  - destruct (import_tier_Ret host syn href ty options w v w' Hco Hcodec H) as (d & Hd & _).
    congruence.
  - exists e', w'. split; [reflexivity|].
    exact (import_tier_coherent host syn href ty options w _ w' H Hco).
  - pose proof (import_tier_total host syn href ty options w) as T. rewrite H in T.
    now contradiction T.
Qed.

Lemma wisp_cycle options fb e :
  fallback options = Some (InUrl fb) ->
  raw_doc host fb options = Err e ->
  type_or_default options = "json" ->
  codec_ok host options ->
  forall fuel w, coherent host w -> fst (wisp host fuel (InUrl fb) options w) = Diverge.
Proof.
  intros Hfb Hraw Hty Hcodec. induction fuel as [|fuel IH]; intros w Hco; [reflexivity|].
  cbn [wisp target_url]. unfold bind, ret. rewrite Hty. unfold try_catch at 1.
  destruct (import_tier_fails SynWith fb "json" options w e Hco Hcodec Hraw)
    as (e1 & w1 & -> & Hco1).
  unfold try_catch at 1.
  destruct (import_tier_fails SynAssert fb "json" options w1 e Hco1 Hcodec Hraw)
    as (e2 & w2 & -> & Hco2).
  cbn [String.eqb Ascii.eqb Bool.eqb]. unfold try_catch.
  pose proof (raw_tier_run host fb options w2) as R. rewrite Hraw in R.
  destruct R as (w3 & Hr). rewrite Hr, Hfb. cbn [truthy_input]. apply IH.
  exact (raw_tier_coherent host fb options w2 _ w3 Hr Hco2).
Qed.

Lemma wisp_without_fallback options fb :
  String.eqb (type_or_default options) "json" = false ->
  forall fuel input w,
    wisp host fuel input (with_fallback fb options) w = wisp host fuel input options w.
Proof.
  intros Hty [|fuel] input w; [reflexivity|].
  cbn [wisp]. change (type_or_default (with_fallback fb options)) with (type_or_default options).
  rewrite Hty. reflexivity.
Qed.

End LoadResults.

(** X10.  A value that [wisp] or [wispSync] returns under a
    [validate] option has passed it: [validate] was called on that very
    value and did not throw.  This holds on every path to a result, the
    import tiers, the file read and the fallback alike. *)
Theorem returned_value_passed_validate
    (host : Host) (sync : bool) (fuel : nat) (input : Input) (options : Options)
    (f : Json -> option string) (w w' : World) (v : Value) :
  validate options = Some f ->
  loader host sync fuel input options w = (Ret v, w') ->
  exists d, as_json w' v = Some d /\ f d = None.
Proof.
  intros Hv H. destruct sync; cbn [loader] in H.
  - exact (wispSync_valid host options f Hv fuel input w v w' H).
  - exact (wisp_valid host options f Hv fuel input w v w' H).
Qed.

Lemma returned_value_passed_validate_witness :
  let accept := fun d => match d with JNull => Some "empty" | _ => None end in
  let options := mkOptions None (Some accept) None None None in
  let input := InStr "/pkg/test/fixtures/sample.json" in
  let run := wisp Fixture.host 1 input options Fixture.world0 in
  exists v, fst run = Ret v
            /\ exists d, as_json (snd run) v = Some d /\ accept d = None.
Proof.
  intros accept options input run.
  exists (VRef 1). split; [vm_compute; reflexivity|].
  apply (returned_value_passed_validate Fixture.host false 1 input options accept
           Fixture.world0 (snd run) (VRef 1) eq_refl).
  vm_compute. reflexivity.
Defined.


(** X13.  With a [type] other than 'json', [wisp] is import-only: it
    never reads the file itself, and [options.fallback] is never
    consulted, so the call behaves the same whatever fallback it is
    given. *)
Theorem wisp_non_json_is_import_only
    (host : Host) (options : Options) (fb : option Input)
    (fuel : nat) (input : Input) (w : World) :
  String.eqb (type_or_default options) "json" = false ->
  wisp host fuel input (with_fallback fb options) w = wisp host fuel input options w
  /\ no_raw_read w (snd (wisp host fuel input options w)).
Proof.
  intros Hty. split.
  - exact (wisp_without_fallback host options fb Hty fuel input w).
  - destruct (wisp host fuel input options w) as [o w'] eqn:H.
    exact (wisp_non_json_never_reads host options Hty fuel input w o w' H).
Qed.

Lemma wisp_non_json_is_import_only_witness :
  let options := mkOptions None None None (Some "yaml") None in
  let input := InStr "/pkg/test/fixtures/sample.json" in
  let fb := Some (InStr "/pkg/test/fixtures/other.json") in
  wisp Fixture.host 3 input (with_fallback fb options) Fixture.world0
  = wisp Fixture.host 3 input options Fixture.world0
  /\ no_raw_read Fixture.world0 (snd (wisp Fixture.host 3 input options Fixture.world0)).
Proof.
  intros options input fb.
  exact (wisp_non_json_is_import_only Fixture.host options fb 3 input Fixture.world0 eq_refl).
Defined.

(** * Further properties: the order of the tiers *)

Section TierOrder.

Variable host : Host.

Lemma same_trace_refl w : same_trace w w.
Proof. reflexivity. Qed.

Lemma same_trace_trans w1 w2 w3 : same_trace w1 w2 -> same_trace w2 w3 -> same_trace w1 w3.
Proof. unfold same_trace. congruence. Qed.

Lemma same_trace_alloc d w : same_trace w (snd (alloc_doc d w)).
Proof. reflexivity. Qed.

Lemma same_trace_bind {A B} (m : M A) (k : A -> M B) :
  preserves same_trace m -> (forall a, preserves same_trace (k a)) ->
  preserves same_trace (bind m k).
Proof. apply (frame_bind same_trace same_trace_trans). Qed.

Lemma dynamic_import_trace syn href ty w o w' :
  dynamic_import host syn href ty w = (o, w') ->
  trace w' = (trace w ++ [EvImport syn href ty])%list.
Proof.
  unfold dynamic_import, bind, emit. cbn.
  destruct (supports_syntax host syn);
    [destruct (registry w !! (href, ty)); [|destruct (load_module host href ty)]|];
    intros H; injection H as <- <-; reflexivity.
Qed.

Lemma import_tier_trace syn href ty options w o w' :
  import_tier host syn href ty options w = (o, w') ->
  trace w' = (trace w ++ [EvImport syn href ty])%list.
Proof.
  intros H. unfold import_tier in H.
  apply bind_inv in H as [(l & w1 & Hd & H)|[(e & Hd & _)|(Hd & _)]];
    try exact (dynamic_import_trace _ _ _ _ _ _ Hd).
  apply dynamic_import_trace in Hd. rewrite <- Hd.
  revert H. generalize w1 o w'. clear.
  apply same_trace_bind; [apply default_or_module_frame, same_trace_refl|intros target].
  destruct (is_none (reviver options) && is_none (validate options));
    [apply preserves_ret, same_trace_refl|].
  apply same_trace_bind;
    [apply deepClone_frame; [apply same_trace_refl|apply same_trace_alloc]|intros val].
  apply same_trace_bind.
  - destruct (reviver options) as [f|]; [|apply preserves_ret, same_trace_refl].
    intros w r w' H. destruct (as_json w val).
    + exact (parse_revived_frame host same_trace same_trace_refl same_trace_alloc
               _ f w r w' H).
    + injection H as _ <-. reflexivity.
  - intros val'. apply same_trace_bind; [|intros; apply preserves_ret, same_trace_refl].
    apply validated_frame; [apply same_trace_refl|apply same_trace_trans].
Qed.

Lemma raw_tier_trace href options w o w' :
  raw_tier host href options w = (o, w') ->
  trace w' = (trace w ++ [EvRead href])%list.
Proof.
  unfold raw_tier. unfold bind at 1. cbn [emit].
  change (trace w ++ [EvRead href])%list with (trace (add_event (EvRead href) w)).
  generalize (add_event (EvRead href) w). intros w1. revert w1 o w'.
  apply same_trace_bind; [apply preserves_lift, same_trace_refl|intros txt].
  apply same_trace_bind;
    [apply fresh_frame; [apply same_trace_refl|apply same_trace_alloc]|intros parsed].
  apply same_trace_bind;
    [apply deepClone_frame; [apply same_trace_refl|apply same_trace_alloc]|intros val].
  apply same_trace_bind; [|intros; apply preserves_ret, same_trace_refl].
  apply validated_frame; [apply same_trace_refl|apply same_trace_trans].
Qed.

Lemma wisp_appends options fuel input w o w' :
  wisp host fuel input options w = (o, w') ->
  exists evs, trace w' = (trace w ++ evs)%list.
Proof.
  intros H.
  destruct (loader_frame host (only_events any_event) any_event
              (only_events_refl _) (only_events_trans _) (only_events_event _)
              (only_events_alloc _)
              (fun href ty d w H _ => only_events_cache _ (href, ty) d w H)
              (fun _ => eq_refl) false options fuel input w o w' H) as (evs & He & _).
  eauto.
Qed.

End TierOrder.

(** X14.  One level of [wisp] works through its tiers in the order of
    the source text and stops at the first that returns: the import
    with [with], then the import with [assert], then, for JSON only, the
    file read.  Some number [n] of tiers is entered, each in the world
    the one before it left: every tier before the last of them threw,
    the trace holds exactly their [n] events in order, and when the
    last of them returned, the call returns that value in the world
    that tier left.  When it threw, either the type is not JSON and the
    call throws the unsupported-type error after the two imports, or it
    was the file read and the [catch] decides: the load of a truthy
    fallback, else the load failure. *)
Theorem wisp_tiers_in_order
    (host : Host) (fuel : nat) (input : Input) (options : Options)
    (w w1 w' : World) (href : string) (o : outcome Value) :
  target_url host input options w = (Ret href, w1) ->
  wisp host (S fuel) input options w = (o, w') ->
  let ty := type_or_default options in
  let entered := before_tier host href ty options w1 in
  let outcome_of := tier_outcome host href ty options w1 in
  exists n,
    1 <= n <= 3
    /\ (n = 3 -> ty = "json")
    /\ (forall k, S k < n -> exists e, outcome_of k = Throw e)
    /\ trace (entered n) = (trace w1 ++ take n (tiers href ty))%list
    /\ match outcome_of (n - 1) with
       | Ret v => o = Ret v /\ w' = entered n
       | Throw e =>
           (n = 2 /\ ty <> "json"
            /\ o = Throw (unsupported_type ty href) /\ w' = entered 2)
           \/ (n = 3
               /\ (o, w')
                  = match fallback options with
                    | Some fb =>
                        if truthy_input (Some fb) then wisp host fuel fb options (entered 3)
                        else (Throw (load_failure href e), entered 3)
                    | None => (Throw (load_failure href e), entered 3)
                    end)
       | Diverge => False
       end.
Proof.
  intros Ht H ty entered outcome_of. subst entered outcome_of. unfold tier_outcome.
  cbn [wisp] in H. unfold bind in H. rewrite Ht in H. fold ty in H.
  unfold try_catch at 1 in H.
  destruct (import_tier host SynWith href ty options w1) as [[v|e1|] w2] eqn:H1.
  3: { pose proof (import_tier_total host SynWith href ty options w1) as T.
       rewrite H1 in T. now contradiction T. }
  { injection H as <- <-. exists 1. split; [lia|]. split; [lia|].
    split; [intros k Hk; lia|].
    cbn [before_tier tier Nat.sub]. rewrite H1. cbn [fst snd].
    split; [exact (import_tier_trace host _ _ _ _ _ _ _ H1)|]. split; reflexivity. }
  pose proof (import_tier_trace host _ _ _ _ _ _ _ H1) as T1.
  unfold try_catch at 1 in H.
  destruct (import_tier host SynAssert href ty options w2) as [[v|e2|] w3] eqn:H2.
  3: { pose proof (import_tier_total host SynAssert href ty options w2) as T.
       rewrite H2 in T. now contradiction T. }
  { injection H as <- <-. exists 2. split; [lia|]. split; [lia|].
    cbn [before_tier tier Nat.sub]. rewrite H1. cbn [fst snd]. rewrite H2. cbn [fst snd].
    split.
    - intros [|k] Hk; [|lia]. cbn [before_tier tier]. rewrite H1. eauto.
    - split; [|split; reflexivity].
      rewrite (import_tier_trace host _ _ _ _ _ _ _ H2), T1, <- app_assoc. reflexivity. }
  pose proof (import_tier_trace host _ _ _ _ _ _ _ H2) as T2.
  assert (Hearlier : forall k, S k < 3 ->
            exists e, fst (tier host href ty options k
                             (before_tier host href ty options w1 k)) = Throw e).
  { intros [|[|k]] Hk; [| |lia]; cbn [before_tier tier]; rewrite H1; cbn [fst snd];
      [|rewrite H2]; eauto. }
  destruct (String.eqb ty "json") eqn:Hty.
  2: { injection H as <- <-. exists 2. split; [lia|]. split; [lia|].
       split; [intros k Hk; apply Hearlier; lia|].
       cbn [before_tier tier Nat.sub]. rewrite H1. cbn [fst snd]. rewrite H2. cbn [fst snd].
       split; [rewrite T2, T1, <- app_assoc; reflexivity|].
       left. split; [reflexivity|]. split; [|split; reflexivity].
       intros E. rewrite E in Hty. discriminate. }
  apply String.eqb_eq in Hty. unfold try_catch in H.
  exists 3. split; [lia|]. split; [auto|]. split; [exact Hearlier|].
  cbn [before_tier tier Nat.sub]. rewrite H1. cbn [fst snd]. rewrite H2. cbn [fst snd].
  destruct (raw_tier host href options w3) as [[v|e|] w4] eqn:H3; cbn [fst snd].
  3: { pose proof (raw_tier_total host href options w3) as T.
       rewrite H3 in T. now contradiction T. }
  all: split;
    [rewrite (raw_tier_trace host _ _ _ _ _ H3), T2, T1, <- !app_assoc; reflexivity|].
  - injection H as <- <-. split; reflexivity.
  - right. split; [reflexivity|]. rewrite <- H. unfold throw.
    destruct (fallback options) as [fb|]; [destruct (truthy_input (Some fb))|]; reflexivity.
Qed.

Lemma wisp_tiers_in_order_witness :
  let input := InStr "/pkg/test/fixtures/sample.json" in
  let href := "file:///pkg/test/fixtures/sample.json" in
  let run := wisp Fixture.legacy_host 1 input Fixture.no_options Fixture.world0 in
  let entered := before_tier Fixture.legacy_host href "json" Fixture.no_options Fixture.world0 in
  let outcome_of :=
    tier_outcome Fixture.legacy_host href "json" Fixture.no_options Fixture.world0 in
  exists n,
    1 <= n <= 3
    /\ (n = 3 -> "json" = "json")
    /\ (forall k, S k < n -> exists e, outcome_of k = Throw e)
    /\ trace (entered n) = (trace Fixture.world0 ++ take n (tiers href "json"))%list
    /\ match outcome_of (n - 1) with
       | Ret v => fst run = Ret v /\ snd run = entered n
       | Throw e =>
           (n = 2 /\ "json" <> "json"
            /\ fst run = Throw (unsupported_type "json" href) /\ snd run = entered 2)
           \/ (n = 3
               /\ (fst run, snd run)
                  = match fallback Fixture.no_options with
                    | Some fb =>
                        if truthy_input (Some fb)
                        then wisp Fixture.legacy_host 0 fb Fixture.no_options (entered 3)
                        else (Throw (load_failure href e), entered 3)
                    | None => (Throw (load_failure href e), entered 3)
                    end)
       | Diverge => False
       end.
Proof.
  intros input href run entered outcome_of.
  apply (wisp_tiers_in_order Fixture.legacy_host 0 input Fixture.no_options
           Fixture.world0 Fixture.world0 (snd run) href (fst run));
    vm_compute; reflexivity.
Defined.

Section FallbackCycle.

Variable host : Host.

Lemma wispSync_cycle options fb e :
  fallback options = Some (InUrl fb) ->
  raw_doc host fb options = Err e ->
  forall fuel w,
    exists w',
      wispSync host fuel (InUrl fb) options w = (Throw call_stack_exceeded, w')
      /\ trace w' = (trace w ++ replicate fuel (EvRead fb))%list.
Proof.
  intros Hfb Hraw. induction fuel as [|fuel IH]; intros w.
  - exists w. split; [reflexivity|]. cbn. now rewrite app_nil_r.
  - cbn [wispSync target_url]. unfold bind, ret, try_catch.
    pose proof (raw_tier_run host fb options w) as R. rewrite Hraw in R.
    destruct R as (w1 & Hr). rewrite Hr, Hfb. cbn [truthy_input].
    destruct (IH w1) as (w' & Hrun & Htr). exists w'. split; [exact Hrun|].
    rewrite Htr, (raw_tier_trace host fb options w _ w1 Hr). cbn [replicate].
    rewrite <- app_assoc. reflexivity.
Qed.

End FallbackCycle.



(** * The earlier revision's selectors *)

Section LegacyFacts.

Variable host : Host.
Variable basename_lower : string -> string.

Abbreviation is_slothlet := (Legacy.is_slothlet basename_lower).

Lemma last_slothlet_spec files :
  forall i acc,
    match Legacy.last_slothlet basename_lower i acc files with
    | Some k =>
        (i <= k
         /\ (exists s, files !! (k - i) = Some s /\ is_slothlet s = true)
         /\ forall j g, k - i < j -> files !! j = Some g -> is_slothlet g = false)
        \/ (acc = Some k /\ forall j g, files !! j = Some g -> is_slothlet g = false)
    | None => acc = None /\ forall j g, files !! j = Some g -> is_slothlet g = false
    end.
Proof.
  induction files as [|f rest IH]; intros i acc; cbn [Legacy.last_slothlet].
  - destruct acc as [k|]; [right|]; (split; [reflexivity|intros j g H; discriminate]).
  - specialize (IH (S i) (if is_slothlet f then Some i else acc)).
    destruct (Legacy.last_slothlet basename_lower (S i)
                (if is_slothlet f then Some i else acc) rest) as [k|].
    + destruct IH as [(Hle & (s & Hs & Hsl) & Hafter)|(Hacc & Hnone)].
      * left. split; [lia|]. split.
        -- exists s. replace (k - i) with (S (k - S i)) by lia. now split.
        -- intros j g Hj Hg. destruct j as [|j]; [lia|].
           apply (Hafter j g); [lia|exact Hg].
      * destruct (is_slothlet f) eqn:Hf.
        -- injection Hacc as <-. left. split; [lia|]. split.
           ++ exists f. rewrite Nat.sub_diag. now split.
           ++ intros j g Hj Hg. destruct j as [|j]; [lia|]. exact (Hnone j g Hg).
        -- right. split; [exact Hacc|]. intros [|j] g Hg.
           ++ injection Hg as <-. exact Hf.
           ++ exact (Hnone j g Hg).
    + destruct IH as [Hacc Hnone]. destruct (is_slothlet f) eqn:Hf; [discriminate|].
      split; [exact Hacc|]. intros [|j] g Hg.
      * injection Hg as <-. exact Hf.
      * exact (Hnone j g Hg).
Qed.

Lemma select_spec files :
  match Legacy.select basename_lower files with
  | Some f => is_slothlet f = false /\ Legacy.after_last_slothlet basename_lower files f
  | None => Legacy.no_frame_after_slothlet basename_lower files
  end.
Proof.
  unfold Legacy.select.
  pose proof (last_slothlet_spec files 0 None) as L.
  destruct (Legacy.last_slothlet basename_lower 0 None files) as [k|].
  2: { left. exact (proj2 L). }
  destruct L as [(_ & (s & Hs & Hsl) & Hafter)|[Hacc _]]; [|discriminate].
  rewrite Nat.sub_0_r in Hs, Hafter. cbn zeta.
  destruct (Nat.ltb (k + 1) (length files)) eqn:Hj.
  2: { apply Nat.ltb_ge in Hj. right. exists s. split; [|exact Hsl].
       rewrite last_lookup. apply lookup_lt_Some in Hs as Hlt.
       replace (pred (length files)) with k by lia. exact Hs. }
  apply Nat.ltb_lt in Hj.
  destruct (files !! (k + 1)) as [fj|] eqn:Hfj.
  2: { apply lookup_ge_None in Hfj. lia. }
  destruct (Legacy.is_index_name (basename_lower fj) && Nat.ltb (k + 1 + 1) (length files)) eqn:Hidx.
  - apply andb_prop in Hidx as [Hidx Hlt]. apply Nat.ltb_lt in Hlt.
    destruct (files !! (k + 1 + 1)) as [f|] eqn:Hf.
    2: { apply lookup_ge_None in Hf. lia. }
    split; [apply (Hafter (k + 1 + 1) f); [lia|exact Hf]|].
    exists k, s, fj. split; [exact Hs|]. split; [exact Hsl|]. split; [exact Hafter|].
    split; [exact Hfj|]. rewrite Hidx.
    replace (k + 2) with (k + 1 + 1) by lia. now rewrite Hf.
  - split; [apply (Hafter (k + 1) fj); [lia|exact Hfj]|].
    exists k, s, fj. split; [exact Hs|]. split; [exact Hsl|]. split; [exact Hafter|].
    split; [exact Hfj|].
    destruct (Legacy.is_index_name (basename_lower fj)); [|reflexivity].
    cbn in Hidx. apply Nat.ltb_ge in Hidx.
    replace (k + 2) with (k + 1 + 1) by lia.
    now rewrite (proj2 (lookup_ge_None files (k + 1 + 1)) Hidx).
Qed.

Lemma after_excludes_none files f :
  Legacy.after_last_slothlet basename_lower files f ->
  ~ Legacy.no_frame_after_slothlet basename_lower files.
Proof.
  intros (i & s & g & Hs & Hsl & Hafter & Hg & _) [Hnone|(t & Hlast & Ht)].
  - rewrite (Hnone i s Hs) in Hsl. discriminate.
  - rewrite last_lookup in Hlast.
    apply lookup_lt_Some in Hg as Hlt.
    rewrite (Hafter (pred (length files)) t) in Ht; [discriminate|lia|exact Hlast].
Qed.

Lemma legacy_fallback_scan_spec frames f :
  Legacy.fallback_scan host basename_lower frames = Ok f ->
  (f = THIS_FILE host
   /\ forall cs g, cs ∈ frames -> toFsPath host cs = Ok (Some g) ->
                   Legacy.eligible host basename_lower g = false)
  \/ (Legacy.eligible host basename_lower f = true
      /\ exists cs, cs ∈ frames /\ toFsPath host cs = Ok (Some f)).
Proof.
  induction frames as [|cs rest IH]; cbn [Legacy.fallback_scan]; intros H.
  { injection H as <-. left. split; [reflexivity|]. intros cs g Hin. now apply elem_of_nil in Hin. }
  assert (Hskip : (forall g, toFsPath host cs = Ok (Some g) ->
                             Legacy.eligible host basename_lower g = false) ->
                  Legacy.fallback_scan host basename_lower rest = Ok f ->
                  (f = THIS_FILE host
                   /\ forall cs0 g, cs0 ∈ cs :: rest -> toFsPath host cs0 = Ok (Some g) ->
                                    Legacy.eligible host basename_lower g = false)
                  \/ (Legacy.eligible host basename_lower f = true
                      /\ exists cs0, cs0 ∈ cs :: rest /\ toFsPath host cs0 = Ok (Some f))).
  { intros Hcs Hrest. destruct (IH Hrest) as [[-> Hall]|[He (cs0 & Hin & Hc)]].
    - left. split; [reflexivity|]. intros cs0 g Hin Hc.
      apply elem_of_cons in Hin as [->|Hin]; [now apply Hcs|now apply (Hall cs0)].
    - right. split; [exact He|]. exists cs0. split; [apply elem_of_cons; now right|exact Hc]. }
  destruct (toFsPath host cs) as [[g|]|e] eqn:Hc; [|apply Hskip; [discriminate|exact H]|discriminate].
  unfold Legacy.eligible in *.
  destruct (truthy_str g) eqn:E1; cbn [negb] in H;
    [|apply Hskip; [intros g' Hg'; injection Hg' as <-; now rewrite E1|exact H]].
  destruct (startsWith g "node:internal") eqn:E2;
    [apply Hskip; [intros g' Hg'; injection Hg' as <-; now rewrite E1, E2|exact H]|].
  destruct (String.eqb g (THIS_FILE host)) eqn:E3;
    [apply Hskip; [intros g' Hg'; injection Hg' as <-; now rewrite E1, E2, E3|exact H]|].
  destruct (startsWith g (Legacy.THIS_DIR host ++ String (path_sep host) EmptyString)) eqn:E4;
    [apply Hskip; [intros g' Hg'; injection Hg' as <-; now rewrite E1, E2, E3, E4|exact H]|].
  destruct (Legacy.is_slothlet basename_lower g) eqn:E5;
    [apply Hskip; [intros g' Hg'; injection Hg' as <-; now rewrite E1, E2, E3, E4, E5|exact H]|].
  injection H as <-. right. rewrite E1, E2, E3, E4, E5. split; [reflexivity|].
  exists cs. split; [apply elem_of_cons; now left|exact Hc].
Qed.

End LegacyFacts.

(** X15.  The earlier revision's [pickPrimaryBaseFile] anchors on the
    LAST [slothlet.mjs] frame of the stack (compared case-insensitively
    by base name).  What it answers is determined by the frame right
    after it: that frame, unless it is an index file with a successor,
    in which case the successor and nothing else; the answer is never
    itself a [slothlet.mjs] file.  It answers [null] exactly when the
    stack has no such frame or ends with it. *)
Theorem legacy_primary_follows_last_slothlet
    (host : Host) (basename_lower : string -> string) (w : World) (r : option string) :
  fst (Legacy.pickPrimaryBaseFile host basename_lower w) = Ret r ->
  exists frames files,
    frames_of host (Some FnPickPrimary) = Ok frames
    /\ Legacy.collect host frames = Ok files
    /\ (r = None <-> Legacy.no_frame_after_slothlet basename_lower files)
    /\ (forall f, r = Some f ->
          Legacy.is_slothlet basename_lower f = false
          /\ Legacy.after_last_slothlet basename_lower files f).
Proof.
  unfold Legacy.pickPrimaryBaseFile, bind. rewrite getStack_run.
  unfold frames_of. intros H.
  assert (Hgen : forall frames,
             fst (lift (result_bind (Legacy.collect host frames)
                          (fun files => Ok (Legacy.select basename_lower files)))
                    (add_event (EvSample (Some FnPickPrimary)) w)) = Ret r ->
             exists files,
               Legacy.collect host frames = Ok files
               /\ (r = None <-> Legacy.no_frame_after_slothlet basename_lower files)
               /\ (forall f, r = Some f ->
                     Legacy.is_slothlet basename_lower f = false
                     /\ Legacy.after_last_slothlet basename_lower files f)).
  { intros frames Hr. unfold lift in Hr.
    destruct (Legacy.collect host frames) as [files|e]; [|discriminate].
    cbn in Hr. injection Hr as <-. exists files. split; [reflexivity|].
    pose proof (select_spec basename_lower files) as Hs.
    destruct (Legacy.select basename_lower files) as [f|].
    - split.
      + split; [discriminate|]. intros Hno.
        now destruct (after_excludes_none basename_lower files f (proj2 Hs) Hno).
      + intros f' Hf'. injection Hf' as <-. exact Hs.
    - split; [split; auto|discriminate]. }
  destruct (capture host (Some FnPickPrimary)) as [[frames|]|e]; [| |discriminate].
  - destruct (Hgen frames H) as (files & Hc & Hr). exists frames, files. auto.
  - destruct (Hgen [] H) as (files & Hc & Hr). exists [], files. auto.
Qed.

Lemma legacy_primary_follows_last_slothlet_witness :
  exists frames files,
    frames_of LegacyFixture.host (Some FnPickPrimary) = Ok frames
    /\ Legacy.collect LegacyFixture.host frames = Ok files
    /\ (Some "/app/main.mjs" = None
        <-> Legacy.no_frame_after_slothlet LegacyFixture.basename_lower files)
    /\ (forall f, Some "/app/main.mjs" = Some f ->
          Legacy.is_slothlet LegacyFixture.basename_lower f = false
          /\ Legacy.after_last_slothlet LegacyFixture.basename_lower files f).
Proof.
  exact (legacy_primary_follows_last_slothlet LegacyFixture.host
           LegacyFixture.basename_lower Fixture.world0 (Some "/app/main.mjs") eq_refl).
Defined.

(** X16.  The earlier revision's [pickFallbackBaseFile] answers a
    frame of the stack that is none of: empty, a [node:internal]
    module, this file, a file under this file's directory, a
    [slothlet.mjs] file.  Only when the stack has no such frame does it
    answer this file itself. *)
Theorem legacy_fallback_answers_eligible_frame
    (host : Host) (basename_lower : string -> string) (w : World) (f : string) :
  fst (Legacy.pickFallbackBaseFile host basename_lower w) = Ret f ->
  exists frames,
    frames_of host (Some FnPickFallback) = Ok frames
    /\ ((f = THIS_FILE host
         /\ forall cs g, cs ∈ frames -> toFsPath host cs = Ok (Some g) ->
                         Legacy.eligible host basename_lower g = false)
        \/ (Legacy.eligible host basename_lower f = true
            /\ exists cs, cs ∈ frames /\ toFsPath host cs = Ok (Some f))).
Proof.
  unfold Legacy.pickFallbackBaseFile, bind. rewrite getStack_run.
  unfold frames_of, lift. intros H.
  destruct (capture host (Some FnPickFallback)) as [[frames|]|e]; [| |discriminate].
  - exists frames. split; [reflexivity|].
    apply legacy_fallback_scan_spec.
    destruct (Legacy.fallback_scan host basename_lower frames); [|discriminate].
    cbn in H. now injection H as ->.
  - exists []. split; [reflexivity|].
    apply legacy_fallback_scan_spec.
    destruct (Legacy.fallback_scan host basename_lower []); [|discriminate].
    cbn in H. now injection H as ->.
Qed.

Lemma legacy_fallback_answers_eligible_frame_witness :
  fst (Legacy.pickFallbackBaseFile LegacyFixture.host LegacyFixture.basename_lower
         Fixture.world0) = Ret "/app/node_modules/slothlet/lib/helper.mjs"
  /\ exists frames,
       frames_of LegacyFixture.host (Some FnPickFallback) = Ok frames
       /\ ((("/app/node_modules/slothlet/lib/helper.mjs" : string)
            = THIS_FILE LegacyFixture.host
            /\ forall cs g, cs ∈ frames -> toFsPath LegacyFixture.host cs = Ok (Some g) ->
                            Legacy.eligible LegacyFixture.host
                              LegacyFixture.basename_lower g = false)
           \/ (Legacy.eligible LegacyFixture.host LegacyFixture.basename_lower
                 "/app/node_modules/slothlet/lib/helper.mjs" = true
               /\ exists cs, cs ∈ frames
                             /\ toFsPath LegacyFixture.host cs
                                = Ok (Some "/app/node_modules/slothlet/lib/helper.mjs"))).
Proof.
  split; [vm_compute; reflexivity|].
  exact (legacy_fallback_answers_eligible_frame LegacyFixture.host
           LegacyFixture.basename_lower Fixture.world0
           "/app/node_modules/slothlet/lib/helper.mjs" eq_refl).
Defined.

(** * Further properties: clones, the module cache, older runtimes *)

(** X17.  A clone that [deepClone] returns is a structure of its own:
    it is allocated after everything the heap held, the original is
    left as it was, and an edit through either reference is invisible
    through the other.  Under [structuredClone] the clone of a plain
    structure is deep-equal to the original. *)
Theorem deepClone_gives_independent_copy
    (host : Host) (v v' : Value) (w w' : World) :
  deepClone host v w = (Ret v', w') ->
  v' = VRef (length (heap w))
  /\ referent v < referent v'
  /\ deref w' v = deref w v
  /\ (forall d, deref (mutate (referent v') d w') v = deref w v)
  /\ (forall d, deref (mutate (referent v) d w') v' = deref w' v')
  /\ (forall l, v = VRef l -> has_structuredClone host = true -> deref w' v' = deref w v).
Proof.
  intros H.
  assert (Hlive : referent v < length (heap w)).
  { unfold deepClone, dangling, throw, as_json in H.
    destruct (has_structuredClone host), v as [l|l]; cbn [referent];
      destruct (heap w !! l) eqn:Hl; try discriminate;
      now apply lookup_lt_Some in Hl. }
  assert (Hsc : forall l, v = VRef l -> has_structuredClone host = true ->
                          deref w' v' = deref w v).
  { intros l -> Hs. unfold deepClone in H. rewrite Hs in H. cbn [deref].
    destruct (heap w !! l) as [d|] eqn:Hl; [|discriminate].
    cbn in H. injection H as <- <-. cbn.
    rewrite lookup_app_r by lia. now rewrite Nat.sub_diag. }
  destruct (deepClone_Ret_inv host v w v' w' H) as (d & -> & ->).
  cbn [referent] in *.
  assert (Hkeep : forall d0 : Json,
             deref (mutate (length (heap w)) d0 (snd (alloc_doc d w))) v = deref w v).
  { intros d0. destruct v as [l|l]; cbn [referent] in Hlive; cbn;
      (rewrite list_lookup_insert_ne by lia); rewrite lookup_app_l by lia; reflexivity. }
  split; [reflexivity|]. split; [exact Hlive|]. split.
  - destruct v as [l|l]; cbn [referent] in Hlive; cbn; rewrite lookup_app_l by lia;
      reflexivity.
  - split; [exact Hkeep|]. split; [|exact Hsc].
    intros d0. cbn. rewrite list_lookup_insert_ne by lia. reflexivity.
Qed.

Lemma deepClone_gives_independent_copy_witness :
  let w := snd (alloc_doc Fixture.sample Fixture.world0) in
  let w' := snd (alloc_doc Fixture.sample w) in
  deref (mutate 1 Fixture.edited w') (VRef 0) = SDoc Fixture.sample
  /\ deref (mutate 0 Fixture.edited w') (VRef 1) = SDoc Fixture.sample.
Proof.
  intros w w'.
  pose proof (deepClone_gives_independent_copy Fixture.host (VRef 0) (VRef 1) w w' eq_refl)
    as (_ & _ & _ & H1 & H2 & _).
  split; [exact (H1 Fixture.edited)|exact (H2 Fixture.edited)].
Defined.

Section ModuleCache.

Variable host : Host.

Lemma import_tier_fast syn href ty options w :
  supports_syntax host syn = true ->
  reviver options = None -> validate options = None ->
  import_tier host syn href ty options w
  = let w1 := add_event (EvImport syn href ty) w in
    match registry w !! (href, ty) with
    | Some l => default_or_module l w1
    | None =>
        match load_module host href ty with
        | Ok d =>
            default_or_module (length (heap w))
              (cache_module (href, ty) (length (heap w)) (snd (alloc_doc d w1)))
        | Err e => (Throw e, w1)
        end
    end.
Proof.
  intros Hs Hr Hv. unfold import_tier, dynamic_import, bind, emit. cbn.
  rewrite Hs, Hr, Hv. cbn.
  destruct (registry w !! (href, ty)) as [l|].
  - destruct (default_or_module l _) as [[t| |] w2]; reflexivity.
  - destruct (load_module host href ty) as [d|e]; [|reflexivity].
    destruct (default_or_module _ _) as [[t| |] w2]; reflexivity.
Qed.

Lemma default_or_module_same_heap l w1 w2 :
  heap w1 = heap w2 ->
  fst (default_or_module l w1) = fst (default_or_module l w2)
  /\ snd (default_or_module l w1) = w1.
Proof.
  intros Hh. unfold default_or_module. rewrite Hh.
  destruct (heap w2 !! l) as [[]|]; split; reflexivity.
Qed.

Lemma default_or_module_live key l w :
  registry w !! key = Some l ->
  exists v, default_or_module l w = (Ret v, w) /\ live_value w v.
Proof.
  intros Hreg. unfold default_or_module.
  destruct (heap w !! l) as [[]|]; eexists; (split; [reflexivity|]);
    exists key, l; auto.
Qed.

Lemma wisp_import_hit fuel href options w l v w1 :
  supports_syntax host SynWith = true ->
  reviver options = None -> validate options = None ->
  registry w !! (href, type_or_default options) = Some l ->
  default_or_module l (add_event (EvImport SynWith href (type_or_default options)) w)
  = (Ret v, w1) ->
  wisp host (S fuel) (InUrl href) options w = (Ret v, w1).
Proof.
  intros Hs Hr Hv Hreg Hd. cbn [wisp target_url]. unfold bind, ret, try_catch.
  rewrite (import_tier_fast SynWith href _ options w Hs Hr Hv). cbn zeta.
  rewrite Hreg, Hd. reflexivity.
Qed.

End ModuleCache.

(** X18.  The import tier goes through the runtime's module cache.
    With neither [reviver] nor [validate], on a runtime that takes the
    [with] syntax, a load of an importable module returns the cached
    module value, and loading the same URL again returns the very same
    reference: nothing is allocated, nothing is read, only the import
    is recorded. *)
Theorem repeated_import_returns_same_object
    (host : Host) (f1 f2 : nat) (href : string) (options : Options) (w : World) :
  supports_syntax host SynWith = true ->
  reviver options = None -> validate options = None ->
  importable host w href (type_or_default options) = true ->
  exists v w1,
    wisp host (S f1) (InUrl href) options w = (Ret v, w1)
    /\ live_value w1 v
    /\ wisp host (S f2) (InUrl href) options w1
       = (Ret v, add_event (EvImport SynWith href (type_or_default options)) w1).
Proof.
  intros Hs Hr Hv Himp. set (ty := type_or_default options) in *.
  set (e := EvImport SynWith href ty).
  unfold importable in Himp.
  destruct (registry w !! (href, ty)) as [l|] eqn:Hreg.
  - destruct (default_or_module_live (href, ty) l (add_event e w) Hreg) as (v & Hd & Hlive).
    exists v, (add_event e w). split; [|split; [exact Hlive|]].
    + exact (wisp_import_hit host f1 href options w l v _ Hs Hr Hv Hreg Hd).
    + apply (wisp_import_hit host f2 href options (add_event e w) l v _ Hs Hr Hv Hreg).
      pose proof (default_or_module_same_heap l (add_event e (add_event e w)) (add_event e w)
                    eq_refl) as [Hf Hsnd].
      fold ty e. destruct (default_or_module l (add_event e (add_event e w))) as [o w2].
      cbn in Hf, Hsnd. rewrite Hd in Hf. cbn in Hf. now subst.
  - cbn in Himp. destruct (load_module host href ty) as [d|e0] eqn:Hload; [|discriminate].
    set (l := length (heap w)).
    set (w1 := cache_module (href, ty) l (snd (alloc_doc d (add_event e w)))).
    assert (Hreg1 : registry w1 !! (href, ty) = Some l) by apply lookup_insert_eq.
    destruct (default_or_module_live (href, ty) l w1 Hreg1) as (v & Hd & Hlive).
    exists v, w1. split; [|split; [exact Hlive|]].
    + cbn [wisp target_url]. unfold bind, ret, try_catch.
      rewrite (import_tier_fast host SynWith href _ options w Hs Hr Hv). cbn zeta.
      fold ty e. rewrite Hreg, Hload. fold l w1. rewrite Hd. reflexivity.
    + apply (wisp_import_hit host f2 href options w1 l v _ Hs Hr Hv Hreg1).
      pose proof (default_or_module_same_heap l (add_event e w1) w1 eq_refl) as [Hf Hsnd].
      fold ty e. destruct (default_or_module l (add_event e w1)) as [o w2].
      cbn in Hf, Hsnd. rewrite Hd in Hf. cbn in Hf. now subst.
Qed.

Lemma repeated_import_returns_same_object_witness :
  let href := "file:///pkg/test/fixtures/sample.json" in
  exists v w1,
    wisp Fixture.host 1 (InUrl href) Fixture.no_options Fixture.world0 = (Ret v, w1)
    /\ live_value w1 v
    /\ wisp Fixture.host 1 (InUrl href) Fixture.no_options w1
       = (Ret v, add_event (EvImport SynWith href "json") w1).
Proof.
  intros href.
  exact (repeated_import_returns_same_object Fixture.host 0 0 href Fixture.no_options
           Fixture.world0 eq_refl eq_refl eq_refl eq_refl).
Defined.

Section OlderRuntime.

Variable host : Host.
Hypothesis Hold : no_import_attributes host = true.

Lemma imports_rejected w href ty : import_rejected host w href ty = true.
Proof.
  unfold no_import_attributes in Hold. apply andb_prop in Hold as [H1 H2].
  unfold import_rejected. cbn. now rewrite H1, H2.
Qed.

Lemma wisp_observe_as_wispSync options :
  type_or_default options = "json" ->
  forall fuel input wa wb,
    same_unless_exhausted (observe (wisp host fuel input options wa))
      (observe (wispSync host fuel input options wb)).
Proof.
  intros Hty. induction fuel as [|fuel IH]; intros input wa wb; [right; split; reflexivity|].
  cbn [wisp wispSync]. unfold bind.
  pose proof (target_url_pure host input options wa wb) as Ht.
  destruct (target_url host input options wa) as [[url|e|] ua];
    destruct (target_url host input options wb) as [[url2|e2|] ub];
    cbn in Ht; try discriminate; try (left; reflexivity).
  2: { injection Ht as <-. left. reflexivity. }
  injection Ht as <-. rewrite Hty.
  unfold try_catch at 1.
  destruct (import_tier_rejected host SynWith url "json" options ua (imports_rejected _ _ _))
    as (e1 & ->).
  unfold try_catch at 1.
  destruct (import_tier_rejected host SynAssert url "json" options _
              (imports_rejected (add_event (EvImport SynWith url "json") ua) url "json"))
    as (e2 & ->).
  cbn [String.eqb Ascii.eqb Bool.eqb]. unfold try_catch.
  pose proof (raw_tier_run host url options
                (add_event (EvImport SynAssert url "json")
                   (add_event (EvImport SynWith url "json") ua))) as R1.
  pose proof (raw_tier_run host url options ub) as R2.
  destruct (raw_doc host url options) as [d|e].
  - destruct R1 as (v1 & x1 & -> & D1). destruct R2 as (v2 & x2 & -> & D2).
    left. cbn. congruence.
  - destruct R1 as (x1 & ->). destruct R2 as (x2 & ->).
    destruct (fallback options) as [fb|]; [|left; reflexivity].
    destruct (truthy_input (Some fb)); [apply IH|left; reflexivity].
Qed.

End OlderRuntime.



(** X20.  The URL of a load is worked out before the first [try]
    block.  When that step throws (an invalid [base], an invalid URL, a
    failure of the caller detection), the loader throws that very
    error, not wrapped in a wisp message, and [options.fallback] is not
    consulted: the outcome is the same whatever fallback is given. *)
Theorem location_errors_bypass_fallback
    (host : Host) (sync : bool) (fuel : nat) (input : Input) (options : Options)
    (fb : option Input) (e : JsError) (w w1 : World) :
  target_url host input options w = (Throw e, w1) ->
  loader host sync (S fuel) input (with_fallback fb options) w = (Throw e, w1).
Proof.
  intros H.
  assert (Ht : target_url host input (with_fallback fb options) w = (Throw e, w1)).
  { rewrite <- H. unfold target_url. destruct input; reflexivity. }
  destruct sync; cbn [loader wisp wispSync]; unfold bind; rewrite Ht; reflexivity.
Qed.

Lemma location_errors_bypass_fallback_witness :
  let options := mkOptions (Some (InStr "not a url")) None None None None in
  let fb := Some (InStr "/pkg/test/fixtures/sample.json") in
  wisp Fixture.host 3 (InStr "./fixtures/sample.json") (with_fallback fb options)
    Fixture.world0
  = (Throw Fixture.invalid_url, Fixture.world0).
Proof.
  intros options fb.
  exact (location_errors_bypass_fallback Fixture.host false 2
           (InStr "./fixtures/sample.json") options fb Fixture.invalid_url
           Fixture.world0 Fixture.world0 eq_refl).
Defined.
